(** * Flight booking simulator: the booking orchestration core

    A shallow embedding of the Go sources of the booking core: the Redis
    seat-lock repository, the PostgreSQL order and flight repositories,
    the booking activities, the payment simulator, the booking workflow
    and the status fallback of the booking service.

    Conventions.
    - A Go [string] is a [string]; a [[]string] is a [list string].
    - [time.Time] and [time.Duration] are integers counting nanoseconds.
    - A Go [error] result is an [option]: [None] is [nil].
    - A Redis database is a finite map from keys to entries, a PostgreSQL
      table a finite map from primary keys to rows.  The connections are
      taken to be up: a command answers with a value or with [redis.Nil],
      a statement with its row count or with a constraint violation. *)

From Stdlib Require Import ZArith QArith Qcanon Ascii String List Lia.
From stdpp Require Import gmap strings list fin_maps pretty sorting.

Local Open Scope Z_scope.

(** ** Errors *)

(** What the callers in this repository observe of a Go [error]: the text
    of [err.Error()] and, when [errors.As] finds a
    [*temporal.ApplicationError] in the chain, its message and type. *)
Record ApplicationError := {
  appMessage : string;
  appType : string;
}.

Record error := {
  Error : string;
  asApplicationError : option ApplicationError;
}.

(** [errors.New] and [fmt.Errorf]: a plain error. *)
Definition errorString (msg : string) : error :=
  {| Error := msg; asApplicationError := None |}.

(** [temporal.NewApplicationError] / [NewApplicationErrorWithCause] with a
    [nil] cause. *)
Definition NewApplicationError (msg typ : string) : error :=
  {| Error := msg;
     asApplicationError := Some {| appMessage := msg; appType := typ |} |}.

(** [fmt.Errorf("<prefix>: %w", err)]. *)
Definition wrap (prefix : string) (err : error) : error :=
  {| Error := prefix +:+ ": " +:+ Error err;
     asApplicationError := asApplicationError err |}.

(** ** The seat-lock repository (Redis) *)

Module SeatLockRepo.

(** One Redis string key with an expiry: the owning order and the TTL it
    was written with. *)
Record LockEntry := {
  lock_owner : string;
  lock_ttl : Z;
}.

#[global] Instance LockEntry_eq_dec : EqDecision LockEntry.
Proof. solve_decision. Defined.

Definition seatLockKey (flightID seatID : string) : string :=
  "seat:lock:" +:+ flightID +:+ ":" +:+ seatID.

(** [GET key]: [Some v] for a value, [None] for [redis.Nil]. *)
Definition GET (s : gmap string LockEntry) (key : string) : option string :=
  lock_owner <$> s !! key.

(** [Set(key, value, ttl)] of the client.  The expiry goes out in whole
    milliseconds, and none goes out for a [ttl] that is not positive:
    the entry below has the time to live that the store records for a
    [ttl] that is a positive whole number of milliseconds (see
    [wholeMilliseconds] below), and the properties speak of the time to
    live of a written entry for such a [ttl] only. *)
Definition SET (s : gmap string LockEntry) (key value : string) (ttl : Z)
  : gmap string LockEntry :=
  <[key := {| lock_owner := value; lock_ttl := ttl |}]> s.

(** The compare-and-delete script of [ReleaseLocks]:
    [if redis.call("get", KEYS[1]) == ARGV[1] then del KEYS[1]]. *)
Definition compareAndDelete (s : gmap string LockEntry) (key owner : string)
  : gmap string LockEntry :=
  match GET s key with
  | Some v => if decide (v = owner) then delete key s else s
  | None => s
  end.

(** The second loop of [LockSeats]: the first requested seat whose [GET]
    answered with a value other than [orderID]. *)
Fixpoint checkResults (seatIDs : list string) (results : list (option string))
    (orderID : string) : option error :=
  match seatIDs, results with
  | seatID :: seatIDs', result :: results' =>
      match result with
      | Some existingOrderID =>
          if decide (existingOrderID = orderID)
          then checkResults seatIDs' results' orderID
          else Some (errorString ("seat " +:+ seatID +:+ " already locked by order "
                                    +:+ existingOrderID))
      | None => checkResults seatIDs' results' orderID
      end
  | _, _ => None
  end.

(** The second pipeline of [LockSeats]: one [SET] per requested seat. *)
Definition setAll (s : gmap string LockEntry) (flightID : string)
    (seatIDs : list string) (orderID : string) (ttl : Z) : gmap string LockEntry :=
  foldl (fun s seatID => SET s (seatLockKey flightID seatID) orderID ttl) s seatIDs.

Definition LockSeats (s : gmap string LockEntry) (flightID : string)
    (seatIDs : list string) (orderID : string) (ttl : Z)
  : option error * gmap string LockEntry :=
  let results := map (fun seatID => GET s (seatLockKey flightID seatID)) seatIDs in
  match checkResults seatIDs results orderID with
  | Some err => (Some err, s)
  | None => (None, setAll s flightID seatIDs orderID ttl)
  end.

Definition ReleaseLocks (s : gmap string LockEntry) (flightID : string)
    (seatIDs : list string) (orderID : string)
  : option error * gmap string LockEntry :=
  (None,
   foldl (fun s seatID => compareAndDelete s (seatLockKey flightID seatID) orderID)
         s seatIDs).

(** A requested seat is held by somebody else. *)
Definition foreignLock (s : gmap string LockEntry) (flightID orderID seatID : string)
  : Prop :=
  ∃ e, s !! seatLockKey flightID seatID = Some e ∧ lock_owner e ≠ orderID.

(** *** Extending and listing locks *)

Definition Millisecond : Z := 1000000.

(** [d.Milliseconds()]. *)
Definition Milliseconds (d : Z) : Z := Z.quot d Millisecond.

(** A time to live that [SET] hands to the store as it is: positive and
    a whole number of milliseconds. *)
Definition wholeMilliseconds (ttl : Z) : Prop := 0 < ttl ∧ ttl mod Millisecond = 0.

(** [PEXPIRE key ms]: a key that exists gets the new time to live; a time
    to live that is not positive deletes it. *)
Definition PEXPIRE (s : gmap string LockEntry) (key : string) (ms : Z)
  : gmap string LockEntry :=
  match s !! key with
  | Some e =>
      if ms <=? 0 then delete key s
      else <[key := {| lock_owner := lock_owner e; lock_ttl := ms * Millisecond |}]> s
  | None => s
  end.

(** The script of [ExtendLocks]:
    [if redis.call("get", KEYS[1]) == ARGV[1] then pexpire KEYS[1] ARGV[2]]. *)
Definition compareAndExpire (s : gmap string LockEntry) (key owner : string) (ms : Z)
  : gmap string LockEntry :=
  match GET s key with
  | Some v => if decide (v = owner) then PEXPIRE s key ms else s
  | None => s
  end.

Definition ExtendLocks (s : gmap string LockEntry) (flightID : string)
    (seatIDs : list string) (orderID : string) (ttl : Z)
  : option error * gmap string LockEntry :=
  (None,
   foldl (fun s seatID =>
            compareAndExpire s (seatLockKey flightID seatID) orderID (Milliseconds ttl))
         s seatIDs).

(** The Go slice expression [s[lo:]] on a string: a run-time panic when
    [lo] exceeds the length. *)
Definition sliceFrom (s : string) (lo : nat) : option string :=
  if (lo <=? String.length s)%nat
  then Some (substring lo (String.length s - lo) s) else None.

Section Keys.

(** The pattern matching of the Redis [KEYS] command, pattern first. *)
Variable stringmatch : string -> string -> bool.

(** [KEYS pattern]. *)
Definition KEYS (s : gmap string LockEntry) (pattern : string) : list string :=
  filter (fun key => stringmatch pattern key = true) (map_to_list s).*1.

(** The last loop of [GetLockedSeats]: the seat id is what follows the
    prefix in the key.  [None] is a panic of the slice expression. *)
Fixpoint collect (s : gmap string LockEntry) (prefixLen : nat) (keys : list string)
    (result : gmap string string) : option (gmap string string) :=
  match keys with
  | [] => Some result
  | key :: keys' =>
      match GET s key with
      | Some v =>
          match sliceFrom key prefixLen with
          | Some seatID => collect s prefixLen keys' (<[seatID := v]> result)
          | None => None
          end
      | None => collect s prefixLen keys' result
      end
  end.

Definition GetLockedSeats (s : gmap string LockEntry) (flightID : string)
  : option (gmap string string) :=
  let keys := KEYS s ("seat:lock:" +:+ flightID +:+ ":*") in
  collect s (String.length ("seat:lock:" +:+ flightID +:+ ":")) keys ∅.

End Keys.

(** A matcher for the patterns that end in their only star, used in
    examples. *)
Definition literalStar (pattern key : string) : bool :=
  String.prefix (substring 0 (String.length pattern - 1) pattern) key.

End SeatLockRepo.

(** ** Time *)

(** [time.Time] as nanoseconds since the Unix epoch, [time.Duration] as
    nanoseconds. *)
Definition Time := Z.
Definition Duration := Z.

Definition Second : Duration := 1000000000.
Definition Minute : Duration := 60 * Second.

Definition minDuration : Duration := - 2 ^ 63.
Definition maxDuration : Duration := 2 ^ 63 - 1.

(** [t.Add(d)]. *)
Definition Add (t : Time) (d : Duration) : Time := t + d.

(** [t.Sub(u)]: the difference, saturated to the range of [Duration]. *)
Definition Sub (t u : Time) : Duration :=
  Z.max minDuration (Z.min maxDuration (t - u)).

(** [int(d.Seconds())]: the whole seconds of [d], truncated toward zero.
    [Seconds] goes through [float64] and rounds up to the next second for
    long durations (from 2^24 seconds on); the truncation below is what
    it yields for every duration of less than 2^22 seconds, far above the
    hold durations of this program, and the properties speak of the
    number of seconds for such durations only. *)
Definition truncSeconds (d : Duration) : Z := Z.quot d Second.

(** The zero [time.Time] (January 1, year 1 UTC). *)
Definition zeroTime : Time := -62135596800 * Second.
Definition IsZero (t : Time) : bool := bool_decide (t = zeroTime).

(** ** Domain *)

(** The seven constants of [OrderStatus]: the statuses that the [orders]
    table admits ([orders_status_check]) and the only ones the program
    writes.  The type is a string type in the source; the two methods of
    [Order] that look at the status are given on arbitrary strings in
    [StatusString] below. *)
Inductive OrderStatus :=
| OrderStatusCreated
| OrderStatusSeatsReserved
| OrderStatusPaymentPending
| OrderStatusPaymentProcessing
| OrderStatusConfirmed
| OrderStatusFailed
| OrderStatusExpired.

#[global] Instance OrderStatus_eq_dec : EqDecision OrderStatus.
Proof. solve_decision. Defined.

Inductive SeatStatus :=
| SeatStatusAvailable
| SeatStatusReserved
| SeatStatusBooked.

#[global] Instance SeatStatus_eq_dec : EqDecision SeatStatus.
Proof. solve_decision. Defined.

(** The rows of the three tables.  The bookkeeping columns [created_at]
    and [updated_at], which nothing in the core reads, are left out. *)
Record Order := {
  ID : string;
  FlightID : string;
  WorkflowID : string;
  Status : OrderStatus;
  Seats : list string;
  TotalPriceCents : Z;
  PaymentCode : option string;
  ExpiresAt : option Time;
  ConfirmedAt : option Time;
  FailureReason : option string;
}.

Record Seat := {
  seat_ID : string;
  seat_FlightID : string;
  seat_Row : Z;
  seat_Column : string;
  seat_Status : SeatStatus;
  seat_OrderID : option string;
}.

Record Flight := {
  flight_ID : string;
  TotalSeats : Z;
  AvailableSeats : Z;
  PriceCents : Z;
}.

Record OrderStatusResponse := {
  resp_OrderID : string;
  resp_Status : OrderStatus;
  resp_Seats : list string;
  resp_TimerRemaining : Z;
  resp_PaymentAttempts : Z;
  resp_LastError : string;
}.

Definition ErrOrderNotFound : error := errorString "order not found".
Definition ErrInsufficientSeats : error := errorString "insufficient seats available".

Definition IsTerminal (o : Order) : bool :=
  bool_decide (Status o = OrderStatusConfirmed)
  || bool_decide (Status o = OrderStatusFailed)
  || bool_decide (Status o = OrderStatusExpired).

(** The map literal of [CanTransitionTo]. *)
Definition validTransitions (from : OrderStatus) : option (list OrderStatus) :=
  match from with
  | OrderStatusCreated =>
      Some [OrderStatusSeatsReserved; OrderStatusFailed]
  | OrderStatusSeatsReserved =>
      Some [OrderStatusPaymentPending; OrderStatusExpired; OrderStatusFailed]
  | OrderStatusPaymentPending =>
      Some [OrderStatusPaymentProcessing; OrderStatusExpired; OrderStatusFailed]
  | OrderStatusPaymentProcessing =>
      Some [OrderStatusConfirmed; OrderStatusFailed]
  | _ => None
  end.

Definition CanTransitionTo (o : Order) (status : OrderStatus) : bool :=
  match validTransitions (Status o) with
  | None => false
  | Some allowed => existsb (fun s => bool_decide (s = status)) allowed
  end.

Definition ErrFlightNotFound : error := errorString "flight not found".
Definition ErrSeatUnavailable : error := errorString "seat is not available".
Definition ErrInvalidPaymentCode : error := errorString "invalid payment code format".

(** Arithmetic on [int64] and on [time.Duration]: the result wraps
    around. *)
Definition wrap64 (z : Z) : Z := (z + 2 ^ 63) mod 2 ^ 64 - 2 ^ 63.

(** ** The relational store (PostgreSQL) *)

(** [seats] has primary key [(flight_id, id)] and a foreign key from
    [order_id] to [orders(id)]; [flights] checks
    [0 <= available_seats <= total_seats]. *)
Record DB := {
  flights : gmap string Flight;
  seatRows : gmap (string * string) Seat;
  orders : gmap string Order;
}.

Definition with_orders (db : DB) (o : gmap string Order) : DB :=
  {| flights := flights db; seatRows := seatRows db; orders := o |}.
Definition with_seats (db : DB) (s : gmap (string * string) Seat) : DB :=
  {| flights := flights db; seatRows := s; orders := orders db |}.
Definition with_flights (db : DB) (f : gmap string Flight) : DB :=
  {| flights := f; seatRows := seatRows db; orders := orders db |}.

Module OrderRepo.

Definition set_status (status : OrderStatus) (o : Order) : Order :=
  {| ID := ID o; FlightID := FlightID o; WorkflowID := WorkflowID o;
     Status := status; Seats := Seats o; TotalPriceCents := TotalPriceCents o;
     PaymentCode := PaymentCode o; ExpiresAt := ExpiresAt o;
     ConfirmedAt := ConfirmedAt o; FailureReason := FailureReason o |}.

Definition set_confirmed (now : Time) (o : Order) : Order :=
  {| ID := ID o; FlightID := FlightID o; WorkflowID := WorkflowID o;
     Status := OrderStatusConfirmed; Seats := Seats o;
     TotalPriceCents := TotalPriceCents o;
     PaymentCode := PaymentCode o; ExpiresAt := ExpiresAt o;
     ConfirmedAt := Some now; FailureReason := FailureReason o |}.

Definition set_failed (reason : string) (o : Order) : Order :=
  {| ID := ID o; FlightID := FlightID o; WorkflowID := WorkflowID o;
     Status := OrderStatusFailed; Seats := Seats o;
     TotalPriceCents := TotalPriceCents o;
     PaymentCode := PaymentCode o; ExpiresAt := ExpiresAt o;
     ConfirmedAt := ConfirmedAt o; FailureReason := Some reason |}.

(** [UPDATE orders SET ... WHERE id = $n]: the row with this id, if there
    is one, is rewritten by [f]; no row affected is [ErrOrderNotFound]. *)
Definition updateWhereID (db : DB) (id : string) (f : Order -> Order)
  : option error * DB :=
  match orders db !! id with
  | Some o => (None, with_orders db (<[id := f o]> (orders db)))
  | None => (Some ErrOrderNotFound, db)
  end.

Definition FindByID (db : DB) (id : string) : Order + error :=
  match orders db !! id with
  | Some o => inl o
  | None => inr ErrOrderNotFound
  end.

Definition UpdateStatus (db : DB) (id : string) (status : OrderStatus)
  : option error * DB :=
  updateWhereID db id (set_status status).

Definition Confirm (db : DB) (now : Time) (id : string) : option error * DB :=
  updateWhereID db id (set_confirmed now).

Definition Fail (db : DB) (id reason : string) : option error * DB :=
  updateWhereID db id (set_failed reason).

Definition Expire (db : DB) (id : string) : option error * DB :=
  updateWhereID db id (set_status OrderStatusExpired).

(** The four status-writing calls of the repository. *)
Inductive Call :=
| CallUpdateStatus (id : string) (status : OrderStatus)
| CallConfirm (now : Time) (id : string)
| CallFail (id reason : string)
| CallExpire (id : string).

Definition call (db : DB) (c : Call) : option error * DB :=
  match c with
  | CallUpdateStatus id status => UpdateStatus db id status
  | CallConfirm now id => Confirm db now id
  | CallFail id reason => Fail db id reason
  | CallExpire id => Expire db id
  end.

(** A sequence of calls, each on the store the previous one left. *)
Definition calls (db : DB) (cs : list Call) : DB :=
  foldl (fun db c => (call db c).2) db cs.

(** The order a call addresses and the status it writes. *)
Definition callID (c : Call) : string :=
  match c with
  | CallUpdateStatus id _ | CallConfirm _ id | CallFail id _ | CallExpire id => id
  end.

Definition callStatus (c : Call) : OrderStatus :=
  match c with
  | CallUpdateStatus _ status => status
  | CallConfirm _ _ => OrderStatusConfirmed
  | CallFail _ _ => OrderStatusFailed
  | CallExpire _ => OrderStatusExpired
  end.

(** The row a call writes in place of [o]. *)
Definition written (c : Call) (o : Order) : Order :=
  match c with
  | CallUpdateStatus _ status => set_status status o
  | CallConfirm now _ => set_confirmed now o
  | CallFail _ reason => set_failed reason o
  | CallExpire _ => set_status OrderStatusExpired o
  end.

(** An order that was confirmed, and a store that holds it. *)
Definition confirmedOrder : Order :=
  {| ID := "o1"; FlightID := "f1"; WorkflowID := "booking-o1";
     Status := OrderStatusConfirmed; Seats := ["1A"]; TotalPriceCents := 100;
     PaymentCode := None; ExpiresAt := None; ConfirmedAt := Some 0;
     FailureReason := None |}.

Definition storeWithConfirmed : DB :=
  {| flights := ∅; seatRows := ∅; orders := {["o1" := confirmedOrder]} |}.

(** *** Inserting an order and changing its seats *)

(** The row that [Create] inserts: the seven columns named in the
    statement; [payment_code], [confirmed_at] and [failure_reason] get
    their default, [NULL]. *)
Definition inserted (order : Order) : Order :=
  {| ID := ID order; FlightID := FlightID order; WorkflowID := WorkflowID order;
     Status := Status order; Seats := Seats order;
     TotalPriceCents := TotalPriceCents order;
     PaymentCode := None; ExpiresAt := ExpiresAt order;
     ConfirmedAt := None; FailureReason := None |}.

(** [INSERT INTO orders (...) VALUES (...)].  The statement is refused
    when the id is taken (primary key), when an order has the workflow id
    already (unique constraint), and when the flight is no row of
    [flights] (foreign key).  Ids are taken to be well formed for their
    column types. *)
Definition Create (db : DB) (order : Order) : option error * DB :=
  if bool_decide (is_Some (orders db !! ID order)) then
    (Some (wrap "insert order"
             (errorString "violates unique constraint orders_pkey")), db)
  else if bool_decide (Exists (fun row => WorkflowID row.2 = WorkflowID order)
                         (map_to_list (orders db))) then
    (Some (wrap "insert order"
             (errorString "violates unique constraint orders_workflow_id_unique")), db)
  else if bool_decide (is_Some (flights db !! FlightID order)) then
    (None, with_orders db (<[ID order := inserted order]> (orders db)))
  else
    (Some (wrap "insert order"
             (errorString "violates foreign key constraint orders_flight_id_fkey")), db).

Definition set_seats (seats : list string) (expiresAt : option Time) (o : Order)
  : Order :=
  {| ID := ID o; FlightID := FlightID o; WorkflowID := WorkflowID o;
     Status := Status o; Seats := seats; TotalPriceCents := TotalPriceCents o;
     PaymentCode := PaymentCode o; ExpiresAt := expiresAt;
     ConfirmedAt := ConfirmedAt o; FailureReason := FailureReason o |}.

Definition UpdateSeats (db : DB) (id : string) (seats : list string)
    (expiresAt : option Time) : option error * DB :=
  updateWhereID db id (set_seats seats expiresAt).

End OrderRepo.

Module FlightRepo.

Definition setAvailable (n : Z) (f : Flight) : Flight :=
  {| flight_ID := flight_ID f; TotalSeats := TotalSeats f;
     AvailableSeats := n; PriceCents := PriceCents f |}.

(** [UPDATE flights SET available_seats = available_seats + $1
     WHERE id = $2 AND available_seats + $1 >= 0].  A sum above
    [total_seats] violates the table's check and fails the statement. *)
Definition UpdateAvailableSeats (db : DB) (flightID : string) (delta : Z)
  : option error * DB :=
  match flights db !! flightID with
  | Some f =>
      if 0 <=? AvailableSeats f + delta then
        if AvailableSeats f + delta <=? TotalSeats f then
          (None,
           with_flights db
             (<[flightID := setAvailable (AvailableSeats f + delta) f]> (flights db)))
        else
          (Some (wrap "update available seats"
                   (errorString "violates check constraint flights_seats_check")),
           db)
      else (Some ErrInsufficientSeats, db)
  | None => (Some ErrInsufficientSeats, db)
  end.

Definition book (orderID : string) (s : Seat) : Seat :=
  {| seat_ID := seat_ID s; seat_FlightID := seat_FlightID s;
     seat_Row := seat_Row s; seat_Column := seat_Column s;
     seat_Status := SeatStatusBooked; seat_OrderID := Some orderID |}.

(** The rows selected by [flight_id = $2 AND id = ANY($3)]: the distinct
    listed ids that have a row. *)
Definition matched (db : DB) (flightID : string) (seatIDs : list string)
  : list string :=
  filter (fun id => is_Some (seatRows db !! (flightID, id))) (remove_dups seatIDs).

(** [UPDATE seats SET status = 'booked', order_id = $1
     WHERE flight_id = $2 AND id = ANY($3)], then the row-count test.
    The statement fails, changing nothing, when it would write an
    [order_id] that is no order; a row count other than [len(seatIDs)]
    is reported after the statement has taken effect. *)
Definition BookSeats (db : DB) (flightID : string) (seatIDs : list string)
    (orderID : string) : option error * DB :=
  let rows := matched db flightID seatIDs in
  if bool_decide (rows ≠ [] ∧ orders db !! orderID = None) then
    (Some (wrap "book seats"
             (errorString "violates foreign key constraint seats_order_id_fkey")),
     db)
  else
    let db' :=
      with_seats db
        (foldl (fun m id => alter (book orderID) (flightID, id) m) (seatRows db) rows) in
    if bool_decide (Z.of_nat (length rows) = Z.of_nat (length seatIDs)) then (None, db')
    else
      (Some (errorString ("expected to book " +:+ pretty (Z.of_nat (length seatIDs))
                            +:+ " seats, but booked "
                            +:+ pretty (Z.of_nat (length rows)))),
       db').

(** [FindByID] on [flights]. *)
Definition FindByID (db : DB) (id : string) : Flight + error :=
  match flights db !! id with
  | Some f => inl f
  | None => inr ErrFlightNotFound
  end.

(** A row of [seats] as a [SELECT] returns it: the two key columns and
    the others. *)
Definition seatOf (row : (string * string) * Seat) : Seat :=
  {| seat_ID := row.1.2; seat_FlightID := row.1.1;
     seat_Row := seat_Row row.2; seat_Column := seat_Column row.2;
     seat_Status := seat_Status row.2; seat_OrderID := seat_OrderID row.2 |}.

Section FindSeats.

(** [ORDER BY row_num, col], under the collation of the database. *)
Variable orderBy : list Seat -> list Seat.

(** [SELECT ... FROM seats WHERE flight_id = $1 ORDER BY row_num, col]. *)
Definition FindSeats (db : DB) (flightID : string) : list Seat :=
  orderBy (seatOf <$> filter (fun row => row.1.1 = flightID)
                        (map_to_list (seatRows db))).

End FindSeats.

(** The seat row is reserved or booked for this order. *)
Definition backed (db : DB) (flightID seatID owner : string) : bool :=
  match seatRows db !! (flightID, seatID) with
  | Some row =>
      (bool_decide (seat_Status row = SeatStatusReserved)
       || bool_decide (seat_Status row = SeatStatusBooked))
      && bool_decide (seat_OrderID row = Some owner)
  | None => false
  end.

End FlightRepo.

(** ** Error types of the workflow package *)

Definition ErrTypeSeatUnavailable : string := "SEAT_UNAVAILABLE".
Definition ErrTypePaymentDeclined : string := "PAYMENT_DECLINED".
Definition ErrTypeInvalidPaymentCode : string := "INVALID_PAYMENT_CODE".
Definition ErrTypeOrderExpired : string := "ORDER_EXPIRED".

Definition ErrReservationExpired : error := errorString "seat reservation expired".
Definition ErrPaymentTimeout : error := errorString "payment validation timed out".
Definition ErrWorkflowCanceled : error := errorString "booking workflow canceled".

Definition NewInvalidPaymentCodeError : error :=
  NewApplicationError "payment code must be 5 digits" ErrTypeInvalidPaymentCode.

(** ** Activities *)

Module Activities.

(** Both stores, as the activities see them. *)
Record World := {
  db : DB;
  locks : gmap string SeatLockRepo.LockEntry;
}.

(** *** The payment simulator *)

Record ValidatePaymentOutput := {
  Success : bool;
  Message : string;
}.

Definition emptyOutput : ValidatePaymentOutput :=
  {| Success := false; Message := "" |}.

(** [\d]: an ASCII decimal digit. *)
Definition isDigit (c : ascii) : bool :=
  (48 <=? Z.of_nat (nat_of_ascii c)) && (Z.of_nat (nat_of_ascii c) <=? 57).

(** [\d{n}$] read from the start of [s]: exactly [n] digits, then the end
    of the text. *)
Fixpoint digits (n : nat) (s : string) : bool :=
  match n, s with
  | O, EmptyString => true
  | S n', String c s' => isDigit c && digits n' s'
  | _, _ => false
  end.

(** [paymentCodePattern.MatchString], for the pattern [^\d{5}$]. *)
Definition paymentCodePattern (s : string) : bool := digits 5 s.

(** What one run of the simulator draws from outside: [rand.Intn(7)],
    [rand.Float64()], and, when the activity context ends during the
    run, how long after the start and with which [ctx.Err()]. *)
Record Draws := {
  Intn7 : Z;
  Float64 : Qc;
  ctxDone : option (Duration * error);
}.

(** The result, and the time spent waiting in the [select]. *)
Definition ValidatePayment (PaymentFailureRate : Qc) (draws : Draws)
    (OrderID PaymentCode : string)
  : (ValidatePaymentOutput * option error) * Duration :=
  if negb (paymentCodePattern PaymentCode) then
    ((emptyOutput, Some NewInvalidPaymentCodeError), 0)
  else if bool_decide (PaymentCode = "00000") then
    ((emptyOutput,
      Some (NewApplicationError "payment declined: insufficient funds"
              ErrTypePaymentDeclined)), 0)
  else if bool_decide (PaymentCode = "99999") then
    (({| Success := true; Message := "Payment validated (test mode)" |}, None), 0)
  else
    let processingTime := (Intn7 draws + 1) * Second in
    match ctxDone draws with
    | Some (after, err) =>
        if after <? processingTime then ((emptyOutput, Some err), after)
        else
          if bool_decide (Float64 draws < PaymentFailureRate)%Qc then
            ((emptyOutput,
              Some (errorString "payment validation failed: temporary gateway error")),
             processingTime)
          else
            (({| Success := true; Message := "Payment validated successfully" |}, None),
             processingTime)
    | None =>
        if bool_decide (Float64 draws < PaymentFailureRate)%Qc then
          ((emptyOutput,
            Some (errorString "payment validation failed: temporary gateway error")),
           processingTime)
        else
          (({| Success := true; Message := "Payment validated successfully" |}, None),
           processingTime)
    end.

(** *** Order confirmation *)

(** [Confirm], [BookSeats] and [UpdateAvailableSeats] are three
    statements on the pool, each committed on its own; the lock release
    that follows is best effort. *)
Definition ConfirmOrder (w : World) (now : Time) (OrderID FlightID : string)
    (Seats : list string) : option error * World :=
  match OrderRepo.Confirm (db w) now OrderID with
  | (Some err, db1) =>
      (Some (wrap "confirm order" err), {| db := db1; locks := locks w |})
  | (None, db1) =>
      match FlightRepo.BookSeats db1 FlightID Seats OrderID with
      | (Some err, db2) =>
          (Some (wrap "book seats" err), {| db := db2; locks := locks w |})
      | (None, db2) =>
          let seatCount := Z.of_nat (length Seats) in
          match FlightRepo.UpdateAvailableSeats db2 FlightID (- seatCount) with
          | (Some err, db3) =>
              (Some (wrap "update available seats" err),
               {| db := db3; locks := locks w |})
          | (None, db3) =>
              (None,
               {| db := db3;
                  locks := (SeatLockRepo.ReleaseLocks (locks w) FlightID Seats OrderID).2 |})
          end
      end
  end.

(** *** Seat release *)

Section ReleaseSeats.

(** [FlightRepo.MarkSeatsAvailable] is not among the sources at hand;
    the activity is modelled over any implementation of it on the
    relational store. *)
Variable MarkSeatsAvailable : DB -> string -> list string -> option error * DB.

Definition ReleaseSeats (w : World) (OrderID FlightID : string)
    (Seats : list string) : option error * World :=
  match SeatLockRepo.ReleaseLocks (locks w) FlightID Seats OrderID with
  | (Some err, locks1) =>
      (Some (wrap ("release seats for order " +:+ OrderID) err),
       {| db := db w; locks := locks1 |})
  | (None, locks1) =>
      match MarkSeatsAvailable (db w) FlightID Seats with
      | (Some err, db1) =>
          (Some (wrap ("mark seats available in DB for order " +:+ OrderID) err),
           {| db := db1; locks := locks1 |})
      | (None, db1) => (None, {| db := db1; locks := locks1 |})
      end
  end.

End ReleaseSeats.

(** *** Reserving seats and changing the selection *)

Section SeatActivities.

(** [cfg.SeatReservationTimeout]. *)
Variable SeatReservationTimeout : Duration.

(** [FlightRepo.MarkSeatsReserved] and [FlightRepo.MarkSeatsAvailable]
    are not among the sources at hand; the activities are modelled over
    any implementation of them on the relational store. *)
Variable MarkSeatsReserved : DB -> string -> list string -> string -> option error * DB.
Variable MarkSeatsAvailable : DB -> string -> list string -> option error * DB.

(** [ttl := a.cfg.SeatReservationTimeout + time.Minute]. *)
Definition lockTTL : Duration := wrap64 (SeatReservationTimeout + Minute).

Definition ReserveSeats (w : World) (OrderID FlightID : string) (Seats : list string)
  : option error * World :=
  let ttl := lockTTL in
  match SeatLockRepo.LockSeats (locks w) FlightID Seats OrderID ttl with
  | (Some err, locks1) =>
      (Some (wrap ("lock seats for order " +:+ OrderID) err),
       {| db := db w; locks := locks1 |})
  | (None, locks1) =>
      match MarkSeatsReserved (db w) FlightID Seats OrderID with
      | (Some err, db1) =>
          let locks2 := (SeatLockRepo.ReleaseLocks locks1 FlightID Seats OrderID).2 in
          (Some (wrap ("mark seats reserved in DB for order " +:+ OrderID) err),
           {| db := db1; locks := locks2 |})
      | (None, db1) => (None, {| db := db1; locks := locks1 |})
      end
  end.

Definition RefreshSeatLocks (w : World) (OrderID FlightID : string)
    (Seats : list string) : option error * World :=
  let ttl := lockTTL in
  match SeatLockRepo.ExtendLocks (locks w) FlightID Seats OrderID ttl with
  | (Some err, locks1) =>
      (Some (wrap ("refresh seat locks for order " +:+ OrderID) err),
       {| db := db w; locks := locks1 |})
  | (None, locks1) => (None, {| db := db w; locks := locks1 |})
  end.

(** The first half of [UpdateSeatSelection]: the old seats are let go.
    [inr] is the early return. *)
Definition releaseOld (w : World) (OrderID FlightID : string) (OldSeats : list string)
  : World + error * World :=
  if (0 <? length OldSeats)%nat then
    match SeatLockRepo.ReleaseLocks (locks w) FlightID OldSeats OrderID with
    | (Some err, locks1) =>
        inr (wrap "release old seat locks" err, {| db := db w; locks := locks1 |})
    | (None, locks1) =>
        match MarkSeatsAvailable (db w) FlightID OldSeats with
        | (Some err, db1) =>
            inr (wrap "mark old seats available" err, {| db := db1; locks := locks1 |})
        | (None, db1) => inl {| db := db1; locks := locks1 |}
        end
    end
  else inl w.

Definition UpdateSeatSelection (w : World) (OrderID FlightID : string)
    (OldSeats NewSeats : list string) : option error * World :=
  let ttl := lockTTL in
  match releaseOld w OrderID FlightID OldSeats with
  | inr (err, w1) => (Some err, w1)
  | inl w1 =>
      if (0 <? length NewSeats)%nat then
        match SeatLockRepo.LockSeats (locks w1) FlightID NewSeats OrderID ttl with
        | (Some err, locks2) =>
            let locks3 :=
              (SeatLockRepo.LockSeats locks2 FlightID OldSeats OrderID ttl).2 in
            let db3 := (MarkSeatsReserved (db w1) FlightID OldSeats OrderID).2 in
            (Some (wrap "lock new seats" err), {| db := db3; locks := locks3 |})
        | (None, locks2) =>
            match MarkSeatsReserved (db w1) FlightID NewSeats OrderID with
            | (Some err, db2) =>
                let locks3 :=
                  (SeatLockRepo.ReleaseLocks locks2 FlightID NewSeats OrderID).2 in
                let locks4 :=
                  (SeatLockRepo.LockSeats locks3 FlightID OldSeats OrderID ttl).2 in
                let db4 := (MarkSeatsReserved db2 FlightID OldSeats OrderID).2 in
                (Some (wrap "mark new seats reserved" err),
                 {| db := db4; locks := locks4 |})
            | (None, db2) => (None, {| db := db2; locks := locks2 |})
            end
        end
      else (None, w1)
  end.

End SeatActivities.

(** *** Reconciling the locks with the seat rows *)

(** The first loop of [ReconcileSeatLocks]: the seats that the database
    has reserved or booked, with their orders. *)
Definition dbReserved (dbSeats : list Seat) : gmap string string :=
  foldl (fun m seat =>
           if bool_decide (seat_Status seat = SeatStatusReserved)
              || bool_decide (seat_Status seat = SeatStatusBooked)
           then
             match seat_OrderID seat with
             | Some orderID => <[seat_ID seat := orderID]> m
             | None => m
             end
           else m)
        ∅ dbSeats.

(** The second loop: the locks without such a row, or with a row of
    another order.  The order of the list is that of the iteration over
    the map. *)
Definition orphaned (redisLocks dbReservedSeats : gmap string string) : list string :=
  (filter (fun lock => dbReservedSeats !! lock.1 ≠ Some lock.2)
     (map_to_list redisLocks)).*1.

(** The third loop: each orphaned lock is released for the order that
    [redisLocks] names (the empty string for a seat that is not in the
    map). *)
Definition releaseOrphans (redisLocks : gmap string string) (FlightID : string)
    (orphanedLocks : list string) (s : gmap string SeatLockRepo.LockEntry)
  : gmap string SeatLockRepo.LockEntry :=
  foldl (fun s seatID =>
           let orderID := default "" (redisLocks !! seatID) in
           (SeatLockRepo.ReleaseLocks s FlightID [seatID] orderID).2)
        s orphanedLocks.

Section Reconcile.

Variable stringmatch : string -> string -> bool.
Variable orderBy : list Seat -> list Seat.

(** [None] is a panic in [GetLockedSeats]. *)
Definition ReconcileSeatLocks (w : World) (FlightID : string)
  : option (option error * World) :=
  match SeatLockRepo.GetLockedSeats stringmatch (locks w) FlightID with
  | None => None
  | Some redisLocks =>
      let dbSeats := FlightRepo.FindSeats orderBy (db w) FlightID in
      let dbReservedSeats := dbReserved dbSeats in
      let orphanedLocks := orphaned redisLocks dbReservedSeats in
      Some (None,
            {| db := db w;
               locks := releaseOrphans redisLocks FlightID orphanedLocks (locks w) |})
  end.

End Reconcile.

(** *** Creating the order *)

Definition CreateOrder (w : World) (OrderID FlightID WorkflowID : string)
    (Seats : list string) (ExpiresAt : Time) : option error * World :=
  match FlightRepo.FindByID (db w) FlightID with
  | inr err => (Some (wrap "get flight" err), w)
  | inl flight =>
      let totalPrice := wrap64 (PriceCents flight * Z.of_nat (length Seats)) in
      let expiresAt := ExpiresAt in
      let order :=
        {| ID := OrderID; FlightID := FlightID; WorkflowID := WorkflowID;
           Status := OrderStatusSeatsReserved; Seats := Seats;
           TotalPriceCents := totalPrice; PaymentCode := None;
           ExpiresAt := Some expiresAt; ConfirmedAt := None;
           FailureReason := None |} in
      match OrderRepo.Create (db w) order with
      | (Some err, db1) =>
          (Some (wrap "create order" err), {| db := db1; locks := locks w |})
      | (None, db1) => (None, {| db := db1; locks := locks w |})
      end
  end.

(** *** The thin order activities *)

Definition UpdateOrderStatus (w : World) (OrderID : string) (Status : OrderStatus)
  : option error * World :=
  match OrderRepo.UpdateStatus (db w) OrderID Status with
  | (Some err, db1) =>
      (Some (wrap "update order status" err), {| db := db1; locks := locks w |})
  | (None, db1) => (None, {| db := db1; locks := locks w |})
  end.

Definition UpdateOrderSeats (w : World) (OrderID : string) (Seats : list string)
    (ExpiresAt : Time) : option error * World :=
  let expiresAt := ExpiresAt in
  match OrderRepo.UpdateSeats (db w) OrderID Seats (Some expiresAt) with
  | (Some err, db1) =>
      (Some (wrap "update order seats" err), {| db := db1; locks := locks w |})
  | (None, db1) => (None, {| db := db1; locks := locks w |})
  end.

Definition FailOrder (w : World) (OrderID Reason : string) : option error * World :=
  match OrderRepo.Fail (db w) OrderID Reason with
  | (Some err, db1) => (Some (wrap "fail order" err), {| db := db1; locks := locks w |})
  | (None, db1) => (None, {| db := db1; locks := locks w |})
  end.

Definition ExpireOrder (w : World) (OrderID : string) : option error * World :=
  match OrderRepo.Expire (db w) OrderID with
  | (Some err, db1) => (Some (wrap "expire order" err), {| db := db1; locks := locks w |})
  | (None, db1) => (None, {| db := db1; locks := locks w |})
  end.

(** Exactly five decimal digits, said without the pattern. *)
Definition fiveDecimalDigits (s : string) : Prop :=
  String.length s = 5%nat
  ∧ ∀ c, In c (list_ascii_of_string s) → (48 <= nat_of_ascii c <= 57)%nat.

End Activities.

(** ** The booking service: status with fallback to the order row *)

Module BookingService.

(** What [TemporalClient.QueryBookingStatus] returned. *)
Record BookingStatusResponse := {
  q_OrderID : string;
  q_FlightID : string;
  q_Status : OrderStatus;
  q_Seats : list string;
  q_ExpiresAt : Time;
  q_TimerRemaining : Z;
  q_PaymentAttempts : Z;
  q_LastError : string;
}.

Definition stringValue (s : option string) : string :=
  match s with
  | None => ""
  | Some v => v
  end.

(** [time.Until(t)] at wall-clock time [now]. *)
Definition Until (now t : Time) : Duration := Sub t now.

(** The [timerRemaining] computed from a nullable [expires_at]. *)
Definition timerRemaining (now : Time) (expiresAt : option Time) : Z :=
  match expiresAt with
  | Some t =>
      let remaining := Until now t in
      if 0 <? remaining then truncSeconds remaining else 0
  | None => 0
  end.

Definition GetOrderStatus (query : BookingStatusResponse + error) (d : DB)
    (now : Time) (orderID : string) : OrderStatusResponse + error :=
  match query with
  | inr err =>
      match OrderRepo.FindByID d orderID with
      | inr dbErr => inr ErrOrderNotFound
      | inl order =>
          inl {| resp_OrderID := ID order;
                 resp_Status := Status order;
                 resp_Seats := Seats order;
                 resp_TimerRemaining := timerRemaining now (ExpiresAt order);
                 resp_PaymentAttempts := 0;
                 resp_LastError := stringValue (FailureReason order) |}
      end
  | inl status =>
      inl {| resp_OrderID := q_OrderID status;
             resp_Status := q_Status status;
             resp_Seats := q_Seats status;
             resp_TimerRemaining := q_TimerRemaining status;
             resp_PaymentAttempts := q_PaymentAttempts status;
             resp_LastError := q_LastError status |}
  end.

(** [isValidPaymentCode], the same pattern as the simulator's. *)
Definition isValidPaymentCode (code : string) : bool := Activities.digits 5 code.

End BookingService.

(** ** The booking workflow *)

Module Workflow.

Definition SignalUpdateSeats : string := "update-seats".
Definition SignalProceedToPay : string := "proceed-to-payment".
Definition SignalCancelBooking : string := "cancel-booking".
Definition QueryBookingStatus : string := "booking-status".

Record BookingWorkflowInput := {
  in_OrderID : string;
  in_FlightID : string;
  in_Seats : list string;
}.

Record BookingWorkflowResult := {
  res_OrderID : string;
  res_Status : option OrderStatus;
  res_Seats : list string;
  res_Error : string;
}.

(** The zero value of the result, returned before any state exists. *)
Definition zeroResult : BookingWorkflowResult :=
  {| res_OrderID := ""; res_Status := None; res_Seats := []; res_Error := "" |}.

(** *** Contexts and activity options *)

Record RetryPolicy := {
  InitialInterval : Duration;
  BackoffCoefficient : Qc;
  MaximumInterval : Duration;
  MaximumAttempts : Z;
  NonRetryableErrorTypes : list string;
}.

Record ActivityOptions := {
  StartToCloseTimeout : Duration;
  retryPolicy : RetryPolicy;
}.

(** A workflow context: whether it was cut off from the cancellation of
    its parent, and the activity options attached to it. *)
Record Context := {
  disconnected : bool;
  activityOptions : option ActivityOptions;
}.

Definition rootContext : Context :=
  {| disconnected := false; activityOptions := None |}.

Definition WithActivityOptions (ctx : Context) (o : ActivityOptions) : Context :=
  {| disconnected := disconnected ctx; activityOptions := Some o |}.

Definition NewDisconnectedContext (ctx : Context) : Context :=
  {| disconnected := true; activityOptions := activityOptions ctx |}.

Definition seatActivityOptions : ActivityOptions :=
  {| StartToCloseTimeout := 30 * Second;
     retryPolicy := {| InitialInterval := Second;
                       BackoffCoefficient := Q2Qc (2 # 1);
                       MaximumInterval := 10 * Second;
                       MaximumAttempts := 3;
                       NonRetryableErrorTypes := [] |} |}.

Definition orderActivityOptions : ActivityOptions :=
  {| StartToCloseTimeout := 30 * Second;
     retryPolicy := {| InitialInterval := Second;
                       BackoffCoefficient := Q2Qc (2 # 1);
                       MaximumInterval := 10 * Second;
                       MaximumAttempts := 3;
                       NonRetryableErrorTypes := [] |} |}.

Definition paymentActivityOptions : ActivityOptions :=
  {| StartToCloseTimeout := 10 * Second;
     retryPolicy := {| InitialInterval := 0;
                       BackoffCoefficient := Q2Qc (0 # 1);
                       MaximumInterval := 0;
                       MaximumAttempts := 1;
                       NonRetryableErrorTypes :=
                         [ErrTypeInvalidPaymentCode; ErrTypePaymentDeclined] |} |}.

Definition seatCtx : Context := WithActivityOptions rootContext seatActivityOptions.
Definition orderCtx : Context := WithActivityOptions rootContext orderActivityOptions.
Definition paymentCtx : Context := WithActivityOptions rootContext paymentActivityOptions.

(** *** What the workflow asks of the engine *)

(** An activity with its input. *)
Inductive Activity :=
| a_CreateOrder (OrderID FlightID WorkflowID : string) (Seats : list string)
    (ExpiresAt : Time)
| a_ReserveSeats (OrderID FlightID : string) (Seats : list string)
| a_ReleaseSeats (OrderID FlightID : string) (Seats : list string)
| a_UpdateSeatSelection (OrderID FlightID : string) (OldSeats NewSeats : list string)
| a_UpdateOrderSeats (OrderID : string) (Seats : list string) (ExpiresAt : Time)
| a_UpdateOrderStatus (OrderID : string) (Status : OrderStatus)
| a_ValidatePayment (OrderID PaymentCode : string)
| a_ConfirmOrder (OrderID FlightID : string) (Seats : list string)
| a_FailOrder (OrderID Reason : string)
| a_ExpireOrder (OrderID : string).

Inductive Command :=
| ExecuteActivity (ctx : Context) (a : Activity)
| NewTimer (d : Duration)
| CancelTimer
| Sleep (d : Duration).

Definition isReleaseSeats (c : Command) : bool :=
  match c with
  | ExecuteActivity _ (a_ReleaseSeats _ _ _) => true
  | _ => false
  end.

(** *** What the engine delivers to the workflow *)

(** The event that one [selector.Select] of the hold loop picks. *)
Inductive HoldEvent :=
| SeatUpdate (signal : list string) (updateErr : option error) (now : Time)
    (** an [update-seats] signal, the result of [UpdateSeatSelection],
        and the engine clock read when the hold is renewed *)
| Payment (paymentCode : string)
    (** a [proceed-to-payment] signal *)
| Cancel
    (** a [cancel-booking] signal *)
| TimerFired
    (** the hold timer ran out *)
| TimerCanceled (timerErr : error).
    (** the hold timer was cancelled from outside *)

(** One run as seen from inside: the engine clock, the results of the
    activities whose results are looked at, and the events of the hold
    phase, each with the clock reading at the top of its iteration. *)
Record History := {
  WorkflowExecutionID : string;
  now0 : Time;
  createOrder : option error;
  reserveSeats : option error;
  hold : list (Time * HoldEvent);
  validatePayment : Z -> option error;
  confirmOrder : option error;
}.

(** *** State *)

Record bookingState := {
  orderID : string;
  flightID : string;
  seats : list string;
  status : OrderStatus;
  expiresAt : Time;
  paymentAttempts : Z;
  lastError : string;
}.

Definition set_seats (v : list string) (s : bookingState) : bookingState :=
  {| orderID := orderID s; flightID := flightID s; seats := v; status := status s;
     expiresAt := expiresAt s; paymentAttempts := paymentAttempts s;
     lastError := lastError s |}.
Definition set_status (v : OrderStatus) (s : bookingState) : bookingState :=
  {| orderID := orderID s; flightID := flightID s; seats := seats s; status := v;
     expiresAt := expiresAt s; paymentAttempts := paymentAttempts s;
     lastError := lastError s |}.
Definition set_expiresAt (v : Time) (s : bookingState) : bookingState :=
  {| orderID := orderID s; flightID := flightID s; seats := seats s; status := status s;
     expiresAt := v; paymentAttempts := paymentAttempts s;
     lastError := lastError s |}.
Definition set_paymentAttempts (v : Z) (s : bookingState) : bookingState :=
  {| orderID := orderID s; flightID := flightID s; seats := seats s; status := status s;
     expiresAt := expiresAt s; paymentAttempts := v;
     lastError := lastError s |}.
Definition set_lastError (v : string) (s : bookingState) : bookingState :=
  {| orderID := orderID s; flightID := flightID s; seats := seats s; status := status s;
     expiresAt := expiresAt s; paymentAttempts := paymentAttempts s;
     lastError := v |}.

Definition toResult (s : bookingState) : BookingWorkflowResult :=
  {| res_OrderID := orderID s; res_Status := Some (status s);
     res_Seats := seats s; res_Error := lastError s |}.

(** The query handler, answered at wall-clock time [wall]. *)
Definition toStatusResponse (wall : Time) (s : bookingState)
  : BookingService.BookingStatusResponse :=
  let timerRemaining :=
    if negb (IsZero (expiresAt s)) then
      let remaining := BookingService.Until wall (expiresAt s) in
      if 0 <? remaining then truncSeconds remaining else 0
    else 0 in
  {| BookingService.q_OrderID := orderID s;
     BookingService.q_FlightID := flightID s;
     BookingService.q_Status := status s;
     BookingService.q_Seats := seats s;
     BookingService.q_ExpiresAt := expiresAt s;
     BookingService.q_TimerRemaining := timerRemaining;
     BookingService.q_PaymentAttempts := paymentAttempts s;
     BookingService.q_LastError := lastError s |}.

(** [workflow.SetQueryHandler]: the engine refuses the query types of its
    reserved prefix; the handler itself has the shape the engine asks
    for. *)
Definition SetQueryHandler (queryType : string) : option error :=
  if String.prefix "__" queryType
  then Some (errorString "queryType starts with '__' is reserved for internal use")
  else None.

(** How a run of the workflow function ends: it returns, it is still
    waiting in [Select] when the history ends, or it panics (the engine
    then fails the workflow task and the execution stays open). *)
Inductive Outcome :=
| Completed (state : bookingState) (result : BookingWorkflowResult)
    (err : option error) (trace : list Command)
| Blocked (state : bookingState) (trace : list Command)
| Panicked (state : bookingState) (trace : list Command).

Definition finalState (o : Outcome) : bookingState :=
  match o with
  | Completed s _ _ _ | Blocked s _ | Panicked s _ => s
  end.

Definition traceOf (o : Outcome) : list Command :=
  match o with
  | Completed _ _ _ t | Blocked _ t | Panicked _ t => t
  end.

(** *** The hold phase *)

(** The hold of the workflow, the literal [15 * time.Minute]. *)
Definition holdDuration : Duration := 15 * Minute.

(** The Go slice expression [s[:hi]] on a string: a run-time panic when
    [hi] exceeds the length. *)
Definition sliceTo (s : string) (hi : nat) : option string :=
  if (hi <=? String.length s)%nat then Some (substring 0 hi s) else None.

(** The receive callback of the [update-seats] channel. *)
Definition onSeatUpdate (state : bookingState) (signal : list string)
    (updateErr : option error) (now : Time) : bookingState * list Command :=
  let update :=
    ExecuteActivity seatCtx
      (a_UpdateSeatSelection (orderID state) (flightID state) (seats state) signal) in
  match updateErr with
  | Some err =>
      (set_lastError (Error err) state, [update; CancelTimer])
  | None =>
      let state := set_seats signal state in
      let state := set_expiresAt (Add now holdDuration) state in
      (state,
       [update;
        ExecuteActivity orderCtx
          (a_UpdateOrderSeats (orderID state) signal (expiresAt state));
        CancelTimer])
  end.

(** What the callbacks leave in the loop variables. *)
Inductive Selected :=
| sel_none
| sel_paymentReceived (paymentSignal : string)
| sel_canceled
| sel_panic.

(** The receive callback of the [proceed-to-payment] channel: the signal
    is stored, then the log line slices the code. *)
Definition onPayment (state : bookingState) (paymentCode : string)
  : bookingState * list Command * Selected :=
  match sliceTo paymentCode 2 with
  | Some masked => (state, [CancelTimer], sel_paymentReceived paymentCode)
  | None => (state, [], sel_panic)
  end.

(** One [selector.Select]: the callback of the event that is ready. *)
Definition select (state : bookingState) (event : HoldEvent)
  : bookingState * list Command * Selected :=
  match event with
  | SeatUpdate signal updateErr now =>
      let '(state, cmds) := onSeatUpdate state signal updateErr now in
      (state, cmds, sel_none)
  | Payment paymentCode => onPayment state paymentCode
  | Cancel => (state, [CancelTimer], sel_canceled)
  | TimerFired =>
      (set_lastError "seat reservation expired"
         (set_status OrderStatusExpired state), [], sel_none)
  | TimerCanceled timerErr => (state, [], sel_none)
  end.

Inductive HoldExit :=
| HoldExpired (state : bookingState) (trace : list Command)
| HoldPayment (state : bookingState) (paymentSignal : string) (trace : list Command)
| HoldCanceled (state : bookingState) (trace : list Command)
| HoldBlocked (state : bookingState) (trace : list Command)
| HoldPanic (state : bookingState) (trace : list Command).

Definition expire (state : bookingState) (trace : list Command) : HoldExit :=
  HoldExpired state
    (trace ++ [ExecuteActivity orderCtx (a_ExpireOrder (orderID state))]).

(** [for !paymentReceived && !canceled { ... }], one iteration per
    scripted event. *)
Fixpoint holdLoop (events : list (Time * HoldEvent)) (state : bookingState)
    (trace : list Command) : HoldExit :=
  match events with
  | [] => HoldBlocked state trace
  | (now, event) :: events' =>
      let timerDuration := Sub (expiresAt state) now in
      if timerDuration <=? 0 then
        expire (set_lastError "seat reservation expired"
                  (set_status OrderStatusExpired state)) trace
      else
        let trace := trace ++ [NewTimer timerDuration] in
        let '(state, cmds, selected) := select state event in
        let trace := trace ++ cmds in
        match selected with
        | sel_panic => HoldPanic state trace
        | _ =>
            if bool_decide (status state = OrderStatusExpired) then expire state trace
            else
              match selected with
              | sel_paymentReceived paymentSignal =>
                  HoldPayment state paymentSignal trace
              | sel_canceled => HoldCanceled state trace
              | _ => holdLoop events' state trace
              end
        end
  end.

(** *** The payment phase *)

Definition maxPaymentAttempts : Z := 3.

(** The type test of the retry loop: the application error found by
    [errors.As], when its type is one of the two non-retryable ones. *)
Definition nonRetryable (err : error) : option ApplicationError :=
  match asApplicationError err with
  | Some appErr =>
      if bool_decide (appType appErr = ErrTypeInvalidPaymentCode)
         || bool_decide (appType appErr = ErrTypePaymentDeclined)
      then Some appErr
      else None
  | None => None
  end.

(** [for attempt := 1; attempt <= maxPaymentAttempts; attempt++ { ... }]
    from [attempt] on, [remaining] iterations being left.  Returns the
    state, [lastPaymentErr] and the trace. *)
Fixpoint paymentLoop (h : History) (paymentCode : string) (remaining : nat)
    (attempt : Z) (state : bookingState) (lastPaymentErr : option error)
    (trace : list Command) : bookingState * option error * list Command :=
  match remaining with
  | O => (state, lastPaymentErr, trace)
  | S remaining' =>
      let state := set_paymentAttempts attempt state in
      let trace :=
        trace ++ [ExecuteActivity paymentCtx
                    (a_ValidatePayment (orderID state) paymentCode)] in
      match validatePayment h attempt with
      | None => (state, lastPaymentErr, trace)
      | Some err =>
          let lastPaymentErr := Some err in
          match nonRetryable err with
          | Some appErr =>
              (set_lastError ("payment failed: " +:+ appMessage appErr) state,
               lastPaymentErr, trace)
          | None =>
              if attempt <? maxPaymentAttempts then
                let backoffDuration := Second * attempt in
                let state :=
                  set_lastError
                    ("payment failed (attempt " +:+ pretty attempt +:+ " of "
                       +:+ pretty maxPaymentAttempts +:+ "): " +:+ Error err)
                    state in
                paymentLoop h paymentCode remaining' (attempt + 1) state
                  lastPaymentErr (trace ++ [Sleep backoffDuration])
              else
                let state :=
                  set_lastError
                    ("payment failed after " +:+ pretty maxPaymentAttempts
                       +:+ " attempts: " +:+ Error err)
                    state in
                paymentLoop h paymentCode remaining' (attempt + 1) state
                  lastPaymentErr trace
          end
      end
  end.

(** *** Compensation *)

(** The deferred function, run with the state and the [err] that the
    workflow function is returning. *)
Definition deferred (ctx : Context) (state : bookingState) (err : option error)
  : list Command :=
  if bool_decide (err ≠ None)
     || bool_decide (status state = OrderStatusExpired)
     || bool_decide (status state = OrderStatusFailed)
  then
    let compensationCtx := NewDisconnectedContext ctx in
    let compensationCtx := WithActivityOptions compensationCtx seatActivityOptions in
    [ExecuteActivity compensationCtx
       (a_ReleaseSeats (orderID state) (flightID state) (seats state))]
  else [].

(** *** The workflow function *)

(** The payment and confirm phases, entered with the payment signal. *)
Definition payAndConfirm (h : History) (paymentSignal : string)
    (state : bookingState) (trace : list Command) : Outcome :=
  let state := set_status OrderStatusPaymentProcessing state in
  let trace :=
    trace ++ [ExecuteActivity orderCtx
                (a_UpdateOrderStatus (orderID state) OrderStatusPaymentProcessing)] in
  let '(state, lastPaymentErr, trace) :=
    paymentLoop h paymentSignal (Z.to_nat maxPaymentAttempts) 1 state None trace in
  match lastPaymentErr with
  | Some lastErr =>
      let state := set_status OrderStatusFailed state in
      let state :=
        if bool_decide (lastError state = "") then
          set_lastError
            ("payment failed after " +:+ pretty (paymentAttempts state)
               +:+ " attempts: " +:+ Error lastErr) state
        else state in
      Completed state (toResult state) (Some lastErr)
        (trace ++ [ExecuteActivity orderCtx
                     (a_FailOrder (orderID state) (lastError state))])
  | None =>
      let state := set_status OrderStatusConfirmed state in
      let trace :=
        trace ++ [ExecuteActivity orderCtx
                    (a_ConfirmOrder (orderID state) (flightID state) (seats state))] in
      match confirmOrder h with
      | Some err =>
          let state := set_status OrderStatusFailed state in
          let state := set_lastError ("confirmation failed: " +:+ Error err) state in
          Completed state (toResult state) (Some err)
            (trace ++ [ExecuteActivity orderCtx
                         (a_FailOrder (orderID state) (lastError state))])
      | None => Completed state (toResult state) None trace
      end
  end.

(** What follows the hold loop: the expiry return made inside the loop,
    the cancellation, or the payment and confirm phases. *)
Definition afterHold (h : History) (r : HoldExit) : Outcome :=
  match r with
  | HoldExpired state trace =>
      Completed state (toResult state) (Some ErrReservationExpired) trace
  | HoldBlocked state trace => Blocked state trace
  | HoldPanic state trace => Panicked state trace
  | HoldCanceled state trace =>
      let state := set_status OrderStatusFailed state in
      let state := set_lastError "booking canceled by user" state in
      Completed state (toResult state) (Some ErrWorkflowCanceled)
        (trace ++ [ExecuteActivity orderCtx
                     (a_FailOrder (orderID state) (lastError state))])
  | HoldPayment state paymentSignal trace =>
      payAndConfirm h paymentSignal state trace
  end.

(** The body of [BookingWorkflow] below the [defer] statement. *)
Definition body (h : History) (input : BookingWorkflowInput) (state : bookingState)
  : Outcome :=
  let state := set_expiresAt (Add (now0 h) holdDuration) state in
  let trace :=
    [ExecuteActivity orderCtx
       (a_CreateOrder (in_OrderID input) (in_FlightID input) (WorkflowExecutionID h)
          (in_Seats input) (expiresAt state))] in
  match createOrder h with
  | Some err =>
      let state := set_lastError (Error err) state in
      let state := set_status OrderStatusFailed state in
      Completed state (toResult state) (Some err) trace
  | None =>
      let state := set_status OrderStatusSeatsReserved state in
      let trace :=
        trace ++ [ExecuteActivity seatCtx
                    (a_ReserveSeats (in_OrderID input) (in_FlightID input)
                       (in_Seats input))] in
      match reserveSeats h with
      | Some err =>
          let state := set_lastError (Error err) state in
          let state := set_status OrderStatusFailed state in
          Completed state (toResult state) (Some err) trace
      | None => afterHold h (holdLoop (hold h) state trace)
      end
  end.

(** The state the workflow function starts from. *)
Definition initialState (input : BookingWorkflowInput) : bookingState :=
  {| orderID := in_OrderID input; flightID := in_FlightID input;
     seats := in_Seats input; status := OrderStatusCreated;
     expiresAt := zeroTime; paymentAttempts := 0; lastError := "" |}.

(** [BookingWorkflow]: the state is set up and the query handler
    registered; from the [defer] statement on, whatever ends the body
    runs the deferred function.  When the body panics the named result
    [err] still holds the [nil] of the last activity result assigned to
    it. *)
Definition BookingWorkflow (h : History) (input : BookingWorkflowInput) : Outcome :=
  let ctx := rootContext in
  let state := initialState input in
  match SetQueryHandler QueryBookingStatus with
  | Some err => Completed state zeroResult (Some err) []
  | None =>
      match body h input state with
      | Completed state result err trace =>
          Completed state result err (trace ++ deferred ctx state err)
      | Blocked state trace => Blocked state trace
      | Panicked state trace => Panicked state (trace ++ deferred ctx state None)
      end
  end.

(** *** Looking at a run part of the way *)

Definition holdState (r : HoldExit) : bookingState :=
  match r with
  | HoldExpired s _ | HoldPayment s _ _ | HoldCanceled s _
  | HoldBlocked s _ | HoldPanic s _ => s
  end.

Definition holdTrace (r : HoldExit) : list Command :=
  match r with
  | HoldExpired _ t | HoldPayment _ _ t | HoldCanceled _ t
  | HoldBlocked _ t | HoldPanic _ t => t
  end.

(** The history cut after the first [k] events of the hold phase: what
    the run has been through by then. *)
Definition truncate (h : History) (k : nat) : History :=
  {| WorkflowExecutionID := WorkflowExecutionID h;
     now0 := now0 h;
     createOrder := createOrder h;
     reserveSeats := reserveSeats h;
     hold := take k (hold h);
     validatePayment := validatePayment h;
     confirmOrder := confirmOrder h |}.

(** The readings of the engine clock in a history, in the order in
    which they are taken. *)
Definition eventReadings (e : Time * HoldEvent) : list Time :=
  e.1 :: match e.2 with
         | SeatUpdate _ _ now => [now]
         | _ => []
         end.

Definition clockReadings (h : History) : list Time :=
  now0 h :: (hold h ≫= eventReadings).

(** *** Shapes of traces and exits *)

(** No [ReleaseSeats] is executed in a trace. *)
Definition noRelease (trace : list Command) : Prop :=
  Forall (fun c => isReleaseSeats c = false) trace.

(** How a return of the body looks: nothing was released, the order and
    the flight are those of the start, and either [err] is [nil] and the
    status is [CONFIRMED], or [err] is set and the status is not. *)
Definition exitShape (st0 : bookingState) (o : Outcome) : Prop :=
  match o with
  | Completed st _ err tr =>
      noRelease tr ∧ orderID st = orderID st0 ∧ flightID st = flightID st0
      ∧ ((err = None ∧ status st = OrderStatusConfirmed)
         ∨ (err ≠ None ∧ status st ≠ OrderStatusConfirmed))
  | _ => True
  end.

(** The state and trace with which the hold loop is entered. *)
Definition holdEntry (h : History) (input : BookingWorkflowInput)
  : bookingState * list Command :=
  (set_status OrderStatusSeatsReserved
     (set_expiresAt (Add (now0 h) holdDuration) (initialState input)),
   [ExecuteActivity orderCtx
      (a_CreateOrder (in_OrderID input) (in_FlightID input) (WorkflowExecutionID h)
         (in_Seats input) (Add (now0 h) holdDuration))]
     ++ [ExecuteActivity seatCtx
           (a_ReserveSeats (in_OrderID input) (in_FlightID input) (in_Seats input))]).

End Workflow.

(** ** The order row under the activities of a trace *)

Module Replay.
Import Workflow.

(** What a command of the workflow does to the [orders] table when its
    activity takes effect once, with the store reachable.  The seat
    activities and the payment simulator have no statement on [orders];
    [ConfirmOrder] has one, [Confirm], made at database time [now]: it
    is the first statement of the activity, so that a [ConfirmOrder]
    which fails on a store that can be reached has made it. *)
Definition orderEffect (now : Time) (d : DB) (c : Command) : DB :=
  let w := {| Activities.db := d; Activities.locks := ∅ |} in
  match c with
  | ExecuteActivity _ (a_CreateOrder OrderID FlightID WorkflowID Seats ExpiresAt) =>
      Activities.db
        (Activities.CreateOrder w OrderID FlightID WorkflowID Seats ExpiresAt).2
  | ExecuteActivity _ (a_UpdateOrderSeats OrderID Seats ExpiresAt) =>
      Activities.db (Activities.UpdateOrderSeats w OrderID Seats ExpiresAt).2
  | ExecuteActivity _ (a_UpdateOrderStatus OrderID Status) =>
      Activities.db (Activities.UpdateOrderStatus w OrderID Status).2
  | ExecuteActivity _ (a_ConfirmOrder OrderID _ _) =>
      (OrderRepo.Confirm d now OrderID).2
  | ExecuteActivity _ (a_FailOrder OrderID Reason) =>
      Activities.db (Activities.FailOrder w OrderID Reason).2
  | ExecuteActivity _ (a_ExpireOrder OrderID) =>
      Activities.db (Activities.ExpireOrder w OrderID).2
  | _ => d
  end.

Definition replay (now : Time) (d : DB) (trace : list Command) : DB :=
  foldl (orderEffect now) d trace.





(** The row that [CreateOrder] inserts for a run. *)
Definition createdRow (h : History) (input : BookingWorkflowInput) (flight : Flight)
  : Order :=
  {| ID := in_OrderID input; FlightID := in_FlightID input;
     WorkflowID := WorkflowExecutionID h; Status := OrderStatusSeatsReserved;
     Seats := in_Seats input;
     TotalPriceCents := wrap64 (PriceCents flight * Z.of_nat (length (in_Seats input)));
     PaymentCode := None; ExpiresAt := Some (Add (now0 h) holdDuration);
     ConfirmedAt := None; FailureReason := None |}.


End Replay.

(** ** The flight service: the seat map *)

Module FlightService.

Record SeatMap := {
  Rows : Z;
  SeatsPerRow : Z;
  map_Seats : list Seat;
}.

Definition set_seat_Status (status : SeatStatus) (s : Seat) : Seat :=
  {| seat_ID := seat_ID s; seat_FlightID := seat_FlightID s;
     seat_Row := seat_Row s; seat_Column := seat_Column s;
     seat_Status := status; seat_OrderID := seat_OrderID s |}.

(** The loop that shows a locked seat as reserved. *)
Definition overlay (lockedSeats : gmap string string) (seat : Seat) : Seat :=
  match lockedSeats !! seat_ID seat with
  | Some _ =>
      if bool_decide (seat_Status seat = SeatStatusAvailable)
      then set_seat_Status SeatStatusReserved seat
      else seat
  | None => seat
  end.

(** The highest row number, and the number of seats in row 1. *)
Definition rowsOf (seats : list Seat) : Z :=
  foldl (fun rows seat => if rows <? seat_Row seat then seat_Row seat else rows) 0 seats.

Definition seatsPerRowOf (seats : list Seat) : Z :=
  Z.of_nat (length (filter (fun seat => seat_Row seat = 1) seats)).

Section GetFlightWithSeats.

Variable stringmatch : string -> string -> bool.
Variable orderBy : list Seat -> list Seat.

(** [None] is a panic in [GetLockedSeats]. *)
Definition GetFlightWithSeats (db : DB) (locks : gmap string SeatLockRepo.LockEntry)
    (flightID : string) : option (Flight * SeatMap + error) :=
  match FlightRepo.FindByID db flightID with
  | inr err => Some (inr err)
  | inl flight =>
      let seats := FlightRepo.FindSeats orderBy db flightID in
      match SeatLockRepo.GetLockedSeats stringmatch locks flightID with
      | None => None
      | Some lockedSeats =>
          let seats := overlay lockedSeats <$> seats in
          Some (inl (flight,
                     {| Rows := rowsOf seats;
                        SeatsPerRow := seatsPerRowOf seats;
                        map_Seats := seats |}))
      end
  end.

End GetFlightWithSeats.

End FlightService.

(** ** The reconciliation workflow *)

Module Reconciliation.

Section Workflow.

(** The [ReconcileSeatLocks] activity as the worker runs it; [None] is a
    panic, which the engine reports to the workflow as an error of the
    activity. *)
Variable ReconcileSeatLocks :
  Activities.World -> string -> option (option error * Activities.World).

(** The loop over the flights: an activity that fails is logged and the
    loop goes on. *)
Fixpoint reconcileEach (flightIDs : list string) (w : Activities.World)
  : Activities.World :=
  match flightIDs with
  | [] => w
  | flightID :: flightIDs' =>
      match ReconcileSeatLocks w flightID with
      | Some (_, w') => reconcileEach flightIDs' w'
      | None => reconcileEach flightIDs' w
      end
  end.

(** [SeatReconciliationWorkflow], given what [GetAllFlightIDs] returned. *)
Definition SeatReconciliationWorkflow (getAllFlightIDs : list string + error)
    (w : Activities.World) : option error * Activities.World :=
  match getAllFlightIDs with
  | inr err => (Some err, w)
  | inl flightIDs => (None, reconcileEach flightIDs w)
  end.

End Workflow.

End Reconciliation.

(** ** The Temporal client of the service *)

Module TemporalClient.

(** The payload of a signal. *)
Inductive SignalArg :=
| SeatUpdateSignal (Seats : list string)
| PaymentSignal (PaymentCode : string)
| noArg.

(** What the wrapper asks of the SDK client. *)
Inductive ClientCall :=
| ExecuteWorkflow (ID : string) (input : Workflow.BookingWorkflowInput)
| SignalWorkflow (workflowID runID signalName : string) (arg : SignalArg)
| QueryWorkflow (workflowID runID queryType : string).

(** [fmt.Sprintf("booking-%s", orderID)]. *)
Definition workflowID (orderID : string) : string := "booking-" +:+ orderID.

(** Each method makes one call; [answer] is what the engine says to it.
    A started run reports the id it was started with. *)
Definition StartBookingWorkflow (answer : option error)
    (input : Workflow.BookingWorkflowInput) : (string + error) * list ClientCall :=
  let workflowID := workflowID (Workflow.in_OrderID input) in
  (match answer with
   | Some err => inr (wrap "start booking workflow" err)
   | None => inl workflowID
   end,
   [ExecuteWorkflow workflowID input]).

Definition SignalUpdateSeats (answer : option error) (orderID : string)
    (seats : list string) : option error * list ClientCall :=
  let workflowID := workflowID orderID in
  (match answer with
   | Some err => Some (wrap "signal update seats" err)
   | None => None
   end,
   [SignalWorkflow workflowID "" Workflow.SignalUpdateSeats (SeatUpdateSignal seats)]).

Definition SignalProceedToPayment (answer : option error) (orderID paymentCode : string)
  : option error * list ClientCall :=
  let workflowID := workflowID orderID in
  (match answer with
   | Some err => Some (wrap "signal proceed to payment" err)
   | None => None
   end,
   [SignalWorkflow workflowID "" Workflow.SignalProceedToPay (PaymentSignal paymentCode)]).

Definition SignalCancelBooking (answer : option error) (orderID : string)
  : option error * list ClientCall :=
  let workflowID := workflowID orderID in
  (match answer with
   | Some err => Some (wrap "signal cancel booking" err)
   | None => None
   end,
   [SignalWorkflow workflowID "" Workflow.SignalCancelBooking noArg]).

Definition QueryBookingStatus (answer : BookingService.BookingStatusResponse + error)
    (orderID : string)
  : (BookingService.BookingStatusResponse + error) * list ClientCall :=
  let workflowID := workflowID orderID in
  (match answer with
   | inr err => inr (wrap "query booking status" err)
   | inl status => inl status
   end,
   [QueryWorkflow workflowID "" Workflow.QueryBookingStatus]).

End TemporalClient.

(** ** The booking service: the requests that go to the workflow *)

Module BookingRequests.
Import TemporalClient.

Record CreateOrderOutput := {
  out_OrderID : string;
  out_WorkflowID : string;
  out_Status : OrderStatus;
  out_ExpiresAt : Time;
}.

Record UpdateSeatsOutput := {
  upd_OrderID : string;
  upd_Status : OrderStatus;
  upd_Seats : list string;
  upd_ExpiresAt : Time;
}.

(** [CreateOrder], with the id drawn by [uuid.New()] and the wall clock
    read by [time.Now()]. *)
Definition CreateOrder (db : DB) (uuid : string) (now : Time) (start : option error)
    (FlightID : string) (Seats : list string)
  : (CreateOrderOutput + error) * list ClientCall :=
  match FlightRepo.FindByID db FlightID with
  | inr err => (inr err, [])
  | inl _ =>
      if (length Seats =? 0)%nat then (inr ErrSeatUnavailable, [])
      else
        let orderID := uuid in
        let expiresAt := Add now (15 * Minute) in
        let temporalInput :=
          {| Workflow.in_OrderID := orderID; Workflow.in_FlightID := FlightID;
             Workflow.in_Seats := Seats |} in
        match StartBookingWorkflow start temporalInput with
        | (inr err, calls) => (inr (wrap "start workflow" err), calls)
        | (inl workflowID, calls) =>
            (inl {| out_OrderID := orderID; out_WorkflowID := workflowID;
                    out_Status := OrderStatusSeatsReserved;
                    out_ExpiresAt := expiresAt |},
             calls)
        end
  end.

Definition UpdateSeats (signal : option error)
    (query : BookingService.BookingStatusResponse + error)
    (orderID : string) (seats : list string)
  : (UpdateSeatsOutput + error) * list ClientCall :=
  if (length seats =? 0)%nat then (inr ErrSeatUnavailable, [])
  else
    match SignalUpdateSeats signal orderID seats with
    | (Some err, calls) => (inr (wrap "signal update seats" err), calls)
    | (None, calls) =>
        match QueryBookingStatus query orderID with
        | (inr err, calls') => (inr (wrap "query status" err), calls ++ calls')
        | (inl status, calls') =>
            (inl {| upd_OrderID := BookingService.q_OrderID status;
                    upd_Status := BookingService.q_Status status;
                    upd_Seats := BookingService.q_Seats status;
                    upd_ExpiresAt := BookingService.q_ExpiresAt status |},
             calls ++ calls')
        end
    end.

Definition SubmitPayment (signal : option error) (orderID paymentCode : string)
  : option error * list ClientCall :=
  if negb (BookingService.isValidPaymentCode paymentCode)
  then (Some ErrInvalidPaymentCode, [])
  else
    match SignalProceedToPayment signal orderID paymentCode with
    | (Some err, calls) => (Some (wrap "signal payment" err), calls)
    | (None, calls) => (None, calls)
    end.

Definition CancelOrder (signal : option error) (orderID : string)
  : option error * list ClientCall :=
  match SignalCancelBooking signal orderID with
  | (Some err, calls) => (Some (wrap "signal cancel" err), calls)
  | (None, calls) => (None, calls)
  end.

(** The workflow a call is addressed to. *)
Definition addressee (c : ClientCall) : string :=
  match c with
  | ExecuteWorkflow ID _ => ID
  | SignalWorkflow workflowID _ _ _ => workflowID
  | QueryWorkflow workflowID _ _ => workflowID
  end.

(** The payment codes signalled in a list of calls. *)
Definition paymentCodes (calls : list ClientCall) : list string :=
  omap (fun c => match c with
                 | SignalWorkflow _ _ _ (PaymentSignal code) => Some code
                 | _ => None
                 end) calls.

End BookingRequests.

(** ** Cross-origin headers *)

Module Api.

(** [r.Header.Get("Origin")] is the empty string when the header is
    missing. *)
Record Request := {
  Method : string;
  Origin : string;
}.

Definition MethodOptions : string := "OPTIONS".
Definition StatusNoContent : Z := 204.

(** The loop over [allowedOrigins]. *)
Definition allowed (allowedOrigins : list string) (origin : string) : bool :=
  existsb (fun o => bool_decide (o = "*") || bool_decide (o = origin)) allowedOrigins.

(** The headers set by the middleware, in the order in which they are
    set, and what happens to the request: answered with a status, or
    handed to the next handler. *)
Definition CORS (allowedOrigins : list string) (r : Request)
  : list (string * string) * (Z + Request) :=
  let origin := Origin r in
  let allowOrigin :=
    if allowed allowedOrigins origin then [("Access-Control-Allow-Origin", origin)]
    else
      match allowedOrigins with
      | first :: _ => [("Access-Control-Allow-Origin", first)]
      | [] => []
      end in
  let headers :=
    allowOrigin
      ++ [("Access-Control-Allow-Methods", "GET, POST, PUT, DELETE, OPTIONS");
          ("Access-Control-Allow-Headers", "Content-Type, Authorization");
          ("Access-Control-Max-Age", "86400")] in
  if bool_decide (Method r = MethodOptions) then (headers, inl StatusNoContent)
  else (headers, inr r).

(** [w.Header().Get(name)] after the headers were set. *)
Definition header (name : string) (headers : list (string * string)) : option string :=
  (fun found => found.2.2) <$> list_find (fun h => h.1 = name) headers.

End Api.

(** ** The order status as the string it is *)

(** [OrderStatus] is a string type in the source, and an [Order] can hold
    a status that is none of the seven constants: the zero [Order] has
    the empty string.  The two methods of [Order] that look at nothing
    but the status are given here on that string. *)
Module StatusString.

(** The value of each constant. *)
Definition statusString (s : OrderStatus) : string :=
  match s with
  | OrderStatusCreated => "CREATED"
  | OrderStatusSeatsReserved => "SEATS_RESERVED"
  | OrderStatusPaymentPending => "PAYMENT_PENDING"
  | OrderStatusPaymentProcessing => "PAYMENT_PROCESSING"
  | OrderStatusConfirmed => "CONFIRMED"
  | OrderStatusFailed => "FAILED"
  | OrderStatusExpired => "EXPIRED"
  end.

Definition constants : list string :=
  statusString
    <$> [OrderStatusCreated; OrderStatusSeatsReserved; OrderStatusPaymentPending;
         OrderStatusPaymentProcessing; OrderStatusConfirmed; OrderStatusFailed;
         OrderStatusExpired].

(** [o.IsTerminal()] for an order of this status. *)
Definition IsTerminal (status : string) : bool :=
  bool_decide (status = statusString OrderStatusConfirmed)
  || bool_decide (status = statusString OrderStatusFailed)
  || bool_decide (status = statusString OrderStatusExpired).

(** The map literal of [CanTransitionTo]. *)
Definition validTransitions : gmap string (list string) :=
  {[ statusString OrderStatusCreated :=
       statusString <$> [OrderStatusSeatsReserved; OrderStatusFailed];
     statusString OrderStatusSeatsReserved :=
       statusString
         <$> [OrderStatusPaymentPending; OrderStatusExpired; OrderStatusFailed];
     statusString OrderStatusPaymentPending :=
       statusString
         <$> [OrderStatusPaymentProcessing; OrderStatusExpired; OrderStatusFailed];
     statusString OrderStatusPaymentProcessing :=
       statusString <$> [OrderStatusConfirmed; OrderStatusFailed] ]}.

(** [o.CanTransitionTo(target)] for an order of this status. *)
Definition CanTransitionTo (status target : string) : bool :=
  match validTransitions !! status with
  | None => false
  | Some allowed => existsb (fun s => bool_decide (s = target)) allowed
  end.

End StatusString.

(** ** Status changes one after another *)

Module Lifecycle.

(** A run of status changes on an order, each one allowed by
    [CanTransitionTo] on the order as the previous change left it. *)
Fixpoint legalPath (o : Order) (path : list OrderStatus) : bool :=
  match path with
  | [] => true
  | s :: path' => CanTransitionTo o s && legalPath (OrderRepo.set_status s o) path'
  end.

(** The status test of [IsTerminal], on a status. *)
Definition terminal (s : OrderStatus) : bool :=
  bool_decide (s = OrderStatusConfirmed)
  || bool_decide (s = OrderStatusFailed)
  || bool_decide (s = OrderStatusExpired).

(** How far along a status is. *)
Definition statusRank (s : OrderStatus) : nat :=
  match s with
  | OrderStatusCreated => 0
  | OrderStatusSeatsReserved => 1
  | OrderStatusPaymentPending => 2
  | OrderStatusPaymentProcessing => 3
  | OrderStatusConfirmed | OrderStatusFailed | OrderStatusExpired => 4
  end.

End Lifecycle.

(** ** Reading a trace of the workflow *)

Module Traces.
Import Workflow.

(** The payment validations, back-off sleeps and hold timers asked for,
    and the [FailOrder] and [ExpireOrder] activities. *)
Definition validation (c : Command) : option (string * string) :=
  match c with
  | ExecuteActivity _ (a_ValidatePayment OrderID PaymentCode) =>
      Some (OrderID, PaymentCode)
  | _ => None
  end.

Definition sleep (c : Command) : option Duration :=
  match c with
  | Sleep d => Some d
  | _ => None
  end.

Definition timer (c : Command) : option Duration :=
  match c with
  | NewTimer d => Some d
  | _ => None
  end.

Definition closing (c : Command) : option Activity :=
  match c with
  | ExecuteActivity _ (a_FailOrder OrderID Reason) => Some (a_FailOrder OrderID Reason)
  | ExecuteActivity _ (a_ExpireOrder OrderID) => Some (a_ExpireOrder OrderID)
  | _ => None
  end.

Definition validations (tr : list Command) : list (string * string) :=
  omap validation tr.
Definition sleeps (tr : list Command) : list Duration := omap sleep tr.
Definition timers (tr : list Command) : list Duration := omap timer tr.
Definition closings (tr : list Command) : list Activity := omap closing tr.

(** What the hold loop does to the state and the trace it is entered
    with. *)
Definition holdShape (st : bookingState) (tr : list Command) (r : HoldExit) : Prop :=
  orderID (holdState r) = orderID st
  ∧ paymentAttempts (holdState r) = paymentAttempts st
  ∧ validations (holdTrace r) = validations tr
  ∧ sleeps (holdTrace r) = sleeps tr
  ∧ (Forall (Z.lt 0) (timers tr) → Forall (Z.lt 0) (timers (holdTrace r)))
  ∧ match r with
    | HoldExpired s t =>
        status s = OrderStatusExpired
        ∧ lastError s = "seat reservation expired"
        ∧ closings t = closings tr ++ [a_ExpireOrder (orderID st)]
    | _ => status (holdState r) = status st ∧ closings (holdTrace r) = closings tr
    end.

(** What a run of the body looks like from its trace. *)
Definition runShape (h : History) (input : BookingWorkflowInput) (o : Outcome) : Prop :=
  orderID (finalState o) = in_OrderID input
  ∧ 0 <= paymentAttempts (finalState o) <= maxPaymentAttempts
  ∧ (∃ code, validations (traceOf o)
             = replicate (Z.to_nat (paymentAttempts (finalState o)))
                 (in_OrderID input, code))
  ∧ sleeps (traceOf o)
    = (fun attempt => Second * attempt) <$> seqZ 1 (paymentAttempts (finalState o) - 1)
  ∧ Forall (Z.lt 0) (timers (traceOf o))
  ∧ match o with
    | Completed st res err tr =>
        res = toResult st
        ∧ Lifecycle.terminal (status st) = true
        ∧ (status st = OrderStatusExpired →
           err = Some ErrReservationExpired
           ∧ lastError st = "seat reservation expired")
        ∧ closings tr
          = match createOrder h, reserveSeats h with
            | None, None =>
                match status st with
                | OrderStatusConfirmed => []
                | OrderStatusExpired => [a_ExpireOrder (in_OrderID input)]
                | _ => [a_FailOrder (in_OrderID input) (lastError st)]
                end
            | _, _ => []
            end
    | _ => True
    end.

End Traces.

(** ** Concrete stores and histories used as examples *)

Module Scenario.

Definition order (id : string) (status : OrderStatus) : Order :=
  {| ID := id; FlightID := "f1"; WorkflowID := "booking-" +:+ id;
     Status := status; Seats := ["1A"]; TotalPriceCents := 100;
     PaymentCode := None; ExpiresAt := None; ConfirmedAt := None;
     FailureReason := None |}.

Definition seat1A (status : SeatStatus) (owner : option string) : Seat :=
  {| seat_ID := "1A"; seat_FlightID := "f1"; seat_Row := 1; seat_Column := "A";
     seat_Status := status; seat_OrderID := owner |}.

Definition flight (available : Z) : Flight :=
  {| flight_ID := "f1"; TotalSeats := 10; AvailableSeats := available;
     PriceCents := 100 |}.

(** Seat 1A is reserved for order o2; order o1 is in payment. *)
Definition contested : DB :=
  {| flights := {["f1" := flight 5]};
     seatRows := {[("f1", "1A") := seat1A SeatStatusReserved (Some "o2")]};
     orders := {["o1" := order "o1" OrderStatusPaymentProcessing;
                 "o2" := order "o2" OrderStatusSeatsReserved]} |}.

(** Seat 1A is reserved for order o1, and the flight's counter is at 0. *)
Definition counterAtZero : Activities.World :=
  {| Activities.db :=
       {| flights := {["f1" := flight 0]};
          seatRows := {[("f1", "1A") := seat1A SeatStatusReserved (Some "o1")]};
          orders := {["o1" := order "o1" OrderStatusPaymentProcessing]} |};
     Activities.locks :=
       {[SeatLockRepo.seatLockKey "f1" "1A" :=
           {| SeatLockRepo.lock_owner := "o1"; SeatLockRepo.lock_ttl := 16 * Minute |}]} |}.

(** Order o3 was cancelled by its user one minute into the hold: the
    row is [FAILED] and its deadline is 14 minutes ahead of the clock
    reading [1 * Minute]. *)
Definition canceledOrder : Order :=
  {| ID := "o3"; FlightID := "f1"; WorkflowID := "booking-o3";
     Status := OrderStatusFailed; Seats := ["4A"]; TotalPriceCents := 100;
     PaymentCode := None; ExpiresAt := Some (15 * Minute); ConfirmedAt := None;
     FailureReason := Some "booking canceled by user" |}.

Definition storeWithCanceled : DB :=
  {| flights := {["f1" := flight 5]}; seatRows := ∅;
     orders := {["o3" := canceledOrder]} |}.

Definition queryFailed : error := errorString "query booking status: workflow not found".

(** Histories of the booking workflow. *)

Definition input4 : Workflow.BookingWorkflowInput :=
  {| Workflow.in_OrderID := "o4"; Workflow.in_FlightID := "f1";
     Workflow.in_Seats := ["1A"; "1B"] |}.

(** The simulator's retryable failure as the workflow receives it. *)
Definition gatewayError : error :=
  {| Error := "payment validation failed: temporary gateway error";
     asApplicationError :=
       Some {| appMessage := "payment validation failed: temporary gateway error";
               appType := "errorString" |} |}.

Definition history (events : list (Time * Workflow.HoldEvent))
    (payments : Z -> option error) : Workflow.History :=
  {| Workflow.WorkflowExecutionID := "booking-o4";
     Workflow.now0 := 0;
     Workflow.createOrder := None;
     Workflow.reserveSeats := None;
     Workflow.hold := events;
     Workflow.validatePayment := payments;
     Workflow.confirmOrder := None |}.

(** The payment signal arrives after a second; the first two calls of
    [ValidatePayment] fail retryably, the third succeeds. *)
Definition retriedThenSucceeds : Workflow.History :=
  history [(1 * Second, Workflow.Payment "12345")]
    (fun attempt => if attempt <? 3 then Some gatewayError else None).

(** The same with every call succeeding. *)
Definition paidAtOnce : Workflow.History :=
  history [(1 * Second, Workflow.Payment "12345")] (fun _ => None).

(** A payment signal whose code is the one character ["7"]. *)
Definition shortCode : Workflow.History :=
  history [(1 * Second, Workflow.Payment "7")] (fun _ => None).

(** The user cancels after a second. *)
Definition userCancels : Workflow.History :=
  history [(1 * Second, Workflow.Cancel)] (fun _ => None).

(** Seats are changed at 14 minutes, payment is sent at 16 minutes. *)
Definition seatChange : Workflow.History :=
  history [(14 * Minute, Workflow.SeatUpdate ["3A"; "3B"] None (14 * Minute + Second));
           (16 * Minute, Workflow.Payment "99999")]
    (fun _ => None).

(** Seat 1A is locked for order o1 and seat 2A for order o2. *)
Definition twoOrders : Activities.World :=
  {| Activities.db := Activities.db counterAtZero;
     Activities.locks :=
       {[SeatLockRepo.seatLockKey "f1" "1A" :=
           {| SeatLockRepo.lock_owner := "o1"; SeatLockRepo.lock_ttl := 16 * Minute |};
         SeatLockRepo.seatLockKey "f1" "2A" :=
           {| SeatLockRepo.lock_owner := "o2"; SeatLockRepo.lock_ttl := 16 * Minute |}]} |}.

(** The seat rows cannot be written. *)
Definition seatsDown : error := errorString "update seats: connection refused".

(** Flight f1 and no order yet. *)
Definition noOrders : Activities.World :=
  {| Activities.db := {| flights := {["f1" := flight 5]}; seatRows := ∅; orders := ∅ |};
     Activities.locks := ∅ |}.

(** The row of order o4 after its user cancelled one second into the
    hold, and a store that holds it. *)
Definition rowAfterCancel : Order :=
  {| ID := "o4"; FlightID := "f1"; WorkflowID := "booking-o4";
     Status := OrderStatusFailed; Seats := ["1A"; "1B"]; TotalPriceCents := 200;
     PaymentCode := None; ExpiresAt := Some (15 * Minute); ConfirmedAt := None;
     FailureReason := Some "booking canceled by user" |}.

Definition storeAfterCancel : DB :=
  {| flights := {["f1" := flight 5]}; seatRows := ∅;
     orders := {["o4" := rowAfterCancel]} |}.

(** Seat 1A is locked for order o1 while its row is still available;
    seat 1B is free. *)
Definition lockedNotReserved : Activities.World :=
  {| Activities.db :=
       {| flights := {["f1" := flight 5]};
          seatRows :=
            {[("f1", "1A") := seat1A SeatStatusAvailable None;
              ("f1", "1B") :=
                {| seat_ID := "1B"; seat_FlightID := "f1"; seat_Row := 1;
                   seat_Column := "B"; seat_Status := SeatStatusAvailable;
                   seat_OrderID := None |}]};
          orders := ∅ |};
     Activities.locks :=
       {[SeatLockRepo.seatLockKey "f1" "1A" :=
           {| SeatLockRepo.lock_owner := "o1"; SeatLockRepo.lock_ttl := 16 * Minute |}]} |}.

(** [ReserveSeats] finds seat 1A locked for order o1. *)
Definition lockedByOther : error :=
  errorString "lock seats for order o4: seat 1A already locked by order o1".

Definition seatsTaken : Workflow.History :=
  {| Workflow.WorkflowExecutionID := "booking-o4";
     Workflow.now0 := 0;
     Workflow.createOrder := None;
     Workflow.reserveSeats := Some lockedByOther;
     Workflow.hold := [];
     Workflow.validatePayment := fun _ => None;
     Workflow.confirmOrder := None |}.

End Scenario.

(** * Properties *)

(** ** The lock store *)

Module SeatLockRepoSpec.
Import SeatLockRepo.

Section Locks.

Variables (flightID orderID : string).

Lemma GET_Some (s : gmap string LockEntry) key v :
  GET s key = Some v ↔ ∃ e, s !! key = Some e ∧ lock_owner e = v.
Proof.
  unfold GET. destruct (s !! key) as [e|]; simpl; split.
  - intros [= <-]. eauto.
  - intros (e' & [= <-] & <-). done.
  - done.
  - intros (e' & ? & _). done.
Qed.

(** The check pass finds an error exactly when some requested seat has
    a foreign entry. *)
Lemma checkResults_None (s : gmap string LockEntry) seatIDs :
  checkResults seatIDs
    (map (fun seatID => GET s (seatLockKey flightID seatID)) seatIDs) orderID = None
  ↔ Forall (fun seatID => ¬ foreignLock s flightID orderID seatID) seatIDs.
Proof.
  induction seatIDs as [|seatID seatIDs IH]; simpl.
  - split; [constructor | done].
  - destruct (GET s (seatLockKey flightID seatID)) as [v|] eqn:Hget.
    + apply GET_Some in Hget as (e & He & Hv).
      destruct (decide (v = orderID)) as [->|Hne].
      * rewrite IH. split.
        -- intros HF. constructor; [|done].
           intros (e' & He' & Hne'). congruence.
        -- by inversion 1.
      * split; [done|]. inversion 1 as [|? ? Hnf _]; subst.
        exfalso. apply Hnf. exists e. by subst.
    + rewrite IH. split.
      * intros HF. constructor; [|done].
        intros (e' & He' & _). unfold GET in Hget. by rewrite He' in Hget.
      * by inversion 1.
Qed.

Lemma setAll_snoc (s : gmap string LockEntry) seatIDs seatID ttl :
  setAll s flightID (seatIDs ++ [seatID]) orderID ttl
  = SET (setAll s flightID seatIDs orderID ttl) (seatLockKey flightID seatID) orderID ttl.
Proof. unfold setAll. by rewrite foldl_app. Qed.

Lemma setAll_requested (s : gmap string LockEntry) seatIDs ttl seatID :
  seatID ∈ seatIDs →
  setAll s flightID seatIDs orderID ttl !! seatLockKey flightID seatID
  = Some {| lock_owner := orderID; lock_ttl := ttl |}.
Proof.
  induction seatIDs as [|x l IH] using rev_ind; [by inversion 1|].
  rewrite setAll_snoc. unfold SET. intros Hin.
  destruct (decide (seatLockKey flightID x = seatLockKey flightID seatID)) as [Heq|Hne].
  - rewrite Heq. by rewrite lookup_insert_eq.
  - rewrite lookup_insert_ne by done. apply IH.
    apply elem_of_app in Hin as [Hin|Hin]; [done|].
    apply list_elem_of_singleton in Hin. congruence.
Qed.

Lemma setAll_other (s : gmap string LockEntry) seatIDs ttl key :
  (∀ seatID, seatID ∈ seatIDs → key ≠ seatLockKey flightID seatID) →
  setAll s flightID seatIDs orderID ttl !! key = s !! key.
Proof.
  induction seatIDs as [|x l IH] using rev_ind; [done|].
  intros Hk. rewrite setAll_snoc. unfold SET.
  rewrite lookup_insert_ne.
  - apply IH. intros seatID Hin. apply Hk. set_solver.
  - intros Heq. apply (Hk x); [set_solver | done].
Qed.

(** One compare-and-delete, by lookup. *)
Lemma compareAndDelete_lookup (s : gmap string LockEntry) key k :
  compareAndDelete s key orderID !! k
  = match s !! k with
    | Some e =>
        if bool_decide (k = key ∧ lock_owner e = orderID) then None else Some e
    | None => None
    end.
Proof.
  unfold compareAndDelete, GET.
  destruct (s !! key) as [e|] eqn:He; simpl.
  - destruct (decide (lock_owner e = orderID)) as [Ho|Ho].
    + destruct (decide (k = key)) as [->|Hk].
      * rewrite lookup_delete_eq, He. by rewrite bool_decide_eq_true_2.
      * rewrite lookup_delete_ne by done.
        destruct (s !! k); [|done]. rewrite bool_decide_eq_false_2; [done|].
        by intros [? _].
    + destruct (s !! k) as [e'|] eqn:He'; [|done].
      rewrite bool_decide_eq_false_2; [done|].
      intros [-> ?]. congruence.
  - destruct (s !! k) as [e'|] eqn:He'; [|done].
    rewrite bool_decide_eq_false_2; [done|].
    intros [-> ?]. congruence.
Qed.

(** The store [ReleaseLocks] leaves, by lookup. *)
Lemma ReleaseLocks_lookup seatIDs (s : gmap string LockEntry) k :
  (ReleaseLocks s flightID seatIDs orderID).2 !! k
  = match s !! k with
    | Some e =>
        if bool_decide (k ∈ map (seatLockKey flightID) seatIDs ∧ lock_owner e = orderID)
        then None else Some e
    | None => None
    end.
Proof.
  unfold ReleaseLocks; cbn [snd]. revert s.
  induction seatIDs as [|x l IH]; intros s; cbn [foldl map].
  - destruct (s !! k); [|done]. case_bool_decide as Hk; [|done].
    destruct Hk as [Hk _]. by apply elem_of_nil in Hk.
  - rewrite IH, compareAndDelete_lookup.
    destruct (s !! k) as [e|]; [|done].
    destruct (decide (k = seatLockKey flightID x ∧ lock_owner e = orderID))
      as [[-> Ho]|Hn].
    + rewrite !bool_decide_eq_true_2; [done| |done].
      split; [apply elem_of_cons; by left | done].
    + rewrite (bool_decide_eq_false_2 _ Hn).
      apply (f_equal (fun b : bool => if b then None else Some e)).
      apply bool_decide_ext. rewrite elem_of_cons. tauto.
Qed.

Lemma ReleaseLocks_twice seatIDs (s : gmap string LockEntry) :
  ReleaseLocks (ReleaseLocks s flightID seatIDs orderID).2 flightID seatIDs orderID
  = ReleaseLocks s flightID seatIDs orderID.
Proof.
  transitivity
    (@None error,
     (ReleaseLocks (ReleaseLocks s flightID seatIDs orderID).2
        flightID seatIDs orderID).2); [done|].
  transitivity (@None error, (ReleaseLocks s flightID seatIDs orderID).2); [|done].
  f_equal. apply map_eq. intros k. rewrite !ReleaseLocks_lookup.
  destruct (s !! k) as [e|]; [|done].
  case_bool_decide; [done|]. by rewrite bool_decide_eq_false_2.
Qed.

End Locks.

(** C8.  Whatever the lock store holds: [LockSeats] fails, leaving the
    store as it was, when some requested seat has an entry whose value is
    another order; otherwise it succeeds and the store has every
    requested entry with the requesting order as its value, all other
    keys being as before; for a TTL that is a positive whole number of
    milliseconds, each requested entry has the given TTL.  In particular
    it succeeds when the order already holds every requested seat. *)
Theorem LockSeats_spec (s : gmap string LockEntry) flightID seatIDs orderID ttl :
  (Exists (foreignLock s flightID orderID) seatIDs →
     ∃ err, LockSeats s flightID seatIDs orderID ttl = (Some err, s))
  ∧ (¬ Exists (foreignLock s flightID orderID) seatIDs →
     ∃ s', LockSeats s flightID seatIDs orderID ttl = (None, s')
       ∧ (∀ seatID, seatID ∈ seatIDs →
            GET s' (seatLockKey flightID seatID) = Some orderID)
       ∧ (wholeMilliseconds ttl →
          ∀ seatID, seatID ∈ seatIDs →
            s' !! seatLockKey flightID seatID
            = Some {| lock_owner := orderID; lock_ttl := ttl |})
       ∧ (∀ key, (∀ seatID, seatID ∈ seatIDs → key ≠ seatLockKey flightID seatID) →
            s' !! key = s !! key))
  ∧ ((∀ seatID, seatID ∈ seatIDs →
        ∃ e, s !! seatLockKey flightID seatID = Some e ∧ lock_owner e = orderID) →
     (LockSeats s flightID seatIDs orderID ttl).1 = None).
Proof.
  unfold LockSeats.
  pose proof (checkResults_None flightID orderID s seatIDs) as Hcheck.
  cbv zeta. split; [|split].
  - intros Hex.
    destruct (checkResults _ _ _) as [err|]; [by exists err|].
    exfalso. apply (proj1 (Forall_Exists_neg _ _) (proj1 Hcheck eq_refl) Hex).
  - intros Hnex. apply Forall_Exists_neg, Hcheck in Hnex. rewrite Hnex.
    eexists; split; [done|]. split; [|split].
    + intros seatID Hin. unfold GET. by rewrite setAll_requested.
    + intros _ seatID Hin. by apply setAll_requested.
    + intros key Hkey. by apply setAll_other.
  - intros Hown.
    assert (Forall (fun seatID => ¬ foreignLock s flightID orderID seatID) seatIDs)
      as HF.
    { apply Forall_forall. intros seatID Hin (e & He & Hne).
      destruct (Hown seatID Hin) as (e' & He' & Ho). congruence. }
    apply Hcheck in HF. by rewrite HF.
Qed.

(** C9.  [ReleaseLocks] always succeeds, missing entries included; it
    deletes the entries of the listed seats whose value is the calling
    order; every entry with another value, and every key that is not a
    listed seat, is as before; and releasing a second time with the same
    arguments changes nothing.  The [ReleaseSeats] activity, whatever it
    does to the seat rows, leaves the same lock store when run twice as
    when run once. *)
Theorem ReleaseLocks_idempotent (s : gmap string LockEntry) flightID seatIDs orderID :
  let once := ReleaseLocks s flightID seatIDs orderID in
  once.1 = None
  ∧ (∀ seatID e, seatID ∈ seatIDs →
       s !! seatLockKey flightID seatID = Some e → lock_owner e = orderID →
       once.2 !! seatLockKey flightID seatID = None)
  ∧ (∀ key e, s !! key = Some e → lock_owner e ≠ orderID → once.2 !! key = Some e)
  ∧ (∀ key, s !! key = None → once.2 !! key = None)
  ∧ (∀ key, (∀ seatID, seatID ∈ seatIDs → key ≠ seatLockKey flightID seatID) →
       once.2 !! key = s !! key)
  ∧ ReleaseLocks once.2 flightID seatIDs orderID = once
  ∧ (∀ MarkSeatsAvailable w,
       w.(Activities.locks) = s →
       let w1 := (Activities.ReleaseSeats MarkSeatsAvailable w orderID flightID seatIDs).2 in
       let w2 := (Activities.ReleaseSeats MarkSeatsAvailable w1 orderID flightID seatIDs).2 in
       Activities.locks w1 = once.2 ∧ Activities.locks w2 = Activities.locks w1).
Proof.
  intros once.
  assert (ReleaseLocks once.2 flightID seatIDs orderID = once) as Hidem.
  { unfold once. apply ReleaseLocks_twice. }
  split; [done|]. split; [|split; [|split; [|split; [|split]]]].
  - intros seatID e Hin He Ho. unfold once. rewrite ReleaseLocks_lookup, He.
    rewrite bool_decide_eq_true_2; [done|]. split; [|done].
    apply list_elem_of_fmap. by exists seatID.
  - intros key e He Ho. unfold once. rewrite ReleaseLocks_lookup, He.
    rewrite bool_decide_eq_false_2; [done|]. by intros [_ ?].
  - intros key He. unfold once. by rewrite ReleaseLocks_lookup, He.
  - intros key Hkey. unfold once. rewrite ReleaseLocks_lookup.
    destruct (s !! key) as [e|]; [|done].
    rewrite bool_decide_eq_false_2; [done|]. intros [Hin _].
    apply list_elem_of_fmap in Hin as (seatID & -> & Hin). by apply (Hkey seatID).
  - done.
  - intros MarkSeatsAvailable w Hw w1 w2.
    assert (∀ w', Activities.locks
              (Activities.ReleaseSeats MarkSeatsAvailable w' orderID flightID seatIDs).2
            = (ReleaseLocks (Activities.locks w') flightID seatIDs orderID).2) as Hact.
    { intros w'. unfold Activities.ReleaseSeats, ReleaseLocks.
      by destruct (MarkSeatsAvailable _ _ _) as [[?|] ?]. }
    unfold w2, w1. rewrite !Hact, Hw. fold once. by rewrite Hidem.
Qed.

End SeatLockRepoSpec.

(** ** The order store *)

Module OrderRepoSpec.
Import OrderRepo.

Lemma call_unfold (d : DB) (c : Call) :
  call d c = updateWhereID d (callID c) (written c).
Proof. by destruct c. Qed.

Lemma Status_written (c : Call) (o : Order) : Status (written c o) = callStatus c.
Proof. by destruct c. Qed.

(** C2, as stated, fails: a confirmed order is moved back to
    [SEATS_RESERVED] by [UpdateStatus], and on to [FAILED] by [Fail] and
    to [EXPIRED] by [Expire]; none of the calls returns an error, though
    [CanTransitionTo] allows none of these moves. *)
Lemma UpdateStatus_moves_confirmed_order :
  IsTerminal confirmedOrder = true
  ∧ CanTransitionTo confirmedOrder OrderStatusSeatsReserved = false
  ∧ (UpdateStatus storeWithConfirmed "o1" OrderStatusSeatsReserved).1 = None
  ∧ Status <$> orders (UpdateStatus storeWithConfirmed "o1" OrderStatusSeatsReserved).2
                 !! "o1" = Some OrderStatusSeatsReserved
  ∧ (Fail storeWithConfirmed "o1" "late failure").1 = None
  ∧ Status <$> orders (Fail storeWithConfirmed "o1" "late failure").2 !! "o1"
    = Some OrderStatusFailed
  ∧ Status <$> orders (calls storeWithConfirmed
                         [CallExpire "o1"; CallUpdateStatus "o1" OrderStatusCreated])
                 !! "o1" = Some OrderStatusCreated.
Proof. repeat split; vm_compute; reflexivity. Qed.

Lemma call_keeps_orders (d : DB) (c : Call) (id : string) :
  is_Some (orders (call d c).2 !! id) ↔ is_Some (orders d !! id).
Proof.
  rewrite call_unfold. unfold updateWhereID.
  destruct (orders d !! callID c) as [o|] eqn:Ho; cbn [snd orders with_orders]; [|done].
  destruct (decide (callID c = id)) as [<-|Hne].
  - rewrite lookup_insert_eq, Ho. split; by eauto.
  - by rewrite lookup_insert_ne.
Qed.

Lemma calls_keep_orders (cs : list Call) (d : DB) (id : string) :
  is_Some (orders (calls d cs) !! id) ↔ is_Some (orders d !! id).
Proof.
  revert d. induction cs as [|c cs IH]; intros d; [done|].
  unfold calls in *. cbn [foldl]. by rewrite IH, call_keeps_orders.
Qed.

(** C2, amended.  Each of [UpdateStatus], [Confirm], [Fail] and [Expire]
    returns an error exactly when no order has the given id, and then
    leaves the store as it was; on an existing order it writes its
    status whatever the current one is, leaving the other orders alone.
    So after any sequence of such calls an order has the status of the
    last call made on it.  The legal moves are those of
    [CanTransitionTo], which has none out of [CONFIRMED], [FAILED] and
    [EXPIRED]; the store does not ask it. *)
Theorem status_writes_are_unguarded (d : DB) (c : Call) :
  ((call d c).1 = None ↔ is_Some (orders d !! callID c))
  ∧ (orders d !! callID c = None → call d c = (Some ErrOrderNotFound, d))
  ∧ (∀ o, orders d !! callID c = Some o →
       orders (call d c).2 !! callID c = Some (written c o)
       ∧ Status (written c o) = callStatus c
       ∧ ∀ id, id ≠ callID c → orders (call d c).2 !! id = orders d !! id)
  ∧ (∀ cs, is_Some (orders d !! callID c) →
       Status <$> orders (calls d (cs ++ [c])) !! callID c = Some (callStatus c))
  ∧ (∀ o status, IsTerminal o = true → CanTransitionTo o status = false).
Proof.
  assert (∀ d', is_Some (orders d' !! callID c) →
            Status <$> orders (call d' c).2 !! callID c = Some (callStatus c)) as Hlast.
  { intros d' [o Ho]. rewrite call_unfold. unfold updateWhereID. rewrite Ho.
    cbn [snd orders with_orders]. rewrite lookup_insert_eq. cbn.
    by rewrite Status_written. }
  assert (∀ o status, IsTerminal o = true → CanTransitionTo o status = false) as Hterm.
  { intros o' status. unfold IsTerminal, CanTransitionTo. by destruct (Status o'). }
  assert (∀ cs, is_Some (orders d !! callID c) →
            Status <$> orders (calls d (cs ++ [c])) !! callID c = Some (callStatus c))
    as Hseq.
  { intros cs Hd. unfold calls. rewrite foldl_app. cbn [foldl].
    apply Hlast. by apply calls_keep_orders. }
  rewrite call_unfold. unfold updateWhereID.
  destruct (orders d !! callID c) as [o|] eqn:Ho; simpl.
  - split; [split; [by eauto|done]|]. split; [done|]. split; [|by split].
    intros o' [= <-]. rewrite lookup_insert_eq. split; [done|].
    split; [apply Status_written|].
    intros id Hid. by rewrite lookup_insert_ne.
  - split; [split; [done|by intros [? ?]]|]. split; [done|]. split; [done|].
    by split.
Qed.

(** The move the workflow itself asks for on the payment signal, from
    [SEATS_RESERVED] straight to [PAYMENT_PROCESSING], is not among the
    moves of [CanTransitionTo]. *)
Lemma workflow_move_not_in_CanTransitionTo (o : Order) :
  Status o = OrderStatusSeatsReserved →
  CanTransitionTo o OrderStatusPaymentProcessing = false.
Proof. unfold CanTransitionTo. by intros ->. Qed.

End OrderRepoSpec.

(** ** Booking the seat rows *)

Module FlightRepoSpec.
Import FlightRepo.

Lemma length_remove_dups_le (l : list string) :
  (length (remove_dups l) <= length l)%nat.
Proof.
  induction l as [|x l IH]; simpl; [done|].
  destruct (decide_rel elem_of x l); simpl; lia.
Qed.

Lemma elem_of_matched (d : DB) flightID seatIDs id :
  id ∈ matched d flightID seatIDs
  ↔ id ∈ seatIDs ∧ is_Some (seatRows d !! (flightID, id)).
Proof.
  unfold matched. rewrite list_elem_of_filter, elem_of_remove_dups. tauto.
Qed.

Lemma NoDup_matched (d : DB) flightID seatIDs : NoDup (matched d flightID seatIDs).
Proof. unfold matched. apply NoDup_filter, NoDup_remove_dups. Qed.

(** A full row count means that every listed seat has a row. *)
Lemma matched_all (d : DB) flightID seatIDs :
  length (matched d flightID seatIDs) = length seatIDs →
  ∀ id, id ∈ seatIDs → is_Some (seatRows d !! (flightID, id)).
Proof.
  intros Hlen id Hin.
  destruct (decide (is_Some (seatRows d !! (flightID, id)))) as [|Hno]; [done|].
  exfalso. unfold matched in Hlen.
  pose proof (length_filter_lt
                (fun id => is_Some (seatRows d !! (flightID, id)))
                (remove_dups seatIDs) id) as Hlt.
  pose proof (length_remove_dups_le seatIDs).
  rewrite elem_of_remove_dups in Hlt. specialize (Hlt Hin Hno). lia.
Qed.

(** The rows after the [UPDATE], by lookup. *)
Lemma bookAll_lookup (orderID flightID : string) (rows : list string)
    (m : gmap (string * string) Seat) (k : string * string) :
  foldl (fun m id => alter (book orderID) (flightID, id) m) m rows !! k
  = if bool_decide (k.1 = flightID ∧ k.2 ∈ rows)
    then book orderID <$> (book orderID <$> m !! k) else m !! k.
Proof.
  revert m. induction rows as [|x rows IH]; intros m; cbn [foldl].
  - rewrite bool_decide_eq_false_2; [done|]. intros [_ H]. by apply elem_of_nil in H.
  - rewrite IH. rewrite lookup_alter.
    destruct (decide ((flightID, x) = k)) as [<-|Hk]; cbn [fst snd].
    + rewrite (bool_decide_eq_true_2 (flightID = flightID ∧ x ∈ x :: rows));
        [|split; [done|by left]].
      clear IH. destruct (m !! (flightID, x)); by destruct (bool_decide _).
    + apply (f_equal (fun b : bool =>
               if b then book orderID <$> (book orderID <$> m !! k) else m !! k)).
      apply bool_decide_ext. rewrite elem_of_cons. destruct k as [f i]. simpl.
      split; [tauto|]. intros [-> [->|?]]; [done|tauto].
Qed.

Lemma book_book orderID (row : option Seat) :
  book orderID <$> (book orderID <$> row) = book orderID <$> row.
Proof. by destruct row. Qed.

(** [BookSeats] when the statement goes through. *)
Lemma BookSeats_rows (d : DB) flightID seatIDs orderID (k : string * string) :
  ¬ (matched d flightID seatIDs ≠ [] ∧ orders d !! orderID = None) →
  seatRows (BookSeats d flightID seatIDs orderID).2 !! k
  = if bool_decide (k.1 = flightID ∧ k.2 ∈ seatIDs)
    then book orderID <$> seatRows d !! k else seatRows d !! k.
Proof.
  intros Hfk. unfold BookSeats. rewrite (bool_decide_eq_false_2 _ Hfk).
  destruct (bool_decide (Z.of_nat _ = Z.of_nat _)); cbn [snd with_seats seatRows];
    rewrite bookAll_lookup, book_book; destruct k as [f i]; cbn [fst snd].
  all: destruct (decide (f = flightID ∧ i ∈ seatIDs)) as [[-> Hin]|Hn].
  all: try (rewrite (bool_decide_eq_false_2 (f = flightID ∧ i ∈ seatIDs)) by done;
            rewrite bool_decide_eq_false_2; [done|];
            rewrite elem_of_matched; tauto).
  all: rewrite (bool_decide_eq_true_2 (flightID = flightID ∧ i ∈ seatIDs)) by done.
  all: destruct (seatRows d !! (flightID, i)) as [row|] eqn:Hrow;
    [|by destruct (bool_decide _)].
  all: rewrite bool_decide_eq_true_2; [done|].
  all: split; [done|]; apply elem_of_matched; rewrite Hrow; eauto.
Qed.

Lemma BookSeats_other_tables (d : DB) flightID seatIDs orderID :
  flights (BookSeats d flightID seatIDs orderID).2 = flights d
  ∧ orders (BookSeats d flightID seatIDs orderID).2 = orders d.
Proof. unfold BookSeats. by repeat case_bool_decide. Qed.

Lemma BookSeats_ok (d : DB) flightID seatIDs orderID :
  (BookSeats d flightID seatIDs orderID).1 = None
  ↔ ¬ (matched d flightID seatIDs ≠ [] ∧ orders d !! orderID = None)
    ∧ length (matched d flightID seatIDs) = length seatIDs.
Proof.
  unfold BookSeats. repeat case_bool_decide; simpl; split; try done; try tauto.
  - intros _. split; [done|lia].
  - intros [_ ?]. lia.
Qed.

Lemma Confirm_found (d : DB) now orderID o :
  orders d !! orderID = Some o →
  OrderRepo.Confirm d now orderID
  = (None, with_orders d (<[orderID := OrderRepo.set_confirmed now o]> (orders d))).
Proof. intros Ho. unfold OrderRepo.Confirm, OrderRepo.updateWhereID. by rewrite Ho. Qed.

Lemma matched_with_orders (d : DB) os flightID seatIDs :
  matched (with_orders d os) flightID seatIDs = matched d flightID seatIDs.
Proof. done. Qed.

(** C3, as stated, fails.  [BookSeats] books a seat row that is reserved
    for another order; and when the counter cannot be decremented,
    [ConfirmOrder] fails with the row booked and the order confirmed. *)
Lemma BookSeats_books_foreign_row_and_is_not_atomic :
  seatRows Scenario.contested !! ("f1", "1A")
  = Some (Scenario.seat1A SeatStatusReserved (Some "o2"))
  ∧ (BookSeats Scenario.contested "f1" ["1A"] "o1").1 = None
  ∧ seatRows (BookSeats Scenario.contested "f1" ["1A"] "o1").2 !! ("f1", "1A")
    = Some (Scenario.seat1A SeatStatusBooked (Some "o1"))
  ∧ (Activities.ConfirmOrder Scenario.counterAtZero 7 "o1" "f1" ["1A"]).1
    = Some (wrap "update available seats" ErrInsufficientSeats)
  ∧ seatRows (Activities.db
                (Activities.ConfirmOrder Scenario.counterAtZero 7 "o1" "f1" ["1A"]).2)
      !! ("f1", "1A")
    = Some (Scenario.seat1A SeatStatusBooked (Some "o1"))
  ∧ AvailableSeats <$>
      flights (Activities.db
                 (Activities.ConfirmOrder Scenario.counterAtZero 7 "o1" "f1" ["1A"]).2)
        !! "f1"
    = Some 0
  ∧ Status <$>
      orders (Activities.db
                (Activities.ConfirmOrder Scenario.counterAtZero 7 "o1" "f1" ["1A"]).2)
        !! "o1"
    = Some OrderStatusConfirmed.
Proof. repeat split; vm_compute; reflexivity. Qed.

(** The three statements of [ConfirmOrder], one after the other. *)
Lemma ConfirmOrder_steps (d : DB) l now orderID flightID seatIDs (o : Order) :
  orders d !! orderID = Some o →
  let d1 := with_orders d (<[orderID := OrderRepo.set_confirmed now o]> (orders d)) in
  let b := BookSeats d1 flightID seatIDs orderID in
  let u := UpdateAvailableSeats b.2 flightID (- Z.of_nat (length seatIDs)) in
  Activities.ConfirmOrder {| Activities.db := d; Activities.locks := l |}
    now orderID flightID seatIDs
  = match b.1 with
    | Some err => (Some (wrap "book seats" err),
                   {| Activities.db := b.2; Activities.locks := l |})
    | None =>
        match u.1 with
        | Some err => (Some (wrap "update available seats" err),
                       {| Activities.db := u.2; Activities.locks := l |})
        | None =>
            (None,
             {| Activities.db := u.2;
                Activities.locks :=
                  (SeatLockRepo.ReleaseLocks l flightID seatIDs orderID).2 |})
        end
    end.
Proof.
  intros Ho d1 b u. unfold Activities.ConfirmOrder. cbn [Activities.db Activities.locks].
  rewrite (Confirm_found _ _ _ _ Ho). fold d1. fold b.
  destruct b as [[err|] d2] eqn:Hb; cbn [fst snd]; [done|].
  subst u. cbn [snd]. by destruct (UpdateAvailableSeats d2 _ _) as [[err|] d3].
Qed.

Lemma UpdateAvailableSeats_ok (d : DB) flightID delta :
  (UpdateAvailableSeats d flightID delta).1 = None →
  ∃ f, flights d !! flightID = Some f
       ∧ 0 <= AvailableSeats f + delta <= TotalSeats f
       ∧ (UpdateAvailableSeats d flightID delta).2
         = with_flights d
             (<[flightID := setAvailable (AvailableSeats f + delta) f]> (flights d)).
Proof.
  unfold UpdateAvailableSeats. destruct (flights d !! flightID) as [f|]; [|done].
  destruct (0 <=? AvailableSeats f + delta) eqn:H0; [|done].
  destruct (AvailableSeats f + delta <=? TotalSeats f) eqn:H1; [|done].
  intros _. exists f. split; [done|]. split; [lia|done].
Qed.

Lemma UpdateAvailableSeats_insufficient (d : DB) flightID delta f :
  flights d !! flightID = Some f → AvailableSeats f + delta < 0 →
  UpdateAvailableSeats d flightID delta = (Some ErrInsufficientSeats, d).
Proof.
  intros Hf Hlt. unfold UpdateAvailableSeats. rewrite Hf.
  destruct (0 <=? AvailableSeats f + delta) eqn:H0; [lia|done].
Qed.

(** C3, amended.  [BookSeats] succeeds exactly when the statement goes
    through and every listed seat is a distinct row of the flight; when
    the order exists it sets every listed row of the flight to booked
    for the order, whatever status and owner the row had, and touches
    no other row and no other table.  [ConfirmOrder] confirms the
    order, books the rows and decrements the counter as three separate
    statements: when it succeeds the order is confirmed, every listed
    row is booked for it, the counter is lower by the number of seats
    and the locks are released; when the counter is too low for the
    decrement it fails with the order confirmed and the rows booked. *)
Theorem BookSeats_and_ConfirmOrder (d : DB) (flightID : string)
    (seatIDs : list string) (orderID : string) :
  let r := BookSeats d flightID seatIDs orderID in
  (r.1 = None
   ↔ ¬ (matched d flightID seatIDs ≠ [] ∧ orders d !! orderID = None)
     ∧ length (matched d flightID seatIDs) = length seatIDs)
  ∧ (is_Some (orders d !! orderID) →
     ∀ k, seatRows r.2 !! k
          = if bool_decide (k.1 = flightID ∧ k.2 ∈ seatIDs)
            then book orderID <$> seatRows d !! k else seatRows d !! k)
  ∧ flights r.2 = flights d
  ∧ orders r.2 = orders d
  ∧ (∀ l now,
       let c := Activities.ConfirmOrder
                  {| Activities.db := d; Activities.locks := l |}
                  now orderID flightID seatIDs in
       (c.1 = None →
          Status <$> orders (Activities.db c.2) !! orderID = Some OrderStatusConfirmed
          ∧ (∀ id, id ∈ seatIDs →
               ∃ row, seatRows d !! (flightID, id) = Some row
                      ∧ seatRows (Activities.db c.2) !! (flightID, id)
                        = Some (book orderID row))
          ∧ (∃ f, flights d !! flightID = Some f
                  ∧ flights (Activities.db c.2) !! flightID
                    = Some (setAvailable
                              (AvailableSeats f - Z.of_nat (length seatIDs)) f))
          ∧ Activities.locks c.2
            = (SeatLockRepo.ReleaseLocks l flightID seatIDs orderID).2)
       ∧ (∀ o f,
            orders d !! orderID = Some o →
            flights d !! flightID = Some f →
            length (matched d flightID seatIDs) = length seatIDs →
            AvailableSeats f < Z.of_nat (length seatIDs) →
            c.1 = Some (wrap "update available seats" ErrInsufficientSeats)
            ∧ Status <$> orders (Activities.db c.2) !! orderID
              = Some OrderStatusConfirmed
            ∧ (∀ id, id ∈ seatIDs →
                 ∃ row, seatRows d !! (flightID, id) = Some row
                        ∧ seatRows (Activities.db c.2) !! (flightID, id)
                          = Some (book orderID row))
            ∧ flights (Activities.db c.2) = flights d)).
Proof.
  intros r. split; [apply BookSeats_ok|].
  split.
  { intros [o Ho] k. apply BookSeats_rows. intros [_ Hno]. congruence. }
  split; [apply BookSeats_other_tables|]. split; [apply BookSeats_other_tables|].
  intros l now c.
  (* what holds once the first two statements have gone through *)
  assert (∀ o, orders d !! orderID = Some o →
            let d1 := with_orders d
                        (<[orderID := OrderRepo.set_confirmed now o]> (orders d)) in
            let b := BookSeats d1 flightID seatIDs orderID in
            b.1 = None →
            Status <$> orders b.2 !! orderID = Some OrderStatusConfirmed
            ∧ (∀ id, id ∈ seatIDs →
                 ∃ row, seatRows d !! (flightID, id) = Some row
                        ∧ seatRows b.2 !! (flightID, id) = Some (book orderID row))
            ∧ flights b.2 = flights d) as Hbooked.
  { intros o Ho d1 b Hb.
    pose proof (BookSeats_other_tables d1 flightID seatIDs orderID) as [Hfl Hor].
    fold b in Hfl, Hor. apply BookSeats_ok in Hb as [Hfk Hlen].
    split; [|split].
    - rewrite Hor. unfold d1. cbn [orders with_orders]. by rewrite lookup_insert_eq.
    - intros id Hin.
      destruct (matched_all d1 flightID seatIDs Hlen id Hin) as [row Hrow].
      exists row. split; [done|]. unfold b. rewrite BookSeats_rows by done.
      cbn [fst snd]. rewrite bool_decide_eq_true_2 by done. by rewrite Hrow.
    - by rewrite Hfl. }
  split.
  - intros Hc. destruct (orders d !! orderID) as [o|] eqn:Ho.
    + specialize (Hbooked o eq_refl). cbv zeta in Hbooked.
      unfold c in *. rewrite (ConfirmOrder_steps _ _ _ _ _ _ o Ho) in *.
      cbv zeta in *.
      destruct (BookSeats _ flightID seatIDs orderID).1 as [err|] eqn:Hb; [done|].
      destruct (Hbooked eq_refl) as (Hst & Hrows & Hfl).
      destruct (UpdateAvailableSeats _ flightID _).1 as [err|] eqn:Hu; [done|].
      apply UpdateAvailableSeats_ok in Hu as (f & Hf & _ & ->).
      cbn [snd Activities.db Activities.locks with_flights orders seatRows flights].
      split; [done|]. split; [done|]. split; [|done].
      exists f. rewrite Hfl in Hf. split; [done|].
      by rewrite lookup_insert_eq.
    + exfalso. unfold c, Activities.ConfirmOrder, OrderRepo.Confirm,
        OrderRepo.updateWhereID in Hc.
      cbn [Activities.db] in Hc. by rewrite Ho in Hc.
  - intros o f Ho Hf Hlen Hlow.
    specialize (Hbooked o Ho). cbv zeta in Hbooked.
    unfold c. rewrite (ConfirmOrder_steps _ _ _ _ _ _ o Ho). cbv zeta.
    assert ((BookSeats
               (with_orders d
                  (<[orderID := OrderRepo.set_confirmed now o]> (orders d)))
               flightID seatIDs orderID).1 = None) as Hb.
    { apply BookSeats_ok. split; [|done].
      intros [_ Hno]. cbn [orders with_orders] in Hno.
      by rewrite lookup_insert_eq in Hno. }
    rewrite Hb. destruct (Hbooked Hb) as (Hst & Hrows & Hfl).
    rewrite (UpdateAvailableSeats_insufficient _ _ _ f); [done| |lia].
    by rewrite Hfl.
Qed.

End FlightRepoSpec.

(** ** The status fallback of the booking service *)

Module BookingServiceSpec.
Import BookingService.

Lemma Sub_pos (t u : Time) : 0 < Sub t u ↔ 0 < t - u.
Proof. unfold Sub, minDuration, maxDuration. lia. Qed.

Lemma truncSeconds_zero (d : Duration) : 0 < d → truncSeconds d = 0 ↔ d < Second.
Proof.
  intros Hd. unfold truncSeconds, Second. rewrite Z.quot_div_nonneg by lia.
  split; intros H.
  - pose proof (Z.div_mod d 1000000000 ltac:(lia)).
    pose proof (Z.mod_pos_bound d 1000000000 ltac:(lia)). lia.
  - apply Z.div_small; lia.
Qed.

Lemma timerRemaining_nonneg (now : Time) (e : option Time) : 0 <= timerRemaining now e.
Proof.
  unfold timerRemaining. destruct e as [t|]; [|done].
  destruct (0 <? Until now t) eqn:Hpos; [|done].
  apply Z.ltb_lt in Hpos. unfold truncSeconds, Second.
  apply Z.quot_pos; lia.
Qed.

Lemma timerRemaining_zero (now : Time) (e : option Time) :
  timerRemaining now e = 0 ↔ e = None ∨ ∃ t, e = Some t ∧ t - now < Second.
Proof.
  unfold timerRemaining, Until. destruct e as [t|]; [|by split; [left|]].
  destruct (0 <? Sub t now) eqn:Hpos.
  - apply Z.ltb_lt in Hpos. rewrite truncSeconds_zero by done.
    unfold Sub, minDuration, maxDuration, Second in *. split.
    + intros H. right. exists t. split; [done|lia].
    + intros [?|(t' & [= <-] & H)]; [done|lia].
  - apply Z.ltb_ge in Hpos. split; [|done]. intros _. right. exists t.
    split; [done|]. unfold Sub, minDuration, maxDuration, Second in *. lia.
Qed.

(** C7, as stated, fails: for the order cancelled one minute into its
    hold, the fallback answers with the 840 seconds left of the row's
    deadline, not with 0. *)
Lemma GetOrderStatus_fallback_timer_not_zero :
  GetOrderStatus (inr Scenario.queryFailed) Scenario.storeWithCanceled
    (1 * Minute) "o3"
  = inl {| resp_OrderID := "o3"; resp_Status := OrderStatusFailed;
           resp_Seats := ["4A"]; resp_TimerRemaining := 840;
           resp_PaymentAttempts := 0;
           resp_LastError := "booking canceled by user" |}.
Proof. vm_compute. reflexivity. Qed.

(** C7, amended.  When the workflow query fails and the order has a row,
    the answer is the row's id, status and seats, its failure reason (or
    the empty string) as the last error, 0 payment attempts, and a timer
    computed from the row's deadline: never negative, 0 exactly when the
    row has no deadline or the deadline is less than a second ahead, and
    the whole seconds from now to the deadline when that is ahead by
    less than 2^22 seconds. *)
Theorem GetOrderStatus_fallback (d : DB) (now : Time) (orderID : string)
    (err : error) (order : Order) :
  orders d !! orderID = Some order →
  GetOrderStatus (inr err) d now orderID
  = inl {| resp_OrderID := ID order;
           resp_Status := Status order;
           resp_Seats := Seats order;
           resp_TimerRemaining := timerRemaining now (ExpiresAt order);
           resp_PaymentAttempts := 0;
           resp_LastError := stringValue (FailureReason order) |}
  ∧ 0 <= timerRemaining now (ExpiresAt order)
  ∧ (timerRemaining now (ExpiresAt order) = 0
     ↔ ExpiresAt order = None ∨ ∃ t, ExpiresAt order = Some t ∧ t - now < Second)
  ∧ (∀ t, ExpiresAt order = Some t → 0 < t - now < 2 ^ 22 * Second →
       timerRemaining now (ExpiresAt order) = (t - now) `quot` Second).
Proof.
  intros Ho. split; [|split; [|split]].
  - unfold GetOrderStatus, OrderRepo.FindByID. by rewrite Ho.
  - apply timerRemaining_nonneg.
  - apply timerRemaining_zero.
  - intros t -> Ht. unfold timerRemaining, Until.
    assert (Sub t now = t - now) as ->
      by (unfold Sub, minDuration, maxDuration, Second in *; lia).
    destruct (0 <? t - now) eqn:Hpos; [done|]. apply Z.ltb_ge in Hpos. lia.
Qed.

Lemma GetOrderStatus_fallback_witness :
  GetOrderStatus (inr Scenario.queryFailed) Scenario.storeWithCanceled
    (20 * Minute) "o3"
  = inl {| resp_OrderID := "o3"; resp_Status := OrderStatusFailed;
           resp_Seats := ["4A"]; resp_TimerRemaining := 0;
           resp_PaymentAttempts := 0;
           resp_LastError := "booking canceled by user" |}.
Proof.
  exact (proj1 (GetOrderStatus_fallback Scenario.storeWithCanceled (20 * Minute) "o3"
                  Scenario.queryFailed Scenario.canceledOrder eq_refl)).
Defined.

(** A query that succeeds is passed on as it is. *)
Lemma GetOrderStatus_live (d : DB) (now : Time) (orderID : string)
    (status : BookingStatusResponse) :
  GetOrderStatus (inl status) d now orderID
  = inl {| resp_OrderID := q_OrderID status; resp_Status := q_Status status;
           resp_Seats := q_Seats status;
           resp_TimerRemaining := q_TimerRemaining status;
           resp_PaymentAttempts := q_PaymentAttempts status;
           resp_LastError := q_LastError status |}.
Proof. done. Qed.

End BookingServiceSpec.

(** ** The payment simulator *)

Module PaymentSpec.
Import Activities.

Lemma isDigit_spec (c : ascii) :
  isDigit c = true ↔ (48 <= nat_of_ascii c <= 57)%nat.
Proof. unfold isDigit. rewrite andb_true_iff, !Z.leb_le. lia. Qed.

(** The pattern accepts exactly the strings of [n] decimal digits. *)
Lemma digits_spec (n : nat) (s : string) :
  digits n s = true
  ↔ String.length s = n
    ∧ ∀ c, In c (list_ascii_of_string s) → (48 <= nat_of_ascii c <= 57)%nat.
Proof.
  revert s. induction n as [|n IH]; intros [|c s]; simpl.
  - split; [by intros _; split; [|intros ? []] | done].
  - split; [done | by intros [? _]].
  - split; [done | by intros [? _]].
  - rewrite andb_true_iff, IH, isDigit_spec. split.
    + intros (Hc & Hlen & Hs). split; [by rewrite Hlen|].
      intros c' [<-|Hin]; [done | by apply Hs].
    + intros (Hlen & Hs). split; [apply Hs; by left|].
      split; [by injection Hlen | intros c' Hin; apply Hs; by right].
Qed.

Lemma paymentCodePattern_spec (s : string) :
  paymentCodePattern s = true ↔ fiveDecimalDigits s.
Proof. apply digits_spec. Qed.

(** C5.  For every payment code that is not exactly five decimal digits,
    codes of length 4 and 6 among them, [ValidatePayment] returns at
    once the application error of type [INVALID_PAYMENT_CODE]; for
    ["00000"] it returns at once an application error of type
    [PAYMENT_DECLINED]; both types are non-retryable for the payment
    activity options and for the retry loop of the workflow.  For
    ["99999"] it returns success without waiting.  None of this depends
    on the failure rate or on what is drawn. *)
Theorem ValidatePayment_fixed_codes (PaymentFailureRate : Qc) (draws : Draws)
    (OrderID PaymentCode : string) :
  (¬ fiveDecimalDigits PaymentCode →
     ValidatePayment PaymentFailureRate draws OrderID PaymentCode
     = ((emptyOutput, Some NewInvalidPaymentCodeError), 0))
  ∧ (String.length PaymentCode = 4%nat ∨ String.length PaymentCode = 6%nat →
     ValidatePayment PaymentFailureRate draws OrderID PaymentCode
     = ((emptyOutput, Some NewInvalidPaymentCodeError), 0))
  ∧ asApplicationError NewInvalidPaymentCodeError
    = Some {| appMessage := "payment code must be 5 digits";
              appType := ErrTypeInvalidPaymentCode |}
  ∧ ValidatePayment PaymentFailureRate draws OrderID "00000"
    = ((emptyOutput,
        Some (NewApplicationError "payment declined: insufficient funds"
                ErrTypePaymentDeclined)), 0)
  ∧ ValidatePayment PaymentFailureRate draws OrderID "99999"
    = (({| Success := true; Message := "Payment validated (test mode)" |}, None), 0)
  ∧ Workflow.NonRetryableErrorTypes (Workflow.retryPolicy Workflow.paymentActivityOptions)
    = [ErrTypeInvalidPaymentCode; ErrTypePaymentDeclined]
  ∧ Workflow.nonRetryable NewInvalidPaymentCodeError
    = asApplicationError NewInvalidPaymentCodeError
  ∧ Workflow.nonRetryable
      (NewApplicationError "payment declined: insufficient funds" ErrTypePaymentDeclined)
    = Some {| appMessage := "payment declined: insufficient funds";
              appType := ErrTypePaymentDeclined |}.
Proof.
  assert (¬ fiveDecimalDigits PaymentCode →
          ValidatePayment PaymentFailureRate draws OrderID PaymentCode
          = ((emptyOutput, Some NewInvalidPaymentCodeError), 0)) as Hinvalid.
  { intros Hno. unfold ValidatePayment.
    destruct (paymentCodePattern PaymentCode) eqn:Hp; [|done].
    by apply paymentCodePattern_spec in Hp. }
  split; [done|]. split.
  { intros Hlen. apply Hinvalid. intros [H5 _]. lia. }
  repeat split.
Qed.

(** The other well-formed codes: the wait is the drawn 1 to 7 seconds,
    and the result is the retryable gateway error exactly when the draw
    falls below the failure rate. *)
Lemma ValidatePayment_simulated (PaymentFailureRate : Qc) (draws : Draws)
    (OrderID PaymentCode : string) :
  fiveDecimalDigits PaymentCode → PaymentCode ≠ "00000" → PaymentCode ≠ "99999" →
  ctxDone draws = None →
  ValidatePayment PaymentFailureRate draws OrderID PaymentCode
  = if bool_decide (Float64 draws < PaymentFailureRate)%Qc
    then ((emptyOutput,
           Some (errorString "payment validation failed: temporary gateway error")),
          (Intn7 draws + 1) * Second)
    else (({| Success := true; Message := "Payment validated successfully" |}, None),
          (Intn7 draws + 1) * Second).
Proof.
  intros Hp H0 H9 Hctx. unfold ValidatePayment.
  apply paymentCodePattern_spec in Hp. rewrite Hp. cbn [negb].
  rewrite !bool_decide_eq_false_2 by done. by rewrite Hctx.
Qed.

End PaymentSpec.

(** ** The booking workflow *)

Module WorkflowSpec.
Import Workflow.

Lemma noRelease_app (t1 t2 : list Command) :
  noRelease (t1 ++ t2) ↔ noRelease t1 ∧ noRelease t2.
Proof. apply Forall_app. Qed.

(** *** The payment loop *)

(** The loop touches nothing but the attempt counter and the last error,
    and only adds payment calls and sleeps to the trace. *)
Lemma paymentLoop_frame (h : History) (code : string) (remaining : nat) :
  ∀ attempt st last tr st' last' tr',
    paymentLoop h code remaining attempt st last tr = (st', last', tr') →
    orderID st' = orderID st ∧ flightID st' = flightID st ∧ seats st' = seats st
    ∧ status st' = status st ∧ expiresAt st' = expiresAt st
    ∧ ∃ added, tr' = tr ++ added ∧ noRelease added.
Proof.
  induction remaining as [|remaining IH]; intros attempt st last tr st' last' tr' Hrun;
    cbn [paymentLoop] in Hrun.
  - injection Hrun as <- <- <-. repeat split. exists []. split; [by rewrite app_nil_r|].
    constructor.
  - destruct (validatePayment h attempt) as [err|].
    + destruct (nonRetryable err) as [appErr|].
      * injection Hrun as <- <- <-. repeat split. eexists. split; [done|].
        by repeat constructor.
      * destruct (attempt <? maxPaymentAttempts);
          apply IH in Hrun as (Ho & Hf & Hs & Hst & He & added & Htr & Hadd);
          (repeat (split; [done|]));
          (eexists; split; [rewrite Htr, <- !app_assoc; reflexivity|]);
          cbn [app]; repeat (constructor; [done|]); done.
    + injection Hrun as <- <- <-. repeat split. eexists. split; [done|].
      by repeat constructor.
Qed.

(** Once an attempt has failed, [lastPaymentErr] stays set to the end of
    the loop, whatever the later attempts return. *)
Lemma paymentLoop_keeps_lastPaymentErr (h : History) (code : string)
    (remaining : nat) :
  ∀ attempt st err tr,
    is_Some (paymentLoop h code remaining attempt st (Some err) tr).1.2.
Proof.
  induction remaining as [|remaining IH]; intros attempt st err tr;
    cbn [paymentLoop]; [by eexists|].
  destruct (validatePayment h attempt) as [err'|]; [|by eexists].
  destruct (nonRetryable err') as [appErr|]; [by eexists|].
  destruct (attempt <? maxPaymentAttempts); apply IH.
Qed.

(** The loop ends with [lastPaymentErr] unset only when the first
    attempt succeeds. *)
Lemma paymentLoop_no_error_iff (h : History) (code : string) (st : bookingState)
    (tr : list Command) :
  (paymentLoop h code (Z.to_nat maxPaymentAttempts) 1 st None tr).1.2 = None
  ↔ validatePayment h 1 = None.
Proof.
  change (Z.to_nat maxPaymentAttempts) with (S 2).
  generalize 2%nat. intros remaining. cbn [paymentLoop].
  destruct (validatePayment h 1) as [err|]; [|done].
  split; [|done]. intros Hnone. exfalso.
  destruct (nonRetryable err) as [appErr|]; [done|].
  change (1 <? maxPaymentAttempts) with true in Hnone. cbv iota in Hnone.
  match type of Hnone with
  | (paymentLoop ?h ?c ?r ?a ?s (Some ?e) ?t).1.2 = None =>
      destruct (paymentLoop_keeps_lastPaymentErr h c r a s e t) as [e' He']
  end.
  congruence.
Qed.

(** The order ends [CONFIRMED] exactly when the first payment attempt
    and the confirmation succeed: a success on the second or third
    attempt is followed by [FAILED]. *)
Lemma payAndConfirm_confirmed_iff (h : History) (paymentSignal : string)
    (st : bookingState) (tr : list Command) :
  status (finalState (payAndConfirm h paymentSignal st tr)) = OrderStatusConfirmed
  ↔ validatePayment h 1 = None ∧ confirmOrder h = None.
Proof.
  unfold payAndConfirm.
  pose proof (paymentLoop_no_error_iff h paymentSignal
                (set_status OrderStatusPaymentProcessing st)
                (tr ++ [ExecuteActivity orderCtx
                          (a_UpdateOrderStatus
                             (orderID (set_status OrderStatusPaymentProcessing st))
                             OrderStatusPaymentProcessing)])) as Hiff.
  destruct (paymentLoop _ _ _ _ _ _ _) as [[st' last'] tr']. cbn [fst snd] in Hiff.
  destruct last' as [lastErr|].
  - split.
    + cbn [finalState]. by case_bool_decide.
    + intros [H1 _]. apply Hiff in H1. done.
  - destruct (confirmOrder h) as [err|]; cbn [finalState].
    + split; [done|]. by intros [_ ?].
    + split; [|done]. intros _. split; [by apply Hiff|done].
Qed.

(** Three retryable failures: three attempts with sleeps of 1s and 2s in
    between, then [FAILED] with the last message as the reason. *)
Lemma payAndConfirm_three_failures (h : History) (paymentSignal : string)
    (st : bookingState) (tr : list Command) (e1 e2 e3 : error) :
  validatePayment h 1 = Some e1 → nonRetryable e1 = None →
  validatePayment h 2 = Some e2 → nonRetryable e2 = None →
  validatePayment h 3 = Some e3 → nonRetryable e3 = None →
  payAndConfirm h paymentSignal st tr
  = let state :=
      {| orderID := orderID st; flightID := flightID st; seats := seats st;
         status := OrderStatusFailed; expiresAt := expiresAt st;
         paymentAttempts := 3;
         lastError := "payment failed after 3 attempts: " +:+ Error e3 |} in
    let attempt :=
      ExecuteActivity paymentCtx (a_ValidatePayment (orderID st) paymentSignal) in
    Completed state (toResult state) (Some e3)
      (tr ++ [ExecuteActivity orderCtx
                (a_UpdateOrderStatus (orderID st) OrderStatusPaymentProcessing);
              attempt; Sleep (1 * Second); attempt; Sleep (2 * Second); attempt;
              ExecuteActivity orderCtx
                (a_FailOrder (orderID st)
                   ("payment failed after 3 attempts: " +:+ Error e3))]).
Proof.
  intros H1 N1 H2 N2 H3 N3. unfold payAndConfirm.
  change (Z.to_nat maxPaymentAttempts) with 3%nat. cbn [paymentLoop].
  change (1 + 1) with 2. change (2 + 1) with 3.
  rewrite H1, N1, H2, N2, H3, N3. cbn.
  by rewrite <- !app_assoc.
Qed.

(** A non-retryable failure of the first attempt: no further attempt and
    no sleep, then [FAILED] with the message of the application error. *)
Lemma payAndConfirm_non_retryable (h : History) (paymentSignal : string)
    (st : bookingState) (tr : list Command) (e : error) (appErr : ApplicationError) :
  validatePayment h 1 = Some e → nonRetryable e = Some appErr →
  payAndConfirm h paymentSignal st tr
  = let state :=
      {| orderID := orderID st; flightID := flightID st; seats := seats st;
         status := OrderStatusFailed; expiresAt := expiresAt st;
         paymentAttempts := 1;
         lastError := "payment failed: " +:+ appMessage appErr |} in
    Completed state (toResult state) (Some e)
      (tr ++ [ExecuteActivity orderCtx
                (a_UpdateOrderStatus (orderID st) OrderStatusPaymentProcessing);
              ExecuteActivity paymentCtx (a_ValidatePayment (orderID st) paymentSignal);
              ExecuteActivity orderCtx
                (a_FailOrder (orderID st) ("payment failed: " +:+ appMessage appErr))]).
Proof.
  intros H1 N1. unfold payAndConfirm.
  change (Z.to_nat maxPaymentAttempts) with 3%nat. cbn [paymentLoop].
  rewrite H1, N1. cbn. by rewrite <- !app_assoc.
Qed.

(** C1: the run in which the first two payment attempts fail retryably
    and the third succeeds.  The loop makes its three attempts with
    sleeps of 1s and 2s in between, the third attempt succeeds, and the
    workflow then fails the order: no [ConfirmOrder] is executed,
    [FailOrder] and the compensation are, and the final status is
    [FAILED] with three payment attempts. *)
Theorem retried_payment_success_ends_FAILED :
  BookingWorkflow Scenario.retriedThenSucceeds Scenario.input4
  = let lastError :=
      "payment failed (attempt 2 of 3): payment validation failed: temporary gateway error" in
    let state :=
      {| orderID := "o4"; flightID := "f1"; seats := ["1A"; "1B"];
         status := OrderStatusFailed; expiresAt := 15 * Minute;
         paymentAttempts := 3; lastError := lastError |} in
    Completed state (toResult state) (Some Scenario.gatewayError)
      [ExecuteActivity orderCtx
         (a_CreateOrder "o4" "f1" "booking-o4" ["1A"; "1B"] (15 * Minute));
       ExecuteActivity seatCtx (a_ReserveSeats "o4" "f1" ["1A"; "1B"]);
       NewTimer (899 * Second);
       CancelTimer;
       ExecuteActivity orderCtx (a_UpdateOrderStatus "o4" OrderStatusPaymentProcessing);
       ExecuteActivity paymentCtx (a_ValidatePayment "o4" "12345");
       Sleep (1 * Second);
       ExecuteActivity paymentCtx (a_ValidatePayment "o4" "12345");
       Sleep (2 * Second);
       ExecuteActivity paymentCtx (a_ValidatePayment "o4" "12345");
       ExecuteActivity orderCtx (a_FailOrder "o4" lastError);
       ExecuteActivity
         (WithActivityOptions (NewDisconnectedContext rootContext) seatActivityOptions)
         (a_ReleaseSeats "o4" "f1" ["1A"; "1B"])].
Proof. vm_compute. reflexivity. Qed.

(** The same run with a first attempt that succeeds is confirmed. *)
Lemma paid_at_once_is_confirmed :
  BookingWorkflow Scenario.paidAtOnce Scenario.input4
  = let state :=
      {| orderID := "o4"; flightID := "f1"; seats := ["1A"; "1B"];
         status := OrderStatusConfirmed; expiresAt := 15 * Minute;
         paymentAttempts := 1; lastError := "" |} in
    Completed state (toResult state) None
      [ExecuteActivity orderCtx
         (a_CreateOrder "o4" "f1" "booking-o4" ["1A"; "1B"] (15 * Minute));
       ExecuteActivity seatCtx (a_ReserveSeats "o4" "f1" ["1A"; "1B"]);
       NewTimer (899 * Second);
       CancelTimer;
       ExecuteActivity orderCtx (a_UpdateOrderStatus "o4" OrderStatusPaymentProcessing);
       ExecuteActivity paymentCtx (a_ValidatePayment "o4" "12345");
       ExecuteActivity orderCtx (a_ConfirmOrder "o4" "f1" ["1A"; "1B"])].
Proof. vm_compute. reflexivity. Qed.

(** *** The payment signal *)

Lemma sliceTo_None (s : string) (hi : nat) :
  sliceTo s hi = None ↔ (String.length s < hi)%nat.
Proof.
  unfold sliceTo. destruct (hi <=? String.length s)%nat eqn:H.
  - apply Nat.leb_le in H. split; [done|lia].
  - apply Nat.leb_gt in H. by split.
Qed.

(** The callback panics exactly on the codes shorter than two bytes. *)
Lemma onPayment_panics_iff (st : bookingState) (paymentCode : string) :
  (onPayment st paymentCode).2 = sel_panic ↔ (String.length paymentCode < 2)%nat.
Proof.
  unfold onPayment. rewrite <- sliceTo_None.
  by destruct (sliceTo paymentCode 2).
Qed.

(** C10: a [proceed-to-payment] signal with the one-character code
    ["7"].  The slice expression of the log line is out of range and the
    callback panics: the workflow neither reaches the payment phase nor
    returns. *)
Theorem payment_signal_with_short_code_panics :
  sliceTo "7" 2 = None
  ∧ BookingWorkflow Scenario.shortCode Scenario.input4
    = Panicked
        {| orderID := "o4"; flightID := "f1"; seats := ["1A"; "1B"];
           status := OrderStatusSeatsReserved; expiresAt := 15 * Minute;
           paymentAttempts := 0; lastError := "" |}
        [ExecuteActivity orderCtx
           (a_CreateOrder "o4" "f1" "booking-o4" ["1A"; "1B"] (15 * Minute));
         ExecuteActivity seatCtx (a_ReserveSeats "o4" "f1" ["1A"; "1B"]);
         NewTimer (899 * Second)].
Proof. split; vm_compute; reflexivity. Qed.

(** *** The hold loop *)

Lemma holdLoop_app (l1 l2 : list (Time * HoldEvent)) :
  ∀ st tr,
    holdLoop (l1 ++ l2) st tr
    = match holdLoop l1 st tr with
      | HoldBlocked st' tr' => holdLoop l2 st' tr'
      | r => r
      end.
Proof.
  induction l1 as [|[now event] l1 IH]; intros st tr; [done|].
  cbn [app holdLoop].
  destruct (Sub (expiresAt st) now <=? 0); [done|].
  destruct (select st event) as [[st' cmds] selected].
  destruct selected; try done; case_bool_decide; try done; apply IH.
Qed.

Lemma select_frame (st : bookingState) (event : HoldEvent) :
  orderID (select st event).1.1 = orderID st
  ∧ flightID (select st event).1.1 = flightID st
  ∧ noRelease (select st event).1.2.
Proof.
  destruct event as [signal [err|] now|code| | |err]; cbn;
    try (repeat split; by repeat constructor).
  unfold onPayment. destruct (sliceTo code 2); repeat split; by repeat constructor.
Qed.

(** The loop keeps the order and the flight, releases nothing, and
    leaves through the expiry exit only with status [EXPIRED]. *)
Lemma holdLoop_frame (events : list (Time * HoldEvent)) :
  ∀ st tr,
    orderID (holdState (holdLoop events st tr)) = orderID st
    ∧ flightID (holdState (holdLoop events st tr)) = flightID st
    ∧ (∃ added, holdTrace (holdLoop events st tr) = tr ++ added ∧ noRelease added)
    ∧ (∀ s t, holdLoop events st tr = HoldExpired s t → status s = OrderStatusExpired).
Proof.
  induction events as [|[now event] events IH]; intros st tr; cbn [holdLoop].
  - repeat split; [|done]. exists []. split; [by rewrite app_nil_r | constructor].
  - destruct (Sub (expiresAt st) now <=? 0).
    { repeat split.
      - eexists. split; [done|]. by repeat constructor.
      - by intros s t [= <- _]. }
    pose proof (select_frame st event) as (Ho & Hf & Hsel).
    destruct (select st event) as [[st' cmds] selected]. cbn [fst snd] in *.
    assert (noRelease ([NewTimer (Sub (expiresAt st) now)] ++ cmds)) as Hstep.
    { apply noRelease_app. split; [by repeat constructor | done]. }
    assert (∀ r : HoldExit,
               orderID (holdState r) = orderID st'
               ∧ flightID (holdState r) = flightID st'
               ∧ (∃ added, holdTrace r
                           = ((tr ++ [NewTimer (Sub (expiresAt st) now)]) ++ cmds) ++ added
                           ∧ noRelease added)
               ∧ (∀ s t, r = HoldExpired s t → status s = OrderStatusExpired) →
               orderID (holdState r) = orderID st
               ∧ flightID (holdState r) = flightID st
               ∧ (∃ added, holdTrace r = tr ++ added ∧ noRelease added)
               ∧ (∀ s t, r = HoldExpired s t → status s = OrderStatusExpired)) as Hlift.
    { intros r (Hro & Hrf & (added & Htr & Hadd) & Hexp).
      split; [congruence|]. split; [congruence|]. split; [|done].
      exists (([NewTimer (Sub (expiresAt st) now)] ++ cmds) ++ added).
      split; [by rewrite Htr, <- !app_assoc|].
      apply noRelease_app. by split. }
    assert (∀ r : HoldExit,
               holdState r = st' →
               (∃ added, holdTrace r
                         = ((tr ++ [NewTimer (Sub (expiresAt st) now)]) ++ cmds) ++ added
                         ∧ noRelease added) →
               (∀ s t, r = HoldExpired s t → status s = OrderStatusExpired) →
               orderID (holdState r) = orderID st
               ∧ flightID (holdState r) = flightID st
               ∧ (∃ added, holdTrace r = tr ++ added ∧ noRelease added)
               ∧ (∀ s t, r = HoldExpired s t → status s = OrderStatusExpired)) as Hhere.
    { intros r Hst Htr Hexp. apply Hlift. by rewrite Hst. }
    assert (∃ added : list Command,
               ((tr ++ [NewTimer (Sub (expiresAt st) now)]) ++ cmds)
               = ((tr ++ [NewTimer (Sub (expiresAt st) now)]) ++ cmds) ++ added
               ∧ noRelease added) as Hnil.
    { exists []. split; [by rewrite app_nil_r | constructor]. }
    assert (∃ added : list Command,
               ((tr ++ [NewTimer (Sub (expiresAt st) now)]) ++ cmds)
                 ++ [ExecuteActivity orderCtx (a_ExpireOrder (orderID st'))]
               = ((tr ++ [NewTimer (Sub (expiresAt st) now)]) ++ cmds) ++ added
               ∧ noRelease added) as Hexpire.
    { eexists. split; [done|]. by repeat constructor. }
    destruct selected; try (by apply Hhere); case_bool_decide as Hstatus;
      try (apply Hhere; [done|done|]; first [by intros s t [= <- _] | done]).
    apply Hlift, IH.
Qed.

(** *** The exits of the workflow body *)

Lemma payAndConfirm_exit (h : History) (paymentSignal : string)
    (st : bookingState) (tr : list Command) :
  noRelease tr → exitShape st (payAndConfirm h paymentSignal st tr).
Proof.
  intros Htr. unfold payAndConfirm.
  destruct (paymentLoop _ _ _ _ _ _ _) as [[st' last'] tr'] eqn:Hloop.
  apply paymentLoop_frame in Hloop as (Ho & Hf & _ & _ & _ & added & -> & Hadd).
  cbn [orderID flightID set_status] in Ho, Hf.
  assert (noRelease ((tr ++ [ExecuteActivity orderCtx
                               (a_UpdateOrderStatus (orderID st)
                                  OrderStatusPaymentProcessing)]) ++ added)) as Hbase.
  { rewrite !noRelease_app. repeat split; try done. by repeat constructor. }
  destruct last' as [lastErr|].
  - cbn [exitShape]. case_bool_decide; cbn; (split; [|by eauto]);
      (apply noRelease_app; split; [done | by repeat constructor]).
  - destruct (confirmOrder h) as [err|]; cbn; (split; [|by eauto]).
    + rewrite !noRelease_app. repeat split; try done; by repeat constructor.
    + rewrite !noRelease_app. repeat split; try done; by repeat constructor.
Qed.

Lemma body_exit (h : History) (input : BookingWorkflowInput) (st0 : bookingState) :
  exitShape st0 (body h input st0).
Proof.
  unfold body, afterHold.
  destruct (createOrder h) as [err|].
  { cbn. split; [by repeat constructor|]. by eauto. }
  destruct (reserveSeats h) as [err|].
  { cbn. split; [by repeat constructor|]. by eauto. }
  match goal with
  | |- context [holdLoop ?events ?st ?tr] =>
      pose proof (holdLoop_frame events st tr) as (Ho & Hf & (added & Htr & Hadd) & Hexp);
      destruct (holdLoop events st tr) as [s t|s sig t|s t|s t|s t] eqn:Hloop
  end; cbn [holdState holdTrace] in *; try done.
  - cbn [exitShape]. subst t. split.
    + apply noRelease_app. split; [by repeat constructor | done].
    + split; [done|]. split; [done|]. right. split; [done|].
      by rewrite (Hexp s _ eq_refl).
  - subst t.
    match goal with
    | |- exitShape _ (payAndConfirm ?h ?sig ?s ?t) =>
        assert (noRelease t) as Ht
          by (apply noRelease_app; split; [by repeat constructor | done]);
        pose proof (payAndConfirm_exit h sig s t Ht) as Hpay;
        destruct (payAndConfirm h sig s t) as [st' res err' tr'| |]; [|done..]
    end.
    cbn [exitShape] in *. destruct Hpay as (? & ? & ? & ?).
    cbn [orderID flightID set_status set_expiresAt] in Ho, Hf.
    repeat split; try done; congruence.
  - cbn [exitShape]. subst t. split.
    + rewrite !noRelease_app. repeat split; try done; by repeat constructor.
    + split; [done|]. split; [done|]. right. by split.
Qed.

(** C4.  Whenever the workflow function returns: if the final status is
    not [CONFIRMED], the last thing it does is to execute [ReleaseSeats]
    for its order and flight on the final seat set, on a context
    disconnected from the workflow's cancellation and carrying the seat
    activity options, and nothing was released before; if the final
    status is [CONFIRMED], it returns without error and [ReleaseSeats]
    is never executed. *)
Theorem compensation_unless_confirmed (h : History) (input : BookingWorkflowInput)
    (state : bookingState) (result : BookingWorkflowResult) (err : option error)
    (trace : list Command) :
  BookingWorkflow h input = Completed state result err trace →
  let compensationCtx :=
    {| disconnected := true; activityOptions := Some seatActivityOptions |} in
  orderID state = in_OrderID input
  ∧ flightID state = in_FlightID input
  ∧ (status state ≠ OrderStatusConfirmed →
     ∃ before,
       trace = before ++ [ExecuteActivity compensationCtx
                            (a_ReleaseSeats (in_OrderID input) (in_FlightID input)
                               (seats state))]
       ∧ noRelease before)
  ∧ (status state = OrderStatusConfirmed → err = None ∧ noRelease trace).
Proof.
  unfold BookingWorkflow. change (SetQueryHandler QueryBookingStatus) with (@None error).
  cbv iota zeta.
  pose proof (body_exit h input (initialState input)) as Hexit.
  destruct (body h input (initialState input)) as [st res e tr|st tr|st tr]; [|done..].
  intros [= <- <- <- <-]. cbn [exitShape orderID flightID initialState] in Hexit.
  destruct Hexit as (Htr & Ho & Hf & Hcase).
  split; [done|]. split; [done|]. unfold deferred.
  destruct Hcase as [[-> Hst]|[He Hst]].
  - rewrite Hst. cbn. split; [done|]. intros _. split; [done|].
    by rewrite app_nil_r.
  - rewrite (bool_decide_eq_true_2 _ He). cbn [orb]. split; [|done].
    intros _. exists tr. rewrite Ho, Hf. split; [done|done].
Qed.

Lemma compensation_unless_confirmed_witness :
  ∃ before,
    traceOf (BookingWorkflow Scenario.userCancels Scenario.input4)
    = before ++ [ExecuteActivity
                   {| disconnected := true; activityOptions := Some seatActivityOptions |}
                   (a_ReleaseSeats "o4" "f1" ["1A"; "1B"])]
    ∧ noRelease before.
Proof.
  refine (proj1 (proj2 (proj2
            (compensation_unless_confirmed Scenario.userCancels Scenario.input4
               _ _ _ _ eq_refl))) _).
  vm_compute. discriminate.
Defined.

(** *** The deadline *)

(** Nothing after the hold loop touches the seats or the deadline. *)
Lemma afterHold_keeps (h : History) (r : HoldExit) :
  expiresAt (finalState (afterHold h r)) = expiresAt (holdState r)
  ∧ seats (finalState (afterHold h r)) = seats (holdState r).
Proof.
  destruct r as [s t|s sig t|s t|s t|s t];
    cbn [afterHold finalState holdState]; try done.
  unfold payAndConfirm.
  destruct (paymentLoop _ _ _ _ _ _ _) as [[st' last'] tr'] eqn:Hloop.
  apply paymentLoop_frame in Hloop as (_ & _ & Hs & _ & He & _).
  cbn [seats expiresAt set_status] in Hs, He.
  destruct last' as [lastErr|].
  - cbn [finalState]. by case_bool_decide.
  - by destruct (confirmOrder h).
Qed.

(** The deadline after the hold loop is the one it started with, or the
    one set by a seat change that was applied in between. *)
Lemma holdLoop_expiresAt (events : list (Time * HoldEvent)) :
  ∀ st tr,
    expiresAt (holdState (holdLoop events st tr)) = expiresAt st
    ∨ ∃ now signal now',
        (now, SeatUpdate signal None now') ∈ events
        ∧ expiresAt (holdState (holdLoop events st tr)) = Add now' holdDuration.
Proof.
  induction events as [|[now event] events IH]; intros st tr; cbn [holdLoop];
    [by left|].
  destruct (Sub (expiresAt st) now <=? 0); [by left|].
  destruct event as [signal [err|] now'|code| | |err]; cbn [select onSeatUpdate].
  - case_bool_decide; [by left|].
    destruct (IH (set_lastError (Error err) st)
                ((tr ++ [NewTimer (Sub (expiresAt st) now)])
                   ++ [ExecuteActivity seatCtx
                         (a_UpdateSeatSelection (orderID st) (flightID st)
                            (seats st) signal); CancelTimer]))
      as [->|(n & sg & n' & Hin & ->)]; [by left|].
    right. exists n, sg, n'. split; [by right | done].
  - match goal with
    | |- context [holdLoop events ?s ?t] =>
        destruct (IH s t) as [Heq|(n & sg & n' & Hin & Heq)]
    end.
    + right. exists now, signal, now'. split; [by left|].
      case_bool_decide; [done|]. by rewrite Heq.
    + case_bool_decide.
      * right. exists now, signal, now'. split; [by left | done].
      * right. exists n, sg, n'. split; [by right | done].
  - unfold onPayment. destruct (sliceTo code 2); [|by left].
    case_bool_decide; by left.
  - case_bool_decide; by left.
  - by left.
  - case_bool_decide; [by left|].
    match goal with
    | |- context [holdLoop events ?s ?t] =>
        destruct (IH s t) as [->|(n & sg & n' & Hin & ->)]
    end; [by left|].
    right. exists n, sg, n'. split; [by right | done].
Qed.

(** One more event on a run that is waiting: a seat change that comes
    before the deadline is handled by [onSeatUpdate], and the loop goes
    on waiting. *)
Lemma holdLoop_one_update (st : bookingState) (tr : list Command) (now : Time)
    (signal : list string) (updateErr : option error) (now' : Time) :
  0 < Sub (expiresAt st) now →
  ∃ t, holdLoop [(now, SeatUpdate signal updateErr now')] st tr
       = HoldBlocked (onSeatUpdate st signal updateErr now').1 t
       ∨ holdLoop [(now, SeatUpdate signal updateErr now')] st tr
         = HoldExpired (onSeatUpdate st signal updateErr now').1 t.
Proof.
  intros Htimer. cbn [holdLoop select].
  destruct (Sub (expiresAt st) now <=? 0) eqn:Hle; [apply Z.leb_le in Hle; lia|].
  destruct (onSeatUpdate st signal updateErr now') as [st' cmds]. cbn [fst].
  case_bool_decide; eexists; [by right | by left].
Qed.

(** Any other event leaves the deadline alone. *)
Lemma holdLoop_one_other (st : bookingState) (tr : list Command) (now : Time)
    (event : HoldEvent) :
  Sub (expiresAt st) now <= 0 ∨ (∀ signal now', event ≠ SeatUpdate signal None now') →
  expiresAt (holdState (holdLoop [(now, event)] st tr)) = expiresAt st.
Proof.
  intros Hother. cbn [holdLoop].
  destruct (Sub (expiresAt st) now <=? 0) eqn:Htimer; [done|].
  apply Z.leb_gt in Htimer. destruct Hother as [?|Hother]; [lia|].
  destruct event as [signal [err|] now'|code| | |err]; cbn [select onSeatUpdate].
  - by case_bool_decide.
  - by destruct (Hother signal now').
  - unfold onPayment. destruct (sliceTo code 2); [|done]. by case_bool_decide.
  - by case_bool_decide.
  - done.
  - by case_bool_decide.
Qed.

Lemma finalState_BookingWorkflow (h : History) (input : BookingWorkflowInput) :
  finalState (BookingWorkflow h input) = finalState (body h input (initialState input)).
Proof.
  unfold BookingWorkflow. change (SetQueryHandler QueryBookingStatus) with (@None error).
  cbv iota zeta. by destruct (body _ _ _).
Qed.

Lemma payAndConfirm_completes (h : History) (paymentSignal : string)
    (st : bookingState) (tr : list Command) :
  ∃ st' res err tr', payAndConfirm h paymentSignal st tr = Completed st' res err tr'.
Proof.
  unfold payAndConfirm. destruct (paymentLoop _ _ _ _ _ _ _) as [[st' last'] tr'].
  destruct last' as [lastErr|]; [by eauto|].
  destruct (confirmOrder h); by eauto.
Qed.

(** A run is waiting only inside the hold loop. *)
Lemma BookingWorkflow_blocked (h : History) (input : BookingWorkflowInput)
    (st : bookingState) (tr : list Command) :
  BookingWorkflow h input = Blocked st tr →
  createOrder h = None ∧ reserveSeats h = None
  ∧ holdLoop (hold h) (holdEntry h input).1 (holdEntry h input).2 = HoldBlocked st tr.
Proof.
  unfold BookingWorkflow. change (SetQueryHandler QueryBookingStatus) with (@None error).
  cbv iota zeta. unfold body, holdEntry. cbn [fst snd expiresAt set_expiresAt].
  destruct (createOrder h); [done|]. destruct (reserveSeats h); [done|].
  destruct (holdLoop _ _ _) as [s t|s sig t|s t|s t|s t]; cbn [afterHold]; try done.
  - destruct (payAndConfirm_completes h sig s t) as (? & ? & ? & ? & ->). done.
  - by intros [= <- <-].
Qed.

(** With a clock that does not go back, the reading taken when a seat
    change is applied is not before any earlier reading. *)
Lemma readings_before (h : History) (k : nat) (now : Time) (signal : list string)
    (updateErr : option error) (now' : Time) :
  Sorted Z.le (clockReadings h) →
  hold h !! k = Some (now, SeatUpdate signal updateErr now') →
  now0 h <= now'
  ∧ ∀ n sg e n', (n, SeatUpdate sg e n') ∈ take k (hold h) → n' <= now'.
Proof.
  intros Hsorted Hk. apply Sorted_StronglySorted in Hsorted; [|apply _].
  unfold clockReadings in Hsorted.
  rewrite <- (take_drop_middle _ _ _ Hk), bind_app in Hsorted.
  apply StronglySorted_cons in Hsorted as [Hfirst Hrest].
  assert (now' ∈ ((now, SeatUpdate signal updateErr now') :: drop (S k) (hold h))
                   ≫= eventReadings) as Hin.
  { apply list_elem_of_bind. eexists. split; [|by left]. cbn. by right; left. }
  split.
  - rewrite Forall_forall in Hfirst. apply Hfirst. apply elem_of_app. by right.
  - intros n sg e n' Hev.
    apply (StronglySorted_app_1_elem_of _ _ _ _ _ Hrest); [|done].
    apply list_elem_of_bind. eexists. split; [|done]. cbn. by right; left.
Qed.

(** The state after [n] events of the hold phase, when both activities
    of the reserve phase succeeded. *)
Lemma state_at_unfold (h : History) (input : BookingWorkflowInput) (n : nat) :
  createOrder h = None → reserveSeats h = None →
  finalState (BookingWorkflow (truncate h n) input)
  = finalState
      (afterHold (truncate h n)
         (holdLoop (take n (hold h)) (holdEntry h input).1 (holdEntry h input).2)).
Proof.
  intros Hc Hr. rewrite finalState_BookingWorkflow. unfold body.
  cbn [truncate createOrder reserveSeats hold now0 WorkflowExecutionID].
  by rewrite Hc, Hr.
Qed.

Lemma state_at_failed (h : History) (input : BookingWorkflowInput) (n m : nat) :
  createOrder h ≠ None ∨ reserveSeats h ≠ None →
  BookingWorkflow (truncate h n) input = BookingWorkflow (truncate h m) input.
Proof.
  intros Hfail. unfold BookingWorkflow, body.
  cbn [truncate createOrder reserveSeats hold now0 WorkflowExecutionID].
  destruct (createOrder h); [done|]. destruct (reserveSeats h); [done|].
  by destruct Hfail.
Qed.

(** C6.  A seat change that succeeds sets the seats to the payload and
    the deadline to now plus the hold duration and writes both to the
    order; one that fails records the error and keeps seats and
    deadline.  Every [update-seats] signal that a waiting run receives
    before its deadline is handled this way.  With an engine clock that
    never goes back, the deadline is the start plus the hold duration
    after the reservation, never decreases from one event to the next,
    and changes only when a seat change has been applied. *)
Theorem expiresAt_moves_only_on_seat_change (h : History)
    (input : BookingWorkflowInput) (k : nat) :
  Sorted Z.le (clockReadings h) →
  let state_at (n : nat) := finalState (BookingWorkflow (truncate h n) input) in
  (∀ st signal now',
     let r := onSeatUpdate st signal None now' in
     seats r.1 = signal
     ∧ expiresAt r.1 = Add now' holdDuration
     ∧ ExecuteActivity orderCtx
         (a_UpdateOrderSeats (orderID st) signal (Add now' holdDuration)) ∈ r.2
     ∧ lastError r.1 = lastError st)
  ∧ (∀ st signal err now',
       let r := onSeatUpdate st signal (Some err) now' in
       lastError r.1 = Error err
       ∧ seats r.1 = seats st
       ∧ expiresAt r.1 = expiresAt st
       ∧ ∀ o sg e, ExecuteActivity orderCtx (a_UpdateOrderSeats o sg e) ∉ r.2)
  ∧ (∀ st tr now signal updateErr now',
       BookingWorkflow (truncate h k) input = Blocked st tr →
       hold h !! k = Some (now, SeatUpdate signal updateErr now') →
       0 < Sub (expiresAt st) now →
       state_at (S k) = (onSeatUpdate st signal updateErr now').1)
  ∧ expiresAt (state_at 0%nat) = Add (now0 h) holdDuration
  ∧ expiresAt (state_at k) <= expiresAt (state_at (S k))
  ∧ (expiresAt (state_at k) ≠ expiresAt (state_at (S k)) →
     ∃ now signal now',
       hold h !! k = Some (now, SeatUpdate signal None now')
       ∧ state_at (S k) = (onSeatUpdate (state_at k) signal None now').1).
Proof.
  intros Hsorted state_at.
  split.
  { intros st signal now'. cbn. repeat split. apply elem_of_cons. right.
    apply elem_of_cons. by left. }
  split.
  { intros st signal err now'. cbn. repeat split.
    intros o sg e Hin. repeat (apply elem_of_cons in Hin as [Hin|Hin]; [done|]).
    by apply elem_of_nil in Hin. }
  (* the step from [k] to [S k] events *)
  assert (∀ st tr now signal updateErr now',
            holdLoop (take k (hold h)) (holdEntry h input).1 (holdEntry h input).2
            = HoldBlocked st tr →
            createOrder h = None → reserveSeats h = None →
            hold h !! k = Some (now, SeatUpdate signal updateErr now') →
            0 < Sub (expiresAt st) now →
            state_at (S k) = (onSeatUpdate st signal updateErr now').1) as Hstep.
  { intros st tr now signal updateErr now' Hblocked Hc Hr Hk Htimer.
    unfold state_at. rewrite state_at_unfold by done.
    rewrite (take_S_r _ _ _ Hk), holdLoop_app, Hblocked.
    destruct (holdLoop_one_update st tr now signal updateErr now' Htimer)
      as [t [-> | ->]]; done. }
  split.
  { intros st tr now signal updateErr now' Hblocked Hk Htimer.
    apply BookingWorkflow_blocked in Hblocked as (Hc & Hr & Hblocked).
    by apply (Hstep st tr now). }
  split.
  { unfold state_at. rewrite finalState_BookingWorkflow. unfold body.
    cbn [truncate createOrder reserveSeats hold now0 WorkflowExecutionID take].
    destruct (createOrder h); [done|]. by destruct (reserveSeats h). }
  destruct (createOrder h) as [err|] eqn:Hc.
  { unfold state_at. rewrite (state_at_failed h input (S k) k) by (left; congruence).
    split; [lia|done]. }
  destruct (reserveSeats h) as [err|] eqn:Hr.
  { unfold state_at. rewrite (state_at_failed h input (S k) k) by (right; congruence).
    split; [lia|done]. }
  assert (expiresAt (state_at k)
          = expiresAt (holdState (holdLoop (take k (hold h)) (holdEntry h input).1
                                    (holdEntry h input).2))) as Hk_state.
  { unfold state_at. rewrite state_at_unfold by done. apply afterHold_keeps. }
  assert (expiresAt (state_at (S k))
          = expiresAt (holdState (holdLoop (take (S k) (hold h)) (holdEntry h input).1
                                    (holdEntry h input).2))) as HSk_state.
  { unfold state_at. rewrite state_at_unfold by done. apply afterHold_keeps. }
  destruct (hold h !! k) as [[now event]|] eqn:Hk.
  2: { apply lookup_ge_None in Hk.
       rewrite HSk_state, Hk_state, !take_ge by lia. split; [lia|done]. }
  rewrite (take_S_r _ _ _ Hk), holdLoop_app in HSk_state.
  destruct (holdLoop (take k (hold h)) _ _) as [s t|s sig t|s t|s t|s t] eqn:Hloop;
    try (rewrite HSk_state, Hk_state; split; [lia|done]).
  cbn [holdState] in Hk_state.
  assert (state_at k = s) as Hstate.
  { unfold state_at. rewrite state_at_unfold by done. by rewrite Hloop. }
  assert ((0 < Sub (expiresAt s) now
           ∧ ∃ signal now', event = SeatUpdate signal None now')
          ∨ (Sub (expiresAt s) now <= 0
             ∨ ∀ signal now', event ≠ SeatUpdate signal None now'))
    as [[Htimer (signal & now' & ->)]|Hother].
  { destruct (Z.lt_ge_cases 0 (Sub (expiresAt s) now)); [|right; left; lia].
    destruct event as [signal [err|] now'|code| | |err];
      try (by right; right). left. by eauto. }
  - rewrite (Hstep s t now signal None now' eq_refl eq_refl eq_refl eq_refl Htimer).
    cbn [onSeatUpdate fst expiresAt set_expiresAt]. rewrite Hk_state. split.
    + destruct (readings_before h k now signal None now' Hsorted Hk) as [H0 Hprev].
      destruct (holdLoop_expiresAt (take k (hold h)) (holdEntry h input).1
                  (holdEntry h input).2) as [Heq|(n & sg & n' & Hin & Heq)];
        rewrite Hloop in Heq; cbn [holdState] in Heq; rewrite Heq.
      * cbn [holdEntry fst expiresAt set_status set_expiresAt]. unfold Add. lia.
      * specialize (Hprev n sg None n' Hin). unfold Add. lia.
    + intros _. exists now, signal, now'. split; [done|]. by rewrite Hstate.
  - rewrite HSk_state, Hk_state, holdLoop_one_other by done. split; [lia|done].
Qed.

Lemma expiresAt_moves_only_on_seat_change_witness :
  Sorted Z.le (clockReadings Scenario.seatChange)
  ∧ expiresAt (finalState (BookingWorkflow (truncate Scenario.seatChange 0)
                             Scenario.input4))
    <= expiresAt (finalState (BookingWorkflow (truncate Scenario.seatChange 1)
                                Scenario.input4)).
Proof.
  assert (Sorted Z.le (clockReadings Scenario.seatChange)) as Hclock.
  { vm_compute. repeat constructor; discriminate. }
  split; [exact Hclock|].
  exact (proj1 (proj2 (proj2 (proj2 (proj2
           (expiresAt_moves_only_on_seat_change Scenario.seatChange Scenario.input4
              0 Hclock)))))).
Defined.

End WorkflowSpec.

(** ** More on the lock store *)

Module LockStoreMore.
Import SeatLockRepo.

Lemma Milliseconds_pos (ttl : Z) : Millisecond <= ttl → 0 < Milliseconds ttl.
Proof.
  unfold Milliseconds, Millisecond. intros H.
  rewrite Z.quot_div_nonneg by lia.
  apply Z.div_str_pos. lia.
Qed.

Lemma compareAndExpire_lookup (s : gmap string LockEntry) (key owner : string)
    (ms : Z) (k : string) :
  0 < ms →
  compareAndExpire s key owner ms !! k
  = match s !! k with
    | Some e =>
        if bool_decide (k = key ∧ lock_owner e = owner)
        then Some {| lock_owner := lock_owner e; lock_ttl := ms * Millisecond |}
        else Some e
    | None => None
    end.
Proof.
  intros Hms. unfold compareAndExpire, GET, PEXPIRE.
  destruct (s !! key) as [e|] eqn:He; simpl.
  - destruct (decide (lock_owner e = owner)) as [Ho|Ho].
    + destruct (ms <=? 0) eqn:Hle; [apply Z.leb_le in Hle; lia|].
      destruct (decide (k = key)) as [->|Hk].
      * rewrite lookup_insert_eq, He. by rewrite bool_decide_eq_true_2.
      * rewrite lookup_insert_ne by done.
        destruct (s !! k); [|done]. rewrite bool_decide_eq_false_2; [done|].
        by intros [? _].
    + destruct (s !! k) as [e'|] eqn:He'; [|done].
      rewrite bool_decide_eq_false_2; [done|]. intros [-> ?]. congruence.
  - destruct (s !! k) as [e'|] eqn:He'; [|done].
    rewrite bool_decide_eq_false_2; [done|]. intros [-> ?]. congruence.
Qed.

Lemma ExtendLocks_lookup (flightID orderID : string) (ms : Z) (seatIDs : list string) :
  0 < ms →
  ∀ (s : gmap string LockEntry) (k : string),
    foldl (fun s seatID => compareAndExpire s (seatLockKey flightID seatID) orderID ms)
      s seatIDs !! k
    = match s !! k with
      | Some e =>
          if bool_decide (k ∈ map (seatLockKey flightID) seatIDs ∧ lock_owner e = orderID)
          then Some {| lock_owner := lock_owner e; lock_ttl := ms * Millisecond |}
          else Some e
      | None => None
      end.
Proof.
  intros Hms. induction seatIDs as [|x l IH]; intros s k; cbn [foldl map].
  - destruct (s !! k); [|done]. case_bool_decide as Hk; [|done].
    destruct Hk as [Hk _]. by apply elem_of_nil in Hk.
  - rewrite IH, compareAndExpire_lookup by done.
    destruct (s !! k) as [e|]; [|done].
    destruct (decide (k = seatLockKey flightID x ∧ lock_owner e = orderID))
      as [[-> Ho]|Hn].
    + rewrite (bool_decide_eq_true_2 (_ = _ ∧ _)) by done. cbn [lock_owner].
      rewrite (bool_decide_eq_true_2 (_ ∈ _ :: _ ∧ _));
        [|split; [apply elem_of_cons; by left | done]].
      by destruct (bool_decide _).
    + rewrite (bool_decide_eq_false_2 _ Hn).
      apply (f_equal (fun b : bool =>
               if b then Some {| lock_owner := lock_owner e;
                                 lock_ttl := ms * Millisecond |} else Some e)).
      apply bool_decide_ext. rewrite elem_of_cons. tauto.
Qed.

(** X1.  [ExtendLocks] with a time to live of at least a millisecond
    always succeeds and neither creates nor deletes an entry nor changes
    an owner: the entries of the listed seats that belong to the order get
    the new time to live, in whole milliseconds; entries of other orders,
    missing entries and all other keys stay as they are. *)
Theorem ExtendLocks_keeps_locks (s : gmap string LockEntry) (flightID : string)
    (seatIDs : list string) (orderID : string) (ttl : Z) :
  Millisecond <= ttl →
  let r := ExtendLocks s flightID seatIDs orderID ttl in
  r.1 = None
  ∧ (∀ key, lock_owner <$> r.2 !! key = lock_owner <$> s !! key)
  ∧ (∀ seatID e, seatID ∈ seatIDs →
       s !! seatLockKey flightID seatID = Some e → lock_owner e = orderID →
       r.2 !! seatLockKey flightID seatID
       = Some {| lock_owner := orderID;
                 lock_ttl := Milliseconds ttl * Millisecond |})
  ∧ (∀ key e, s !! key = Some e → lock_owner e ≠ orderID → r.2 !! key = Some e)
  ∧ (∀ key, (∀ seatID, seatID ∈ seatIDs → key ≠ seatLockKey flightID seatID) →
       r.2 !! key = s !! key).
Proof.
  intros Httl r. apply Milliseconds_pos in Httl.
  assert (∀ k, r.2 !! k
               = match s !! k with
                 | Some e =>
                     if bool_decide (k ∈ map (seatLockKey flightID) seatIDs
                                     ∧ lock_owner e = orderID)
                     then Some {| lock_owner := lock_owner e;
                                  lock_ttl := Milliseconds ttl * Millisecond |}
                     else Some e
                 | None => None
                 end) as Hlook.
  { intros k. unfold r, ExtendLocks. cbn [snd]. by apply ExtendLocks_lookup. }
  split; [done|]. split; [|split; [|split]].
  - intros key. rewrite Hlook. destruct (s !! key) as [e|]; [|done].
    by destruct (bool_decide _).
  - intros seatID e Hin He Ho. rewrite Hlook, He.
    rewrite bool_decide_eq_true_2; [congruence|]. split; [|done].
    apply list_elem_of_fmap. by exists seatID.
  - intros key e He Ho. rewrite Hlook, He.
    rewrite bool_decide_eq_false_2; [done|]. by intros [_ ?].
  - intros key Hkey. rewrite Hlook. destruct (s !! key) as [e|]; [|done].
    rewrite bool_decide_eq_false_2; [done|]. intros [Hin _].
    apply list_elem_of_fmap in Hin as (seatID & -> & Hin). by apply (Hkey seatID).
Qed.

Lemma ExtendLocks_keeps_locks_witness :
  (ExtendLocks (Activities.locks Scenario.counterAtZero) "f1" ["1A"] "o1" (16 * Minute)).1
  = None.
Proof.
  refine (proj1 (ExtendLocks_keeps_locks (Activities.locks Scenario.counterAtZero)
                   "f1" ["1A"] "o1" (16 * Minute) _)).
  vm_compute. discriminate.
Defined.

(** X2.  [ExtendLocks] with a time to live below a millisecond passes a
    time to live of 0 to [PEXPIRE], which deletes: it then does what
    [ReleaseLocks] does. *)
Theorem ExtendLocks_below_millisecond (s : gmap string LockEntry) (flightID : string)
    (seatIDs : list string) (orderID : string) (ttl : Z) :
  0 <= ttl < Millisecond →
  ExtendLocks s flightID seatIDs orderID ttl = ReleaseLocks s flightID seatIDs orderID.
Proof.
  intros Httl. unfold ExtendLocks, ReleaseLocks. f_equal.
  assert (Milliseconds ttl = 0) as ->.
  { unfold Milliseconds, Millisecond in *. apply Z.quot_small. lia. }
  revert s. induction seatIDs as [|x l IH]; intros s; cbn [foldl]; [done|].
  rewrite IH. f_equal. unfold compareAndExpire, compareAndDelete, PEXPIRE, GET.
  destruct (s !! seatLockKey flightID x) as [e|] eqn:He; simpl; [|done].
  by destruct (decide (lock_owner e = orderID)).
Qed.

Lemma ExtendLocks_below_millisecond_witness :
  ExtendLocks (Activities.locks Scenario.counterAtZero) "f1" ["1A"] "o1" 999999
  = ReleaseLocks (Activities.locks Scenario.counterAtZero) "f1" ["1A"] "o1".
Proof.
  apply ExtendLocks_below_millisecond. unfold Millisecond. lia.
Defined.

(** X3.  Mutual exclusion: once [LockSeats] has succeeded for an order,
    a [LockSeats] of any other order that asks for one of the same seats
    of the flight fails, whatever else it asks for, and leaves the store
    as it is. *)
Theorem LockSeats_excludes_other_orders (s s' : gmap string LockEntry)
    (flightID : string) (seatIDs seatIDs' : list string) (orderID orderID' : string)
    (ttl ttl' : Z) (seatID : string) :
  LockSeats s flightID seatIDs orderID ttl = (None, s') →
  orderID' ≠ orderID →
  seatID ∈ seatIDs → seatID ∈ seatIDs' →
  ∃ err, LockSeats s' flightID seatIDs' orderID' ttl' = (Some err, s').
Proof.
  unfold LockSeats. cbv zeta. intros Hlock Hne Hin Hin'.
  destruct (checkResults seatIDs _ orderID); [done|].
  injection Hlock as <-.
  destruct (checkResults seatIDs' _ orderID') as [err|] eqn:Hcheck; [by exists err|].
  exfalso. apply SeatLockRepoSpec.checkResults_None in Hcheck.
  rewrite Forall_forall in Hcheck. apply (Hcheck seatID Hin').
  exists {| lock_owner := orderID; lock_ttl := ttl |}. split; [|by cbn].
  by apply SeatLockRepoSpec.setAll_requested.
Qed.

Lemma LockSeats_excludes_other_orders_witness :
  ∃ err, LockSeats (LockSeats ∅ "f1" ["1A"; "1B"] "o1" (16 * Minute)).2
           "f1" ["2A"; "1B"] "o2" (16 * Minute)
         = (Some err, (LockSeats ∅ "f1" ["1A"; "1B"] "o1" (16 * Minute)).2).
Proof.
  apply (LockSeats_excludes_other_orders ∅ _ "f1" ["1A"; "1B"] ["2A"; "1B"]
           "o1" "o2" (16 * Minute) (16 * Minute) "1B").
  - reflexivity.
  - discriminate.
  - apply list_elem_of_In. simpl. tauto.
  - apply list_elem_of_In. simpl. tauto.
Defined.

(** X4.  Locking and then releasing the same seats for the same order
    leaves none of them locked and every other key as it was before the
    two calls; when none of the seats had an entry before, the store is
    back to what it was. *)
Theorem LockSeats_then_ReleaseLocks (s s' : gmap string LockEntry)
    (flightID : string) (seatIDs : list string) (orderID : string) (ttl : Z) :
  LockSeats s flightID seatIDs orderID ttl = (None, s') →
  let r := ReleaseLocks s' flightID seatIDs orderID in
  r.1 = None
  ∧ (∀ seatID, seatID ∈ seatIDs → r.2 !! seatLockKey flightID seatID = None)
  ∧ (∀ key, (∀ seatID, seatID ∈ seatIDs → key ≠ seatLockKey flightID seatID) →
       r.2 !! key = s !! key)
  ∧ ((∀ seatID, seatID ∈ seatIDs → s !! seatLockKey flightID seatID = None) →
     r.2 = s).
Proof.
  intros Hlock r. unfold LockSeats in Hlock. cbv zeta in Hlock.
  destruct (checkResults seatIDs _ orderID); [done|].
  injection Hlock as <-.
  assert (∀ seatID, seatID ∈ seatIDs → r.2 !! seatLockKey flightID seatID = None)
    as Hreq.
  { intros seatID Hin. unfold r. rewrite SeatLockRepoSpec.ReleaseLocks_lookup.
    rewrite (SeatLockRepoSpec.setAll_requested _ _ _ _ _ _ Hin).
    rewrite bool_decide_eq_true_2; [done|]. split; [|done].
    apply list_elem_of_fmap. by exists seatID. }
  assert (∀ key, (∀ seatID, seatID ∈ seatIDs → key ≠ seatLockKey flightID seatID) →
                 r.2 !! key = s !! key) as Hother.
  { intros key Hkey. unfold r. rewrite SeatLockRepoSpec.ReleaseLocks_lookup.
    rewrite SeatLockRepoSpec.setAll_other by done.
    destruct (s !! key) as [e|]; [|done].
    rewrite bool_decide_eq_false_2; [done|]. intros [Hin _].
    apply list_elem_of_fmap in Hin as (seatID & -> & Hin). by apply (Hkey seatID). }
  split; [done|]. split; [done|]. split; [done|].
  intros Hfree. apply map_eq. intros key.
  destruct (decide (key ∈ map (seatLockKey flightID) seatIDs)) as [Hin|Hnin].
  - apply list_elem_of_fmap in Hin as (seatID & -> & Hin).
    by rewrite Hreq, Hfree.
  - apply Hother. intros seatID Hin ->. apply Hnin.
    apply list_elem_of_fmap. by exists seatID.
Qed.

Lemma LockSeats_then_ReleaseLocks_witness :
  (ReleaseLocks (LockSeats ∅ "f1" ["1A"; "1B"] "o1" (16 * Minute)).2
     "f1" ["1A"; "1B"] "o1").1 = None.
Proof.
  refine (proj1 (LockSeats_then_ReleaseLocks ∅ _ "f1" ["1A"; "1B"] "o1"
                   (16 * Minute) _)).
  reflexivity.
Defined.

(** *** Listing the locks of a flight *)

Lemma append_cons (x : ascii) (a b : string) : String x a +:+ b = String x (a +:+ b).
Proof. reflexivity. Qed.

Lemma append_assoc (a b c : string) : (a +:+ b) +:+ c = a +:+ (b +:+ c).
Proof. induction a as [|x a IH]; [done|]. by rewrite !append_cons, IH. Qed.

Lemma length_append (p r : string) :
  String.length (p +:+ r) = (String.length p + String.length r)%nat.
Proof. induction p as [|x p IH]; [done|]. rewrite append_cons. cbn. by rewrite IH. Qed.

Lemma substring_all (r : string) : substring 0 (String.length r) r = r.
Proof. induction r as [|y r IH]; [done|]. cbn. by rewrite IH. Qed.

Lemma seatLockKey_prefix (flightID seatID : string) :
  seatLockKey flightID seatID = ("seat:lock:" +:+ flightID +:+ ":") +:+ seatID.
Proof. unfold seatLockKey. by rewrite !append_assoc. Qed.

Lemma prefix_append (p k : string) :
  String.prefix p k = true ↔ ∃ r, k = p +:+ r.
Proof.
  revert k. induction p as [|x p IH]; intros k.
  - destruct k; cbn; split; eauto.
  - destruct k as [|y k]; cbn [String.prefix].
    + split; [done|]. intros (r & Hr). by rewrite append_cons in Hr.
    + destruct (Ascii.ascii_dec x y) as [->|Hne].
      * rewrite IH. split; intros (r & Hr); exists r.
        -- rewrite append_cons. congruence.
        -- rewrite append_cons in Hr. congruence.
      * split; [done|]. intros (r & Hr). rewrite append_cons in Hr. congruence.
Qed.

Lemma sliceFrom_append (p r : string) :
  sliceFrom (p +:+ r) (String.length p) = Some r.
Proof.
  unfold sliceFrom. rewrite length_append.
  destruct (Nat.leb_spec (String.length p) (String.length p + String.length r));
    [|lia].
  f_equal. replace (String.length p + String.length r - String.length p)%nat
    with (String.length r) by lia.
  induction p as [|x p IH]; [apply substring_all|].
  rewrite append_cons. cbn. apply IH. lia.
Qed.

Section Listing.

Variable stringmatch : string → string → bool.
Variable flightID : string.

(** What the pattern matching of Redis does with the pattern of
    [GetLockedSeats] when the flight id holds none of the characters
    that mean something in a pattern: the keys that match are those that
    start with the text before the star. *)
Hypothesis stringmatch_prefix :
  ∀ key, stringmatch ("seat:lock:" +:+ flightID +:+ ":*") key
         = String.prefix ("seat:lock:" +:+ flightID +:+ ":") key.

Lemma collect_lookup (s : gmap string LockEntry) (p : string) (keys : list string) :
  (∀ key, key ∈ keys → String.prefix p key = true) →
  ∀ result : gmap string string,
    ∃ m, collect s (String.length p) keys result = Some m
         ∧ ∀ seatID, m !! seatID
                     = match GET s (p +:+ seatID) with
                       | Some v => if decide (p +:+ seatID ∈ keys) then Some v
                                   else result !! seatID
                       | None => result !! seatID
                       end.
Proof.
  induction keys as [|key keys IH]; intros Hkeys result; cbn [collect].
  - exists result. split; [done|]. intros seatID.
    destruct (GET s (p +:+ seatID)); [|done].
    destruct (decide _) as [Hin|]; [|done]. by apply elem_of_nil in Hin.
  - assert (String.prefix p key = true) as Hp by (apply Hkeys; left).
    apply prefix_append in Hp as (r & ->).
    assert (∀ key, key ∈ keys → String.prefix p key = true) as Hkeys'.
    { intros key Hin. apply Hkeys. by right. }
    destruct (GET s (p +:+ r)) as [v|] eqn:Hget.
    + rewrite sliceFrom_append.
      destruct (IH Hkeys' (<[r := v]> result)) as (m & -> & Hm).
      exists m. split; [done|]. intros seatID. rewrite Hm.
      destruct (decide (seatID = r)) as [->|Hne].
      * rewrite Hget, lookup_insert_eq.
        rewrite (decide_True (P := _ ∈ _ :: _)) by left.
        by destruct (decide _).
      * rewrite lookup_insert_ne by done.
        destruct (GET s (p +:+ seatID)); [|done].
        destruct (decide (p +:+ seatID ∈ keys)) as [Hin|Hnin].
        -- rewrite decide_True; [done | by right].
        -- rewrite decide_False; [done|]. intros Hin.
           apply elem_of_cons in Hin as [Heq|Hin]; [|done].
           apply String.app_inj in Heq. done.
    + destruct (IH Hkeys' result) as (m & -> & Hm).
      exists m. split; [done|]. intros seatID. rewrite Hm.
      destruct (GET s (p +:+ seatID)) as [v|] eqn:Hget'; [|done].
      destruct (decide (p +:+ seatID ∈ keys)) as [Hin|Hnin].
      -- rewrite decide_True; [done | by right].
      -- rewrite decide_False; [done|]. intros Hin.
         apply elem_of_cons in Hin as [Heq|Hin]; [|done].
         apply String.app_inj in Heq. congruence.
Qed.

Lemma GetLockedSeats_lookup (s : gmap string LockEntry) :
  ∃ m, GetLockedSeats stringmatch s flightID = Some m
       ∧ ∀ seatID, m !! seatID = GET s (seatLockKey flightID seatID).
Proof.
  unfold GetLockedSeats. cbv zeta.
  set (p := "seat:lock:" +:+ flightID +:+ ":").
  destruct (collect_lookup s p (KEYS stringmatch s ("seat:lock:" +:+ flightID +:+ ":*")))
    with (result := (∅ : gmap string string)) as (m & Hm & Hlook).
  { intros key Hin. unfold KEYS in Hin. apply list_elem_of_filter in Hin as [Hin _].
    by rewrite stringmatch_prefix in Hin. }
  exists m. split; [done|]. intros seatID. rewrite Hlook, seatLockKey_prefix. fold p.
  destruct (GET s (p +:+ seatID)) as [v|] eqn:Hget; [|done].
  rewrite decide_True; [done|].
  unfold KEYS. apply list_elem_of_filter. split.
  - rewrite stringmatch_prefix. apply prefix_append. by exists seatID.
  - apply SeatLockRepoSpec.GET_Some in Hget as (e & He & _).
    apply list_elem_of_fmap. exists (p +:+ seatID, e). split; [done|].
    by apply elem_of_map_to_list.
Qed.

End Listing.

(** X5.  With a matcher that takes the pattern of [GetLockedSeats] as a
    test for the text before its star (which is what Redis does when the
    flight id is free of pattern characters), [GetLockedSeats] never
    panics in its slice expression, and the map it returns holds, for
    every seat id, the owner of that seat's lock on this flight and
    nothing else: a seat without a lock is not in the map, and it is the
    same map in whatever order [KEYS] lists the keys. *)
Theorem GetLockedSeats_spec (stringmatch : string → string → bool)
    (flightID : string) (s : gmap string LockEntry) :
  (∀ key, stringmatch ("seat:lock:" +:+ flightID +:+ ":*") key
          = String.prefix ("seat:lock:" +:+ flightID +:+ ":") key) →
  ∃ m, GetLockedSeats stringmatch s flightID = Some m
       ∧ (∀ seatID, m !! seatID = lock_owner <$> s !! seatLockKey flightID seatID)
       ∧ (∀ seatID, seatID ∈ dom m ↔ is_Some (s !! seatLockKey flightID seatID)).
Proof.
  intros Hmatch.
  destruct (GetLockedSeats_lookup stringmatch flightID Hmatch s) as (m & Hm & Hlook).
  exists m. split; [done|]. split; [done|].
  intros seatID. rewrite elem_of_dom, Hlook. unfold GET.
  destruct (s !! seatLockKey flightID seatID); cbn; split; intros [? ?]; eauto; done.
Qed.

Lemma GetLockedSeats_spec_witness :
  ∃ m, GetLockedSeats literalStar (Activities.locks Scenario.counterAtZero) "f1" = Some m
       ∧ m !! "1A" = Some "o1".
Proof.
  destruct (GetLockedSeats_spec literalStar "f1"
              (Activities.locks Scenario.counterAtZero)) as (m & Hm & Hlook & _).
  - intros key. reflexivity.
  - exists m. split; [done|]. rewrite Hlook. reflexivity.
Defined.

End LockStoreMore.

(** ** The status machine of the domain *)

Module LifecycleSpec.
Import Lifecycle.

Lemma IsTerminal_terminal (o : Order) : IsTerminal o = terminal (Status o).
Proof. reflexivity. Qed.

Lemma CanTransitionTo_rank (o : Order) (s : OrderStatus) :
  CanTransitionTo o s = true →
  (statusRank (Status o) < statusRank s)%nat ∧ terminal (Status o) = false.
Proof.
  unfold CanTransitionTo. destruct (Status o), s; cbn; intros H; try done;
    split; (lia || done).
Qed.

(** The map literal, key by key. *)
Lemma validTransitions_lookup (status : string) :
  StatusString.validTransitions !! status
  = if decide (status = "CREATED") then Some ["SEATS_RESERVED"; "FAILED"]
    else if decide (status = "SEATS_RESERVED")
         then Some ["PAYMENT_PENDING"; "EXPIRED"; "FAILED"]
    else if decide (status = "PAYMENT_PENDING")
         then Some ["PAYMENT_PROCESSING"; "EXPIRED"; "FAILED"]
    else if decide (status = "PAYMENT_PROCESSING") then Some ["CONFIRMED"; "FAILED"]
    else None.
Proof.
  unfold StatusString.validTransitions. cbn [StatusString.statusString fmap list_fmap].
  rewrite !lookup_insert, lookup_singleton.
  repeat case_decide; subst; done.
Qed.

(** X6.  [IsTerminal] and [CanTransitionTo] on the status string of an
    order.  On the seven constants they are the functions of the typed
    embedding.  For an order whose status is one of the seven constants
    the two agree: the status is final exactly when no status at all can
    follow, and from every other one the order may fail.  For any other
    status, that of the zero [Order] included, the order is not terminal
    and yet nothing can follow.  Whatever the status, what can follow is
    one of the constants, and is neither the status itself nor
    [CREATED]. *)
Theorem CanTransitionTo_agrees_with_IsTerminal (status : string) :
  (∀ (o : Order) (s : OrderStatus),
     StatusString.IsTerminal (StatusString.statusString (Status o)) = IsTerminal o
     ∧ StatusString.CanTransitionTo (StatusString.statusString (Status o))
         (StatusString.statusString s)
       = CanTransitionTo o s)
  ∧ (status ∈ StatusString.constants →
     (StatusString.IsTerminal status = true
      ↔ ∀ target, StatusString.CanTransitionTo status target = false)
     ∧ (StatusString.IsTerminal status = false
        ↔ StatusString.CanTransitionTo status "FAILED" = true))
  ∧ (¬ (status ∈ StatusString.constants) →
     StatusString.IsTerminal status = false
     ∧ ∀ target, StatusString.CanTransitionTo status target = false)
  ∧ (∀ target, StatusString.CanTransitionTo status target = true →
       target ∈ StatusString.constants ∧ target ≠ status ∧ target ≠ "CREATED").
Proof.
  split; [|split; [|split]].
  - intros o s. split.
    + rewrite IsTerminal_terminal. by destruct (Status o).
    + unfold StatusString.CanTransitionTo, CanTransitionTo.
      rewrite validTransitions_lookup. by destruct (Status o), s.
  - intros Hin. unfold StatusString.CanTransitionTo.
    rewrite validTransitions_lookup.
    repeat (apply elem_of_cons in Hin as [->|Hin]); [..|by apply elem_of_nil in Hin];
      cbn; (split; [split; [try done; intros _ target; done|]|done]).
    all: intros H; try done; specialize (H "FAILED"); done.
  - intros Hnot. unfold StatusString.CanTransitionTo.
    rewrite validTransitions_lookup.
    assert (∀ s, status ≠ StatusString.statusString s) as Hne.
    { intros s ->. apply Hnot. destruct s; cbn; set_solver. }
    split.
    + unfold StatusString.IsTerminal.
      rewrite !bool_decide_eq_false_2; [done|apply Hne..].
    + intros target.
      rewrite !decide_False; [done|apply (Hne OrderStatusPaymentProcessing)
                                   |apply (Hne OrderStatusPaymentPending)
                                   |apply (Hne OrderStatusSeatsReserved)
                                   |apply (Hne OrderStatusCreated)].
  - intros target. unfold StatusString.CanTransitionTo.
    rewrite validTransitions_lookup.
    repeat (destruct (decide _) as [->|_]); [..|done]; cbn [existsb];
      rewrite ?orb_true_iff, ?bool_decide_eq_true;
      intros H; repeat (destruct H as [H|H]); try done; subst;
      (split; [cbn; set_solver|done]).
Qed.

Lemma legalPath_rank (path : list OrderStatus) :
  ∀ o, legalPath o path = true →
       (length path + statusRank (Status o) ≤ 4)%nat
       ∧ Forall (fun s => (statusRank (Status o) < statusRank s)%nat) path
       ∧ (∀ before s after, path = before ++ s :: after → terminal s = true →
            after = []).
Proof.
  induction path as [|s path IH]; intros o; cbn [legalPath].
  - intros _. split; [|split].
    + cbn. destruct (Status o); cbn; lia.
    + constructor.
    + intros before s after H. by destruct before.
  - intros H. apply andb_true_iff in H as [Hstep Hrest].
    apply CanTransitionTo_rank in Hstep as [Hlt _].
    destruct (IH _ Hrest) as (Hlen & Hall & Hterm). cbn [Status OrderRepo.set_status] in *.
    split; [|split].
    + cbn [length]. lia.
    + constructor; [done|]. eapply Forall_impl; [exact Hall|]. cbn. lia.
    + intros before s' after Heq Ht. destruct before as [|b before].
      * injection Heq as -> ->.
        assert (statusRank s' = 4%nat) as Hr by (by destruct s').
        destruct after; [done|]. cbn [length] in Hlen. lia.
      * injection Heq as <- Heq. by apply (Hterm before s' after).
Qed.

(** X7.  However [CanTransitionTo] is followed from an order, the run of
    status changes has at most four steps, never comes back to a status
    it has been in (the one it started from included), never enters
    [CREATED], and a final status ([CONFIRMED], [FAILED], [EXPIRED]) can
    only be its last step. *)
Theorem legal_status_runs_are_short (o : Order) (path : list OrderStatus) :
  legalPath o path = true →
  (length path ≤ 4)%nat
  ∧ NoDup (Status o :: path)
  ∧ ¬ (OrderStatusCreated ∈ path)
  ∧ (∀ before s after, path = before ++ s :: after → terminal s = true → after = []).
Proof.
  intros H. split; [|split; [|split]].
  - apply legalPath_rank in H as (Hlen & _). lia.
  - revert o H. induction path as [|s path IH]; intros o H.
    + apply NoDup_singleton.
    + pose proof (legalPath_rank _ _ H) as (_ & Hall & _).
      cbn [legalPath] in H. apply andb_true_iff in H as [_ Hrest].
      apply IH in Hrest. cbn [Status OrderRepo.set_status] in Hrest.
      apply NoDup_cons. split; [|done].
      intros Hin. rewrite Forall_forall in Hall. apply Hall in Hin. lia.
  - apply legalPath_rank in H as (_ & Hall & _). rewrite Forall_forall in Hall.
    intros Hin. apply Hall in Hin. cbn in Hin. lia.
  - by apply legalPath_rank in H as (_ & _ & Hterm).
Qed.

Lemma legal_status_runs_are_short_witness :
  (length [OrderStatusSeatsReserved; OrderStatusPaymentPending;
           OrderStatusPaymentProcessing; OrderStatusConfirmed] ≤ 4)%nat.
Proof.
  refine (proj1 (legal_status_runs_are_short (Scenario.order "o1" OrderStatusCreated)
                   [OrderStatusSeatsReserved; OrderStatusPaymentPending;
                    OrderStatusPaymentProcessing; OrderStatusConfirmed] _)).
  reflexivity.
Defined.

End LifecycleSpec.

(** ** Traces of the booking workflow *)

Module TracesSpec.
Import Workflow Traces.

Lemma projections_app (t1 t2 : list Command) :
  validations (t1 ++ t2) = validations t1 ++ validations t2
  ∧ sleeps (t1 ++ t2) = sleeps t1 ++ sleeps t2
  ∧ timers (t1 ++ t2) = timers t1 ++ timers t2
  ∧ closings (t1 ++ t2) = closings t1 ++ closings t2.
Proof. unfold validations, sleeps, timers, closings. by rewrite !omap_app. Qed.

Lemma validations_app (t1 t2 : list Command) :
  validations (t1 ++ t2) = validations t1 ++ validations t2.
Proof. apply projections_app. Qed.

Lemma sleeps_app (t1 t2 : list Command) : sleeps (t1 ++ t2) = sleeps t1 ++ sleeps t2.
Proof. apply projections_app. Qed.

Lemma timers_app (t1 t2 : list Command) : timers (t1 ++ t2) = timers t1 ++ timers t2.
Proof. apply projections_app. Qed.

Lemma closings_app (t1 t2 : list Command) :
  closings (t1 ++ t2) = closings t1 ++ closings t2.
Proof. apply projections_app. Qed.

(** One [Select] adds none of the commands looked at, and changes the
    status only when the timer fires. *)
Lemma select_shape (st : bookingState) (event : HoldEvent) :
  ∀ st' cmds sel,
    select st event = (st', cmds, sel) →
    orderID st' = orderID st ∧ paymentAttempts st' = paymentAttempts st
    ∧ validations cmds = [] ∧ sleeps cmds = [] ∧ closings cmds = [] ∧ timers cmds = []
    ∧ (status st' = status st
       ∨ (status st' = OrderStatusExpired
          ∧ lastError st' = "seat reservation expired" ∧ sel = sel_none)).
Proof.
  intros st' cmds sel.
  destruct event as [signal [err|] now|code| | |err]; cbn [select onSeatUpdate].
  - intros [= <- <- <-]. repeat split; auto.
  - intros [= <- <- <-]. repeat split; auto.
  - unfold onPayment. destruct (sliceTo code 2); intros [= <- <- <-]; repeat split; auto.
  - intros [= <- <- <-]. repeat split; auto.
  - intros [= <- <- <-]. repeat split; auto.
  - intros [= <- <- <-]. repeat split; auto.
Qed.

Lemma holdShape_step (st st' : bookingState) (tr tr' : list Command) (r : HoldExit) :
  orderID st' = orderID st → paymentAttempts st' = paymentAttempts st →
  status st' = status st →
  validations tr' = validations tr → sleeps tr' = sleeps tr →
  closings tr' = closings tr →
  (Forall (Z.lt 0) (timers tr) → Forall (Z.lt 0) (timers tr')) →
  holdShape st' tr' r → holdShape st tr r.
Proof.
  intros Ho Hp Hs Hv Hsl Hc Ht (Ho' & Hp' & Hv' & Hsl' & Ht' & Hr).
  unfold holdShape. rewrite <- Ho, <- Hp, <- Hv, <- Hsl, <- Hc, <- Hs.
  repeat (split; [done|]). split; [tauto|done].
Qed.

Lemma holdLoop_shape (events : list (Time * HoldEvent)) :
  ∀ st tr, status st ≠ OrderStatusExpired → holdShape st tr (holdLoop events st tr).
Proof.
  induction events as [|[now event] events IH]; intros st tr Hst; cbn [holdLoop].
  - by repeat split.
  - destruct (Sub (expiresAt st) now <=? 0) eqn:Hd.
    { unfold expire, holdShape. cbn [holdState holdTrace].
      rewrite validations_app, sleeps_app, timers_app, closings_app. cbn.
      rewrite !app_nil_r. by repeat split. }
    apply Z.leb_gt in Hd.
    destruct (select st event) as [[st' cmds] sel] eqn:Hsel.
    apply select_shape in Hsel as (Ho & Hp & Hv & Hs & Hc & Ht & Hstatus).
    set (tr' := (tr ++ [NewTimer (Sub (expiresAt st) now)]) ++ cmds).
    assert (validations tr' = validations tr) as Hv'.
    { unfold tr'. rewrite !validations_app, Hv. cbn. by rewrite !app_nil_r. }
    assert (sleeps tr' = sleeps tr) as Hs'.
    { unfold tr'. rewrite !sleeps_app, Hs. cbn. by rewrite !app_nil_r. }
    assert (closings tr' = closings tr) as Hc'.
    { unfold tr'. rewrite !closings_app, Hc. cbn. by rewrite !app_nil_r. }
    assert (Forall (Z.lt 0) (timers tr) → Forall (Z.lt 0) (timers tr')) as Ht'.
    { intros H. unfold tr'. rewrite !timers_app, Ht, app_nil_r. cbn.
      apply Forall_app. split; [done|]. by constructor. }
    assert (∀ r, status st' = status st → holdShape st' tr' r → holdShape st tr r)
      as Hlift.
    { intros r Heq. by apply holdShape_step. }
    assert (holdShape st tr (expire st' tr')
            ∨ status st' ≠ OrderStatusExpired) as Hexp.
    { destruct Hstatus as [Heq|(Hexp & Hlast & _)]; [right; congruence|].
      left. unfold expire, holdShape. cbn [holdState holdTrace].
      rewrite validations_app, sleeps_app, timers_app, closings_app. cbn.
      rewrite !app_nil_r, Ho, Hc'. by repeat split. }
    assert (status st' ≠ OrderStatusExpired → status st' = status st) as Hsame.
    { intros Hne. by destruct Hstatus as [?|[? _]]. }
    destruct sel.
    + case_bool_decide as Hb; [by destruct Hexp|].
      apply Hlift; [by apply Hsame|]. by apply IH.
    + case_bool_decide as Hb; [by destruct Hexp|].
      apply Hlift; [by apply Hsame|]. by repeat split.
    + case_bool_decide as Hb; [by destruct Hexp|].
      apply Hlift; [by apply Hsame|]. by repeat split.
    + destruct Hstatus as [Heq|(_ & _ & [=])].
      apply Hlift; [done|]. by repeat split.
Qed.

(** The retry loop entered at [attempt] with the iterations that are
    left up to [maxPaymentAttempts]: the counter ends at the last attempt
    made, every attempt is one [ValidatePayment] of the same code, and
    every attempt but the last is followed by a sleep of as many seconds
    as its number. *)
Lemma paymentLoop_shape (h : History) (code : string) (remaining : nat) :
  ∀ attempt st last tr st' last' tr',
    attempt + Z.of_nat remaining = maxPaymentAttempts + 1 →
    remaining ≠ 0%nat →
    paymentLoop h code remaining attempt st last tr = (st', last', tr') →
    attempt <= paymentAttempts st' <= maxPaymentAttempts
    ∧ validations tr'
      = validations tr
          ++ replicate (Z.to_nat (paymentAttempts st' - attempt + 1)) (orderID st, code)
    ∧ sleeps tr'
      = sleeps tr
          ++ ((fun attempt => Second * attempt)
                <$> seqZ attempt (paymentAttempts st' - attempt))
    ∧ timers tr' = timers tr
    ∧ closings tr' = closings tr.
Proof.
  induction remaining as [|remaining IH];
    intros attempt st last tr st' last' tr' Hsum Hpos Hrun; [done|].
  cbn [paymentLoop] in Hrun.
  assert (∀ (s : bookingState) (l : option error),
            paymentAttempts s = attempt →
            (s, l, tr ++ [ExecuteActivity paymentCtx (a_ValidatePayment (orderID st) code)])
            = (st', last', tr') →
            attempt <= paymentAttempts st' <= maxPaymentAttempts
            ∧ validations tr'
              = validations tr
                  ++ replicate (Z.to_nat (paymentAttempts st' - attempt + 1))
                       (orderID st, code)
            ∧ sleeps tr'
              = sleeps tr
                  ++ ((fun attempt => Second * attempt)
                        <$> seqZ attempt (paymentAttempts st' - attempt))
            ∧ timers tr' = timers tr
            ∧ closings tr' = closings tr) as Hstop.
  { intros s l Hs [= <- <- <-]. rewrite Hs.
    rewrite validations_app, sleeps_app, timers_app, closings_app.
    replace (attempt - attempt + 1) with 1 by lia.
    replace (attempt - attempt) with 0 by lia.
    cbn. rewrite !app_nil_r. unfold maxPaymentAttempts in *. repeat split; try done; lia. }
  cbn [orderID set_paymentAttempts] in Hrun.
  destruct (validatePayment h attempt) as [err|]; [|by apply Hstop in Hrun].
  destruct (nonRetryable err) as [appErr|]; [by apply Hstop in Hrun|].
  destruct (attempt <? maxPaymentAttempts) eqn:Hlt.
  - apply Z.ltb_lt in Hlt.
    apply IH in Hrun as (Hle & Hv & Hs & Ht & Hc);
      [|lia|unfold maxPaymentAttempts in *; lia].
    cbn [orderID set_lastError set_paymentAttempts] in Hv.
    rewrite !validations_app in Hv. rewrite !sleeps_app in Hs.
    rewrite !timers_app in Ht. rewrite !closings_app in Hc.
    cbn in Hv, Hs, Ht, Hc. rewrite !app_nil_r in Hv. rewrite !app_nil_r in Hs.
    rewrite !app_nil_r in Ht. rewrite !app_nil_r in Hc.
    split; [lia|]. split; [|split; [|done]].
    + rewrite Hv, <- (app_assoc (validations tr) [_] _). f_equal.
      replace (Z.to_nat (paymentAttempts st' - attempt + 1))
        with (S (Z.to_nat (paymentAttempts st' - (attempt + 1) + 1))) by lia.
      done.
    + rewrite Hs, <- (app_assoc (sleeps tr) [_] _). f_equal.
      rewrite (seqZ_cons attempt) by lia. cbn. do 3 f_equal; lia.
  - apply Z.ltb_ge in Hlt.
    assert (remaining = 0%nat) as -> by lia.
    cbn [paymentLoop] in Hrun. by apply Hstop in Hrun.
Qed.

(** The conjuncts of [runShape], one by one. *)
Ltac shape_done code :=
  repeat match goal with |- _ ∧ _ => split end;
  first [done | lia | congruence | by exists code].

(** The payment and confirm phases, entered from the hold loop. *)
Lemma payAndConfirm_shape (h : History) (input : BookingWorkflowInput)
    (paymentSignal : string) (st : bookingState) (tr : list Command) :
  createOrder h = None → reserveSeats h = None →
  orderID st = in_OrderID input →
  validations tr = [] → sleeps tr = [] → closings tr = [] →
  Forall (Z.lt 0) (timers tr) →
  runShape h input (payAndConfirm h paymentSignal st tr).
Proof.
  intros Hcreate Hreserve Ho Hv Hs Hc Ht. unfold payAndConfirm.
  destruct (paymentLoop _ _ _ _ _ _ _) as [[st' last'] tr'] eqn:Hloop.
  pose proof (WorkflowSpec.paymentLoop_frame _ _ _ _ _ _ _ _ _ _ Hloop)
    as (Ho' & _ & _ & Hst' & _ & _).
  apply paymentLoop_shape in Hloop as (Hle & Hv' & Hs' & Ht' & Hc'); [|done|done].
  cbn [orderID status set_status] in Ho', Hst', Hv'.
  rewrite validations_app in Hv'. rewrite sleeps_app in Hs'.
  rewrite timers_app in Ht'. rewrite closings_app in Hc'.
  cbn in Hv', Hs', Ht', Hc'. rewrite Hv in Hv'. rewrite Hs in Hs'. rewrite Hc in Hc'.
  rewrite !app_nil_r in Ht'. cbn in Hv', Hs', Hc'.
  replace (paymentAttempts st' - 1 + 1) with (paymentAttempts st') in Hv' by lia.
  rewrite Ho in Hv'.
  unfold runShape. rewrite Hcreate, Hreserve.
  assert (orderID st' = in_OrderID input) as Hid by congruence.
  destruct last' as [lastErr|].
  - cbn [finalState traceOf].
    rewrite validations_app, sleeps_app, timers_app, closings_app.
    cbn. rewrite !app_nil_r, Ht', Hc'.
    case_bool_decide;
      cbn [orderID paymentAttempts status lastError set_status set_lastError];
      rewrite ?Hid; shape_done paymentSignal.
  - destruct (confirmOrder h) as [err|]; cbn [finalState traceOf].
    + rewrite !validations_app, !sleeps_app, !timers_app, !closings_app.
      cbn. rewrite !app_nil_r, Ht', Hc'.
      cbn [orderID paymentAttempts status lastError set_status set_lastError].
      rewrite ?Hid. shape_done paymentSignal.
    + rewrite !validations_app, !sleeps_app, !timers_app, !closings_app.
      cbn. rewrite !app_nil_r, Ht', Hc'.
      cbn [orderID paymentAttempts status lastError set_status set_lastError].
      rewrite ?Hid. shape_done paymentSignal.
Qed.

Lemma afterHold_shape (h : History) (input : BookingWorkflowInput)
    (st : bookingState) (tr : list Command) :
  createOrder h = None → reserveSeats h = None →
  orderID st = in_OrderID input → paymentAttempts st = 0 →
  status st = OrderStatusSeatsReserved →
  validations tr = [] → sleeps tr = [] → closings tr = [] →
  Forall (Z.lt 0) (timers tr) →
  runShape h input (afterHold h (holdLoop (hold h) st tr)).
Proof.
  intros Hcreate Hreserve Ho Hp Hst Hv Hs Hc Ht.
  assert (status st ≠ OrderStatusExpired) as Hne by (by rewrite Hst).
  pose proof (holdLoop_shape (hold h) st tr Hne) as (Ho' & Hp' & Hv' & Hs' & Ht' & Hr).
  specialize (Ht' Ht). rewrite Ho in Ho'. rewrite Hp in Hp'.
  rewrite Hv in Hv'. rewrite Hs in Hs'. rewrite Hc, Ho in Hr.
  destruct (holdLoop (hold h) st tr) as [s t|s code t|s t|s t|s t];
    cbn [afterHold holdState holdTrace] in *.
  - destruct Hr as (Hexp & Hlast & Hclose).
    unfold runShape. cbn [finalState traceOf]. rewrite Hcreate, Hreserve, Hp', Hv', Hs', Hexp.
    shape_done "".
  - destruct Hr as [Hstatus Hclose]. by apply payAndConfirm_shape.
  - destruct Hr as [Hstatus Hclose].
    unfold runShape. cbn [finalState traceOf].
    rewrite validations_app, sleeps_app, timers_app, closings_app.
    cbn. rewrite !app_nil_r, Hcreate, Hreserve, Hp', Hv', Hs', Hclose, Ho'.
    shape_done "".
  - unfold runShape. cbn [finalState traceOf]. rewrite Hp', Hv', Hs'. shape_done "".
  - unfold runShape. cbn [finalState traceOf]. rewrite Hp', Hv', Hs'. shape_done "".
Qed.

Lemma body_shape (h : History) (input : BookingWorkflowInput) :
  runShape h input (body h input (initialState input)).
Proof.
  unfold body.
  destruct (createOrder h) as [err|] eqn:Hcreate.
  { unfold runShape. rewrite Hcreate. cbn. shape_done "". }
  destruct (reserveSeats h) as [err|] eqn:Hreserve.
  { unfold runShape. rewrite Hcreate, Hreserve. cbn. shape_done "". }
  by apply afterHold_shape.
Qed.

Lemma deferred_adds_nothing (ctx : Context) (st : bookingState) (err : option error)
    (tr : list Command) :
  validations (tr ++ deferred ctx st err) = validations tr
  ∧ sleeps (tr ++ deferred ctx st err) = sleeps tr
  ∧ timers (tr ++ deferred ctx st err) = timers tr
  ∧ closings (tr ++ deferred ctx st err) = closings tr.
Proof.
  rewrite validations_app, sleeps_app, timers_app, closings_app.
  unfold deferred. destruct (_ || _); cbn; by rewrite !app_nil_r.
Qed.

Lemma BookingWorkflow_shape (h : History) (input : BookingWorkflowInput) :
  runShape h input (BookingWorkflow h input).
Proof.
  unfold BookingWorkflow.
  change (SetQueryHandler QueryBookingStatus) with (@None error). cbv iota zeta.
  pose proof (body_shape h input) as Hbody.
  destruct (body h input (initialState input)) as [st res err tr|st tr|st tr];
    unfold runShape in *; cbn [finalState traceOf] in *.
  - destruct (deferred_adds_nothing rootContext st err tr) as (-> & -> & -> & ->).
    done.
  - done.
  - destruct (deferred_adds_nothing rootContext st None tr) as (-> & -> & -> & _).
    done.
Qed.

(** Under a clock that does not go back, no hold timer is longer than
    the hold. *)
Lemma holdLoop_timers (events : list (Time * HoldEvent)) :
  ∀ st tr t0,
    StronglySorted Z.le (t0 :: (events ≫= eventReadings)) →
    expiresAt st <= t0 + holdDuration →
    Forall (fun d => d <= holdDuration) (timers tr) →
    Forall (fun d => d <= holdDuration) (timers (holdTrace (holdLoop events st tr))).
Proof.
  induction events as [|[now event] events IH]; intros st tr t0 Hsorted Hexp Htr;
    cbn [holdLoop]; [done|].
  cbn [mbind list_bind eventReadings fst snd] in Hsorted.
  apply StronglySorted_inv in Hsorted as [Hrest Hall].
  unfold eventReadings in Hall, Hrest. cbn [fst snd] in Hall, Hrest.
  rewrite <- app_comm_cons in Hall. rewrite <- app_comm_cons in Hrest.
  apply Forall_cons in Hall as [Hnow Hall].
  destruct (Sub (expiresAt st) now <=? 0).
  { unfold expire. cbn [holdTrace]. rewrite timers_app. cbn. by rewrite app_nil_r. }
  assert (Sub (expiresAt st) now <= holdDuration) as Hd.
  { unfold Sub, minDuration, maxDuration, holdDuration, Minute, Second in *. lia. }
  assert (Forall (fun d => d <= holdDuration)
            (timers (tr ++ [NewTimer (Sub (expiresAt st) now)]))) as Htr1.
  { rewrite timers_app. apply Forall_app. split; [done|]. by repeat constructor. }
  assert (StronglySorted Z.le (t0 :: (events ≫= eventReadings))) as Hkeep.
  { apply StronglySorted_inv in Hrest as [Hrest' _]. constructor.
    - destruct event; cbn [app] in Hrest'; try done.
      by apply StronglySorted_inv in Hrest' as [? _].
    - destruct event; cbn [app] in Hall; try done.
      by apply Forall_cons in Hall as [_ ?]. }
  assert (∀ (s : bookingState) (cmds : list Command) (b : bool),
            expiresAt s = expiresAt st → timers cmds = [] →
            Forall (fun d => d <= holdDuration)
              (timers (holdTrace
                 (if b
                  then expire s ((tr ++ [NewTimer (Sub (expiresAt st) now)]) ++ cmds)
                  else holdLoop events s
                         ((tr ++ [NewTimer (Sub (expiresAt st) now)]) ++ cmds)))))
    as Hgo.
  { intros s cmds b He Hcmds. destruct b.
    - unfold expire. cbn [holdTrace]. rewrite !timers_app, Hcmds in *. cbn.
      by rewrite !app_nil_r.
    - apply (IH _ _ t0); [done|by rewrite He|].
      rewrite timers_app, Hcmds, app_nil_r. done. }
  assert (∀ (r : HoldExit) (cmds : list Command),
            holdTrace r = (tr ++ [NewTimer (Sub (expiresAt st) now)]) ++ cmds →
            timers cmds = [] →
            Forall (fun d => d <= holdDuration) (timers (holdTrace r))) as Hstop.
  { intros r cmds -> Hcmds. by rewrite timers_app, Hcmds, app_nil_r. }
  destruct event as [signal [err|] now'|code| | |err]; cbn [select onSeatUpdate].
  - by apply Hgo.
  - cbn [app] in Hrest.
    apply StronglySorted_inv in Hrest as [Hrest' _].
    case_bool_decide.
    + unfold expire. cbn [holdTrace]. rewrite !timers_app in *. cbn.
      by rewrite !app_nil_r.
    + apply (IH _ _ now'); [done|cbn; unfold Add; lia|].
      rewrite timers_app. cbn. by rewrite app_nil_r.
  - unfold onPayment. destruct (sliceTo code 2).
    + case_bool_decide; [by apply (Hgo _ _ true)|]. by eapply Hstop.
    + eapply Hstop; [reflexivity|done].
  - case_bool_decide; [by apply (Hgo _ _ true)|]. by eapply Hstop.
  - by apply (Hgo _ _ true).
  - case_bool_decide; [by apply (Hgo _ _ true)|].
    apply (Hgo _ _ false); done.
Qed.

(** X8.  Whenever the workflow function returns, the result it returns
    is read off its final state (order, status, seats and last error),
    and the final status is [CONFIRMED], [FAILED] or [EXPIRED]; it is
    [CONFIRMED] exactly when no error is returned, and when it is
    [EXPIRED] the error returned is the reservation-expired error and the
    last error says so. *)
Theorem BookingWorkflow_returns_final_status (h : History)
    (input : BookingWorkflowInput) (state : bookingState)
    (result : BookingWorkflowResult) (err : option error) (trace : list Command) :
  BookingWorkflow h input = Completed state result err trace →
  result = toResult state
  ∧ (status state = OrderStatusConfirmed ∨ status state = OrderStatusFailed
     ∨ status state = OrderStatusExpired)
  ∧ (status state = OrderStatusConfirmed ↔ err = None)
  ∧ (status state = OrderStatusExpired →
     err = Some ErrReservationExpired
     ∧ res_Error result = "seat reservation expired").
Proof.
  intros Hrun.
  pose proof (BookingWorkflow_shape h input) as Hshape.
  pose proof (WorkflowSpec.body_exit h input (initialState input)) as Hexit.
  rewrite Hrun in Hshape. destruct Hshape as (_ & _ & _ & _ & _ & Hres & Hterm & Hexp & _).
  assert ((err = None ∧ status state = OrderStatusConfirmed)
          ∨ (err ≠ None ∧ status state ≠ OrderStatusConfirmed)) as Hcase.
  { unfold BookingWorkflow in Hrun.
    change (SetQueryHandler QueryBookingStatus) with (@None error) in Hrun.
    cbv iota zeta in Hrun.
    destruct (body h input (initialState input)) as [st res e tr|st tr|st tr];
      [|done..].
    injection Hrun as <- <- <- <-. by destruct Hexit as (_ & _ & _ & ?). }
  split; [done|]. split; [|split].
  - unfold Lifecycle.terminal in Hterm. destruct (status state); auto; done.
  - destruct Hcase as [[-> ->]|[? ?]]; [done|]. split; intros; done.
  - intros Hst. destruct (Hexp Hst) as [-> Hlast]. split; [done|].
    by rewrite Hres.
Qed.

Lemma BookingWorkflow_returns_final_status_witness :
  ∃ state result,
    result = toResult state
    ∧ res_Status result = Some OrderStatusFailed
    ∧ res_Error result = "booking canceled by user".
Proof.
  pose proof (BookingWorkflow_returns_final_status Scenario.userCancels Scenario.input4
                _ _ _ _ eq_refl) as (Hres & _).
  eexists _, _. split; [exact Hres|]. split; reflexivity.
Defined.

(** X9.  In a run that has returned, and in one that waits or has
    panicked in the hold phase, the attempt counter that the status query
    reports is the number of [ValidatePayment] executions, between 0 and
    3, all of them for this order and one payment code; and the workflow
    has slept exactly between attempts: for one second after the first
    attempt and two after the second, never after the last.  (A run that
    is in the middle of the payment phase is no outcome of
    [BookingWorkflow] here, and the statement does not speak of it.) *)
Theorem payment_attempts_are_the_validations (h : History)
    (input : BookingWorkflowInput) :
  let o := BookingWorkflow h input in
  0 <= paymentAttempts (finalState o) <= 3
  ∧ (∃ code, validations (traceOf o)
             = replicate (Z.to_nat (paymentAttempts (finalState o)))
                 (in_OrderID input, code))
  ∧ sleeps (traceOf o)
    = (fun attempt => Second * attempt) <$> seqZ 1 (paymentAttempts (finalState o) - 1).
Proof.
  intros o. by destruct (BookingWorkflow_shape h input) as (_ & ? & ? & ? & _).
Qed.

(** X10.  With an engine clock that never goes back, every hold timer
    the workflow starts runs for more than nothing and for at most the
    hold of 15 minutes. *)
Theorem hold_timers_within_the_hold (h : History) (input : BookingWorkflowInput) :
  Sorted Z.le (clockReadings h) →
  Forall (fun d => 0 < d <= holdDuration) (timers (traceOf (BookingWorkflow h input))).
Proof.
  intros Hclock.
  destruct (BookingWorkflow_shape h input) as (_ & _ & _ & _ & Hpos & _).
  assert (Forall (fun d => d <= holdDuration)
            (timers (traceOf (BookingWorkflow h input)))) as Hle.
  { apply Sorted_StronglySorted in Hclock; [|intros x y z; lia].
    unfold BookingWorkflow.
    change (SetQueryHandler QueryBookingStatus) with (@None error). cbv iota zeta.
    assert (Forall (fun d => d <= holdDuration)
              (timers (traceOf (body h input (initialState input))))) as Hbody.
    { unfold body. destruct (createOrder h); [by cbn|].
      destruct (reserveSeats h); [by cbn|].
      match goal with
      | |- context [holdLoop (hold h) ?st ?tr] =>
          pose proof (holdLoop_timers (hold h) st tr (now0 h) Hclock) as Hhold;
          destruct (holdLoop (hold h) st tr) as [s t|s code t|s t|s t|s t]
      end; cbn [afterHold traceOf holdTrace] in *;
        try (apply Hhold; [cbn; unfold Add; lia | by cbn]).
      - unfold payAndConfirm.
        destruct (paymentLoop _ _ _ _ _ _ _) as [[st' last'] tr'] eqn:Hloop.
        apply paymentLoop_shape in Hloop as (_ & _ & _ & Ht & _); [|done|done].
        rewrite timers_app in Ht. cbn in Ht. rewrite app_nil_r in Ht.
        assert (Forall (fun d => d <= holdDuration) (timers tr')) as Htr'.
        { rewrite Ht. apply Hhold; [cbn; unfold Add; lia | by cbn]. }
        destruct last' as [lastErr|]; [|destruct (confirmOrder h)];
          cbn [traceOf]; rewrite ?timers_app; cbn; by rewrite ?app_nil_r.
      - rewrite timers_app. cbn. rewrite app_nil_r.
        apply Hhold; [cbn; unfold Add; lia | by cbn]. }
    destruct (body h input (initialState input)) as [st res err tr|st tr|st tr];
      cbn [traceOf] in *; [|done|].
    - by destruct (deferred_adds_nothing rootContext st err tr) as (_ & _ & -> & _).
    - by destruct (deferred_adds_nothing rootContext st None tr) as (_ & _ & -> & _). }
  rewrite Forall_forall in Hpos, Hle. apply Forall_forall. intros d Hd.
  split; [by apply Hpos | by apply Hle].
Qed.

Lemma hold_timers_within_the_hold_witness :
  timers (traceOf (BookingWorkflow Scenario.seatChange Scenario.input4))
  = [Minute; 13 * Minute + Second]
  ∧ Forall (fun d => 0 < d <= holdDuration)
      (timers (traceOf (BookingWorkflow Scenario.seatChange Scenario.input4))).
Proof.
  split; [vm_compute; reflexivity|].
  apply hold_timers_within_the_hold.
  vm_compute. repeat constructor; discriminate.
Defined.

(** X11.  The [FailOrder] and [ExpireOrder] activities of a run that
    returns, by the status it returns with: an expired hold executes one
    [ExpireOrder] and no [FailOrder]; a failure after the seats were
    reserved executes one [FailOrder], whose reason is the final last
    error, and no [ExpireOrder]; a confirmed order executes neither.
    When [CreateOrder] or [ReserveSeats] fails the workflow returns
    [FAILED] without executing either.  ([ConfirmOrder] is not counted:
    a [FailOrder] can follow a [ConfirmOrder] that failed.) *)
Theorem FailOrder_or_ExpireOrder_by_final_status (h : History) (input : BookingWorkflowInput)
    (state : bookingState) (result : BookingWorkflowResult) (err : option error)
    (trace : list Command) :
  BookingWorkflow h input = Completed state result err trace →
  closings trace
  = match createOrder h, reserveSeats h with
    | None, None =>
        match status state with
        | OrderStatusConfirmed => []
        | OrderStatusExpired => [a_ExpireOrder (in_OrderID input)]
        | _ => [a_FailOrder (in_OrderID input) (lastError state)]
        end
    | _, _ => []
    end.
Proof.
  intros Hrun. pose proof (BookingWorkflow_shape h input) as Hshape.
  rewrite Hrun in Hshape. by destruct Hshape as (_ & _ & _ & _ & _ & _ & _ & _ & ?).
Qed.

Lemma FailOrder_or_ExpireOrder_by_final_status_witness :
  closings (traceOf (BookingWorkflow Scenario.retriedThenSucceeds Scenario.input4))
  = [a_FailOrder "o4"
       "payment failed (attempt 2 of 3): payment validation failed: temporary gateway error"].
Proof.
  exact (FailOrder_or_ExpireOrder_by_final_status Scenario.retriedThenSucceeds
           Scenario.input4 _ _ _ _ eq_refl).
Defined.

End TracesSpec.

(** ** The seat and order activities *)

Module ActivitiesSpec.
Import SeatLockRepo Activities.

Lemma seatLockKey_inj (flightID a b : string) :
  seatLockKey flightID a = seatLockKey flightID b → a = b.
Proof.
  rewrite !LockStoreMore.seatLockKey_prefix. apply String.app_inj.
Qed.

(** The store after locking seats and releasing them again. *)
Lemma lock_release_lookup (s : gmap string LockEntry) (flightID : string)
    (seatIDs : list string) (orderID : string) (ttl : Z) (key : string) :
  (ReleaseLocks (setAll s flightID seatIDs orderID ttl) flightID seatIDs orderID).2 !! key
  = if decide (key ∈ map (seatLockKey flightID) seatIDs) then None else s !! key.
Proof.
  rewrite SeatLockRepoSpec.ReleaseLocks_lookup.
  destruct (decide (key ∈ map (seatLockKey flightID) seatIDs)) as [Hin|Hnin].
  - pose proof Hin as Hin'. apply list_elem_of_fmap in Hin' as (seatID & -> & Hin').
    rewrite (SeatLockRepoSpec.setAll_requested _ _ _ _ _ _ Hin').
    by rewrite bool_decide_eq_true_2.
  - rewrite SeatLockRepoSpec.setAll_other.
    + destruct (s !! key); [|done]. rewrite bool_decide_eq_false_2; [done|].
      by intros [? _].
    + intros seatID Hin ->. apply Hnin. apply list_elem_of_fmap. by exists seatID.
Qed.

Lemma LockSeats_cases (s : gmap string LockEntry) (flightID : string)
    (seatIDs : list string) (orderID : string) (ttl : Z) :
  (¬ Forall (fun seatID => ¬ foreignLock s flightID orderID seatID) seatIDs
   ∧ ∃ err, LockSeats s flightID seatIDs orderID ttl = (Some err, s))
  ∨ (Forall (fun seatID => ¬ foreignLock s flightID orderID seatID) seatIDs
     ∧ LockSeats s flightID seatIDs orderID ttl
       = (None, setAll s flightID seatIDs orderID ttl)).
Proof.
  unfold LockSeats. cbv zeta.
  pose proof (SeatLockRepoSpec.checkResults_None flightID orderID s seatIDs) as Hcheck.
  destruct (checkResults _ _ _) as [err|].
  - left. split; [|by exists err]. intros HF. by apply Hcheck in HF.
  - right. split; [by apply Hcheck | done].
Qed.

Lemma ReserveSeats_cases (T : Duration)
    (MarkSeatsReserved : DB → string → list string → string → option error * DB)
    (w : World) (orderID flightID : string) (seatIDs : list string) :
  let r := ReserveSeats T MarkSeatsReserved w orderID flightID seatIDs in
  (¬ Forall (fun seatID => ¬ foreignLock (locks w) flightID orderID seatID) seatIDs
   ∧ r.1 ≠ None ∧ r.2 = w)
  ∨ (Forall (fun seatID => ¬ foreignLock (locks w) flightID orderID seatID) seatIDs
     ∧ r.1 = None
     ∧ locks r.2 = setAll (locks w) flightID seatIDs orderID (lockTTL T)
     ∧ MarkSeatsReserved (db w) flightID seatIDs orderID = (None, db r.2))
  ∨ (Forall (fun seatID => ¬ foreignLock (locks w) flightID orderID seatID) seatIDs
     ∧ r.1 ≠ None
     ∧ (MarkSeatsReserved (db w) flightID seatIDs orderID).1 ≠ None
     ∧ db r.2 = (MarkSeatsReserved (db w) flightID seatIDs orderID).2
     ∧ locks r.2
       = (ReleaseLocks (setAll (locks w) flightID seatIDs orderID (lockTTL T))
            flightID seatIDs orderID).2).
Proof.
  intros r. unfold r, ReserveSeats. cbv zeta.
  destruct (LockSeats_cases (locks w) flightID seatIDs orderID (lockTTL T))
    as [[Hex [err ->]]|[HF ->]].
  - left. split; [done|]. split; [done|]. by destruct w.
  - right. destruct (MarkSeatsReserved (db w) flightID seatIDs orderID) as [[err|] db1].
    + right. by repeat split.
    + left. by repeat split.
Qed.

Lemma foreign_key_not_requested (s : gmap string LockEntry) (flightID orderID : string)
    (seatIDs : list string) (key : string) (e : LockEntry) :
  Forall (fun seatID => ¬ foreignLock s flightID orderID seatID) seatIDs →
  s !! key = Some e → lock_owner e ≠ orderID →
  ∀ seatID, seatID ∈ seatIDs → key ≠ seatLockKey flightID seatID.
Proof.
  intros HF He Ho seatID Hin ->. rewrite Forall_forall in HF.
  apply (HF seatID Hin). by exists e.
Qed.

(** X12.  [ReserveSeats] is all or nothing on the lock store.  When it
    succeeds every requested seat is locked for the order, and the seat
    rows are as [MarkSeatsReserved] left them; the locks have the
    configured timeout plus a minute as their time to live when that is
    a positive whole number of milliseconds.  When it fails no lock is there that
    was not there before; when it fails because a requested seat is held
    by another order, both stores are as they were and the seat rows have
    not been asked for.  The locks of other orders are never touched. *)
Theorem ReserveSeats_all_or_nothing (T : Duration)
    (MarkSeatsReserved : DB → string → list string → string → option error * DB)
    (w : World) (orderID flightID : string) (seatIDs : list string) :
  let r := ReserveSeats T MarkSeatsReserved w orderID flightID seatIDs in
  (r.1 = None →
   (∀ seatID, seatID ∈ seatIDs →
      GET (locks r.2) (seatLockKey flightID seatID) = Some orderID)
   ∧ (wholeMilliseconds (wrap64 (T + Minute)) →
      ∀ seatID, seatID ∈ seatIDs →
        locks r.2 !! seatLockKey flightID seatID
        = Some {| lock_owner := orderID; lock_ttl := wrap64 (T + Minute) |})
   ∧ MarkSeatsReserved (db w) flightID seatIDs orderID = (None, db r.2))
  ∧ (r.1 ≠ None → ∀ key e, locks r.2 !! key = Some e → locks w !! key = Some e)
  ∧ (Exists (foreignLock (locks w) flightID orderID) seatIDs → r.1 ≠ None ∧ r.2 = w)
  ∧ (∀ key e, locks w !! key = Some e → lock_owner e ≠ orderID →
       locks r.2 !! key = Some e).
Proof.
  intros r.
  destruct (ReserveSeats_cases T MarkSeatsReserved w orderID flightID seatIDs)
    as [(Hex & Herr & Hw)|[(HF & Hok & Hlocks & Hdb)|(HF & Herr & _ & _ & Hlocks)]];
    fold r in Herr || fold r in Hok; try fold r in Hw; try fold r in Hlocks;
    try fold r in Hdb.
  - split; [done|]. split; [by rewrite Hw|]. split; [done|]. by rewrite Hw.
  - split; [|split; [done|split]].
    + intros _. split; [|split; [|done]].
      * intros seatID Hin. unfold GET. rewrite Hlocks.
        by rewrite SeatLockRepoSpec.setAll_requested.
      * intros _ seatID Hin. rewrite Hlocks.
        by apply SeatLockRepoSpec.setAll_requested.
    + intros Hex. by apply Forall_Exists_neg in HF.
    + intros key e He Ho. rewrite Hlocks, SeatLockRepoSpec.setAll_other; [done|].
      by eapply foreign_key_not_requested.
  - split; [done|]. split; [|split].
    + intros _ key e. rewrite Hlocks, lock_release_lookup. by destruct (decide _).
    + intros Hex. by apply Forall_Exists_neg in HF.
    + intros key e He Ho. rewrite Hlocks, lock_release_lookup.
      rewrite decide_False; [done|]. intros Hin.
      apply list_elem_of_fmap in Hin as (seatID & -> & Hin).
      by eapply foreign_key_not_requested.
Qed.

(** What the first half of [UpdateSeatSelection] leaves when it goes
    through. *)
Lemma releaseOld_inl
    (MarkSeatsAvailable : DB → string → list string → option error * DB)
    (w w1 : World) (orderID flightID : string) (OldSeats : list string) :
  releaseOld MarkSeatsAvailable w orderID flightID OldSeats = inl w1 →
  locks w1 = (ReleaseLocks (locks w) flightID OldSeats orderID).2.
Proof.
  unfold releaseOld. destruct OldSeats as [|x l]; [by intros [= <-]|].
  cbn [length Nat.ltb Nat.leb].
  destruct (MarkSeatsAvailable (db w) flightID (x :: l)) as [[err|] db1]; [done|].
  by intros [= <-].
Qed.

Lemma UpdateSeatSelection_ok (T : Duration)
    (MarkSeatsReserved : DB → string → list string → string → option error * DB)
    (MarkSeatsAvailable : DB → string → list string → option error * DB)
    (w : World) (orderID flightID : string) (OldSeats NewSeats : list string) :
  let r := UpdateSeatSelection T MarkSeatsReserved MarkSeatsAvailable
             w orderID flightID OldSeats NewSeats in
  r.1 = None →
  Forall (fun seatID =>
            ¬ foreignLock (ReleaseLocks (locks w) flightID OldSeats orderID).2
                flightID orderID seatID) NewSeats
  ∧ locks r.2
    = setAll (ReleaseLocks (locks w) flightID OldSeats orderID).2
        flightID NewSeats orderID (lockTTL T).
Proof.
  intros r. unfold r, UpdateSeatSelection. cbv zeta.
  destruct (releaseOld _ _ _ _ _) as [w1|[err w1]] eqn:Hold; [|done].
  apply releaseOld_inl in Hold. rewrite <- Hold.
  destruct NewSeats as [|x l]; [by split; [constructor|]|].
  cbn [length Nat.ltb Nat.leb].
  destruct (LockSeats_cases (locks w1) flightID (x :: l) orderID (lockTTL T))
    as [[_ [err ->]]|[HF ->]]; [done|].
  by destruct (MarkSeatsReserved (db w1) flightID (x :: l) orderID) as [[err|] db2].
Qed.

(** X13.  When [UpdateSeatSelection] succeeds the order holds, of the old
    and the new seats, exactly the new ones: every new seat is locked for
    the order, no old seat that is not also a new one is locked for it
    any more, and the locks of other orders are as before.  The new
    locks have the configured timeout plus a minute as their time to
    live when that is a positive whole number of milliseconds. *)
Theorem UpdateSeatSelection_moves_the_locks (T : Duration)
    (MarkSeatsReserved : DB → string → list string → string → option error * DB)
    (MarkSeatsAvailable : DB → string → list string → option error * DB)
    (w : World) (orderID flightID : string) (OldSeats NewSeats : list string) :
  let r := UpdateSeatSelection T MarkSeatsReserved MarkSeatsAvailable
             w orderID flightID OldSeats NewSeats in
  r.1 = None →
  (∀ seatID, seatID ∈ NewSeats →
     GET (locks r.2) (seatLockKey flightID seatID) = Some orderID)
  ∧ (wholeMilliseconds (wrap64 (T + Minute)) →
     ∀ seatID, seatID ∈ NewSeats →
       locks r.2 !! seatLockKey flightID seatID
       = Some {| lock_owner := orderID; lock_ttl := wrap64 (T + Minute) |})
  ∧ (∀ seatID e, seatID ∈ OldSeats → ¬ (seatID ∈ NewSeats) →
       locks r.2 !! seatLockKey flightID seatID = Some e → lock_owner e ≠ orderID)
  ∧ (∀ key e, locks w !! key = Some e → lock_owner e ≠ orderID →
       locks r.2 !! key = Some e).
Proof.
  intros r Hok.
  destruct (UpdateSeatSelection_ok T MarkSeatsReserved MarkSeatsAvailable
              w orderID flightID OldSeats NewSeats Hok) as [HF Hlocks].
  fold r in Hlocks. split; [|split; [|split]].
  - intros seatID Hin. unfold GET. rewrite Hlocks.
    by rewrite SeatLockRepoSpec.setAll_requested.
  - intros _ seatID Hin. rewrite Hlocks. by apply SeatLockRepoSpec.setAll_requested.
  - intros seatID e Hold Hnew. rewrite Hlocks, SeatLockRepoSpec.setAll_other.
    + rewrite SeatLockRepoSpec.ReleaseLocks_lookup.
      destruct (locks w !! seatLockKey flightID seatID) as [e'|]; [|done].
      case_bool_decide as Hb; [done|]. intros [= <-] Ho. apply Hb.
      split; [|done]. apply list_elem_of_fmap. by exists seatID.
    + intros seatID' Hin Heq. apply seatLockKey_inj in Heq as ->. done.
  - intros key e He Ho.
    assert ((ReleaseLocks (locks w) flightID OldSeats orderID).2 !! key = Some e)
      as He'.
    { rewrite SeatLockRepoSpec.ReleaseLocks_lookup, He.
      rewrite bool_decide_eq_false_2; [done|]. by intros [_ ?]. }
    rewrite Hlocks, SeatLockRepoSpec.setAll_other; [done|].
    by eapply foreign_key_not_requested.
Qed.

Lemma UpdateSeatSelection_moves_the_locks_witness :
  locks (UpdateSeatSelection (15 * Minute)
           (fun d _ _ _ => (None, d)) (fun d _ _ => (None, d))
           Scenario.counterAtZero "o1" "f1" ["1A"] ["2A"; "2B"]).2
    !! seatLockKey "f1" "2B"
  = Some {| lock_owner := "o1"; lock_ttl := wrap64 (15 * Minute + Minute) |}.
Proof.
  refine (proj1 (proj2 (UpdateSeatSelection_moves_the_locks (15 * Minute)
                          (fun d _ _ _ => (None, d)) (fun d _ _ => (None, d))
                          Scenario.counterAtZero "o1" "f1" ["1A"] ["2A"; "2B"] _))
            _ "2B" _).
  - reflexivity.
  - split; reflexivity.
  - apply list_elem_of_In. simpl. tauto.
Defined.

(** X14.  Compensation in [UpdateSeatSelection].  The order holds its old
    seats, the seat rows of the old seats are set free without error, and
    one of the new seats is held by another order: the activity fails
    with the error of the lock attempt, and when it returns every lock
    has the owner it had before the call, the old seats being locked for
    the order anew (with the configured timeout plus a minute as their
    time to live, when that is a positive whole number of
    milliseconds). *)
Theorem UpdateSeatSelection_takes_old_seats_back (T : Duration)
    (MarkSeatsReserved : DB → string → list string → string → option error * DB)
    (MarkSeatsAvailable : DB → string → list string → option error * DB)
    (w : World) (orderID flightID : string) (OldSeats NewSeats : list string) :
  (MarkSeatsAvailable (db w) flightID OldSeats).1 = None →
  (∀ seatID, seatID ∈ OldSeats →
     ∃ e, locks w !! seatLockKey flightID seatID = Some e ∧ lock_owner e = orderID) →
  Exists (foreignLock (locks w) flightID orderID) NewSeats →
  let r := UpdateSeatSelection T MarkSeatsReserved MarkSeatsAvailable
             w orderID flightID OldSeats NewSeats in
  (∃ err, r.1 = Some (wrap "lock new seats" err))
  ∧ (∀ seatID, seatID ∈ OldSeats →
       GET (locks r.2) (seatLockKey flightID seatID) = Some orderID)
  ∧ (wholeMilliseconds (wrap64 (T + Minute)) →
     ∀ seatID, seatID ∈ OldSeats →
       locks r.2 !! seatLockKey flightID seatID
       = Some {| lock_owner := orderID; lock_ttl := wrap64 (T + Minute) |})
  ∧ (∀ key, (∀ seatID, seatID ∈ OldSeats → key ≠ seatLockKey flightID seatID) →
       locks r.2 !! key = locks w !! key)
  ∧ (∀ key, lock_owner <$> locks r.2 !! key = lock_owner <$> locks w !! key).
Proof.
  intros Havail Hheld Hforeign r.
  set (released := (ReleaseLocks (locks w) flightID OldSeats orderID).2).
  assert (∀ key, released !! key
                 = if decide (key ∈ map (seatLockKey flightID) OldSeats)
                   then None else locks w !! key) as Hreleased.
  { intros key. unfold released. rewrite SeatLockRepoSpec.ReleaseLocks_lookup.
    destruct (decide (key ∈ map (seatLockKey flightID) OldSeats)) as [Hin|Hnin].
    - pose proof Hin as Hin'. apply list_elem_of_fmap in Hin' as (seatID & -> & Hin').
      destruct (Hheld seatID Hin') as (e & -> & Ho).
      by rewrite bool_decide_eq_true_2.
    - destruct (locks w !! key); [|done].
      rewrite bool_decide_eq_false_2; [done|]. by intros [? _]. }
  assert (∃ w1, releaseOld MarkSeatsAvailable w orderID flightID OldSeats = inl w1
                ∧ locks w1 = released) as (w1 & Hold & Hw1).
  { unfold releaseOld, released. destruct OldSeats as [|x l]; [by exists w|].
    cbn [length Nat.ltb Nat.leb].
    destruct (MarkSeatsAvailable (db w) flightID (x :: l)) as [[err|] db1]; [done|].
    by eexists. }
  assert (Exists (foreignLock released flightID orderID) NewSeats) as Hforeign'.
  { eapply Exists_impl; [exact Hforeign|]. intros seatID (e & He & Ho).
    exists e. split; [|done]. rewrite Hreleased, decide_False; [done|].
    intros Hin. apply list_elem_of_fmap in Hin as (old & Heq & Hin).
    destruct (Hheld old Hin) as (e' & He' & Ho'). congruence. }
  assert (NewSeats ≠ []) as Hnew by (by destruct Hforeign).
  assert (Forall (fun seatID => ¬ foreignLock released flightID orderID seatID) OldSeats)
    as Hfree.
  { apply Forall_forall. intros seatID Hin (e & He & _).
    rewrite Hreleased, decide_True in He; [done|].
    apply list_elem_of_fmap. by exists seatID. }
  assert (∃ err, r = (Some (wrap "lock new seats" err),
                      {| db := (MarkSeatsReserved (db w1) flightID OldSeats orderID).2;
                         locks := setAll released flightID OldSeats orderID
                                    (lockTTL T) |})) as [err Hr].
  { unfold r, UpdateSeatSelection. cbv zeta. rewrite Hold.
    destruct NewSeats as [|x l]; [done|]. cbn [length Nat.ltb Nat.leb].
    rewrite Hw1.
    destruct (LockSeats_cases released flightID (x :: l) orderID (lockTTL T))
      as [[_ [err ->]]|[HF _]]; [|by apply Forall_Exists_neg in HF].
    exists err. do 2 f_equal.
    by destruct (LockSeats_cases released flightID OldSeats orderID (lockTTL T))
      as [[HF _]|[_ ->]]. }
  rewrite Hr. cbn [fst snd locks].
  assert (∀ seatID, seatID ∈ OldSeats →
            setAll released flightID OldSeats orderID (lockTTL T)
              !! seatLockKey flightID seatID
            = Some {| lock_owner := orderID; lock_ttl := wrap64 (T + Minute) |})
    as Hback.
  { intros seatID Hin. by apply SeatLockRepoSpec.setAll_requested. }
  assert (∀ key, (∀ seatID, seatID ∈ OldSeats → key ≠ seatLockKey flightID seatID) →
            setAll released flightID OldSeats orderID (lockTTL T) !! key
            = locks w !! key) as Hother.
  { intros key Hkey. rewrite SeatLockRepoSpec.setAll_other by done.
    rewrite Hreleased, decide_False; [done|]. intros Hin.
    apply list_elem_of_fmap in Hin as (seatID & -> & Hin). by apply (Hkey seatID). }
  split; [by exists err|].
  split; [by intros seatID Hin; unfold GET; rewrite (Hback seatID Hin)|].
  split; [done|]. split; [done|].
  intros key. destruct (decide (key ∈ map (seatLockKey flightID) OldSeats)) as [Hin|Hnin].
  - apply list_elem_of_fmap in Hin as (seatID & -> & Hin).
    rewrite (Hback seatID Hin). by destruct (Hheld seatID Hin) as (e & -> & <-).
  - rewrite Hother; [done|]. intros seatID Hin ->. apply Hnin.
    apply list_elem_of_fmap. by exists seatID.
Qed.

Lemma UpdateSeatSelection_takes_old_seats_back_witness :
  ∃ err,
    (UpdateSeatSelection (15 * Minute)
       (fun d _ _ _ => (None, d)) (fun d _ _ => (None, d))
       Scenario.twoOrders "o1" "f1" ["1A"] ["2A"]).1
    = Some (wrap "lock new seats" err).
Proof.
  refine (proj1 (UpdateSeatSelection_takes_old_seats_back (15 * Minute)
                   (fun d _ _ _ => (None, d)) (fun d _ _ => (None, d))
                   Scenario.twoOrders "o1" "f1" ["1A"] ["2A"] _ _ _)).
  - reflexivity.
  - intros seatID Hin. apply list_elem_of_singleton in Hin as ->.
    eexists. split; reflexivity.
  - apply Exists_cons_hd. eexists. split; [reflexivity | discriminate].
Defined.

(** X15.  When the seat rows of the old seats cannot be set free,
    [UpdateSeatSelection] returns that error with the locks of the old
    seats already released and nothing taken in their place: none of the
    old seats is locked for the order any more.  The workflow, given an
    error of this activity, keeps the old seats, the status and the
    deadline in its state. *)
Theorem failed_seat_release_leaves_the_order_unlocked (T : Duration)
    (MarkSeatsReserved : DB → string → list string → string → option error * DB)
    (MarkSeatsAvailable : DB → string → list string → option error * DB)
    (w : World) (orderID flightID : string) (OldSeats NewSeats : list string)
    (err : error) :
  OldSeats ≠ [] →
  (MarkSeatsAvailable (db w) flightID OldSeats).1 = Some err →
  let r := UpdateSeatSelection T MarkSeatsReserved MarkSeatsAvailable
             w orderID flightID OldSeats NewSeats in
  r.1 = Some (wrap "mark old seats available" err)
  ∧ locks r.2 = (ReleaseLocks (locks w) flightID OldSeats orderID).2
  ∧ (∀ seatID e, seatID ∈ OldSeats →
       locks r.2 !! seatLockKey flightID seatID = Some e → lock_owner e ≠ orderID)
  ∧ (∀ st signal updateErr now,
       let st' := (Workflow.onSeatUpdate st signal (Some updateErr) now).1 in
       Workflow.seats st' = Workflow.seats st
       ∧ Workflow.status st' = Workflow.status st
       ∧ Workflow.expiresAt st' = Workflow.expiresAt st).
Proof.
  intros Hold Hfail r.
  assert (r = (Some (wrap "mark old seats available" err),
               {| db := (MarkSeatsAvailable (db w) flightID OldSeats).2;
                  locks := (ReleaseLocks (locks w) flightID OldSeats orderID).2 |}))
    as ->.
  { unfold r, UpdateSeatSelection, releaseOld. cbv zeta.
    destruct OldSeats as [|x l]; [done|]. cbn [length Nat.ltb Nat.leb].
    destruct (MarkSeatsAvailable (db w) flightID (x :: l)) as [[e|] db1]; [|done].
    cbn in Hfail. by injection Hfail as ->. }
  cbn [fst snd locks]. split; [done|]. split; [done|]. split; [|done].
  intros seatID e Hin. rewrite SeatLockRepoSpec.ReleaseLocks_lookup.
  destruct (locks w !! seatLockKey flightID seatID) as [e'|]; [|done].
  case_bool_decide as Hb; [done|]. intros [= <-] Ho. apply Hb.
  split; [|done]. apply list_elem_of_fmap. by exists seatID.
Qed.

Lemma failed_seat_release_leaves_the_order_unlocked_witness :
  locks (UpdateSeatSelection (15 * Minute)
           (fun d _ _ _ => (None, d)) (fun d _ _ => (Some Scenario.seatsDown, d))
           Scenario.twoOrders "o1" "f1" ["1A"] ["3A"]).2
  = (ReleaseLocks (locks Scenario.twoOrders) "f1" ["1A"] "o1").2.
Proof.
  refine (proj1 (proj2 (failed_seat_release_leaves_the_order_unlocked (15 * Minute)
                          (fun d _ _ _ => (None, d))
                          (fun d _ _ => (Some Scenario.seatsDown, d))
                          Scenario.twoOrders "o1" "f1" ["1A"] ["3A"]
                          Scenario.seatsDown _ _))).
  - discriminate.
  - reflexivity.
Defined.



End ActivitiesSpec.

(** ** The service in front of the workflow *)

Module ServiceSpec.
Import TemporalClient BookingRequests.

(** X17.  [SubmitPayment] signals the workflow exactly for the codes of
    five decimal digits, once, and with the code as it was given; for
    every other code it returns the invalid-code error and sends nothing.
    On every code that it lets through, the payment callback of the
    workflow does not panic and the format check of [ValidatePayment]
    passes. *)
Theorem SubmitPayment_forwards_only_valid_codes (signal : option error)
    (orderID paymentCode : string) :
  let r := SubmitPayment signal orderID paymentCode in
  (Activities.fiveDecimalDigits paymentCode
   ∧ r.2 = [SignalWorkflow ("booking-" +:+ orderID) "" "proceed-to-payment"
              (PaymentSignal paymentCode)]
   ∧ (r.1 = None ↔ signal = None)
   ∧ (∀ st, Workflow.onPayment st paymentCode
            = (st, [Workflow.CancelTimer], Workflow.sel_paymentReceived paymentCode))
   ∧ Activities.paymentCodePattern paymentCode = true)
  ∨ (¬ Activities.fiveDecimalDigits paymentCode
     ∧ r = (Some ErrInvalidPaymentCode, [])).
Proof.
  intros r. unfold r, SubmitPayment, BookingService.isValidPaymentCode.
  destruct (Activities.digits 5 paymentCode) eqn:Hd; cbn [negb].
  - left. pose proof Hd as Hfive. apply PaymentSpec.digits_spec in Hfive.
    split; [done|]. split; [by destruct signal|]. split; [by destruct signal|].
    split; [|done]. intros st. unfold Workflow.onPayment.
    destruct (Workflow.sliceTo paymentCode 2) eqn:Hs; [done|].
    apply WorkflowSpec.sliceTo_None in Hs. destruct Hfive as [Hlen _]. lia.
  - right. split; [|done]. intros Hfive.
    apply PaymentSpec.digits_spec in Hfive. congruence.
Qed.

(** X18.  [CreateOrder] of the service starts a workflow only for a
    flight that exists and a seat list that is not empty; otherwise it
    returns the error without a call to the engine.  When it succeeds it
    has started one workflow, under the id [booking-] followed by the
    order id it drew, and it announces [SEATS_RESERVED] and a deadline 15
    minutes from its own clock.  If no order has that id or that workflow
    id, the [CreateOrder] activity run by that workflow on the same store
    succeeds and leaves the row in the announced status. *)
Theorem CreateOrder_starts_a_workflow_that_can_create_the_order (d : DB)
    (uuid : string) (now : Time) (start : option error) (flightID : string)
    (seatIDs : list string) :
  let r := CreateOrder d uuid now start flightID seatIDs in
  (flights d !! flightID = None → r = (inr ErrFlightNotFound, []))
  ∧ (is_Some (flights d !! flightID) → seatIDs = [] →
     r = (inr ErrSeatUnavailable, []))
  ∧ (∀ out, r.1 = inl out →
       start = None
       ∧ is_Some (flights d !! flightID) ∧ seatIDs ≠ []
       ∧ out = {| out_OrderID := uuid; out_WorkflowID := "booking-" +:+ uuid;
                  out_Status := OrderStatusSeatsReserved;
                  out_ExpiresAt := now + 15 * Minute |}
       ∧ r.2 = [ExecuteWorkflow ("booking-" +:+ uuid)
                  {| Workflow.in_OrderID := uuid; Workflow.in_FlightID := flightID;
                     Workflow.in_Seats := seatIDs |}]
       ∧ (orders d !! uuid = None →
          (∀ id o, orders d !! id = Some o → WorkflowID o ≠ "booking-" +:+ uuid) →
          ∀ l deadline,
            let a := Activities.CreateOrder {| Activities.db := d; Activities.locks := l |}
                       uuid flightID (out_WorkflowID out) seatIDs deadline in
            a.1 = None
            ∧ Status <$> orders (Activities.db a.2) !! uuid = Some (out_Status out))).
Proof.
  intros r. unfold r, CreateOrder, FlightRepo.FindByID.
  destruct (flights d !! flightID) as [flight|] eqn:Hflight.
  - split; [done|]. split.
    + by intros _ ->.
    + destruct seatIDs as [|x l0]; [done|]. cbn [length Nat.eqb].
      cbv zeta. unfold StartBookingWorkflow. cbv zeta.
      destruct start as [err|]; [done|]. cbn [fst snd Workflow.in_OrderID].
      intros out [= <-]. split; [done|]. split; [by eexists|]. split; [done|].
      split; [done|]. split; [done|].
      intros Hfresh Hwf l deadline.
      unfold Activities.CreateOrder, FlightRepo.FindByID, OrderRepo.Create.
      cbn [Activities.db Activities.locks ID FlightID WorkflowID out_WorkflowID
             out_Status].
      rewrite Hflight. cbv zeta. cbn [ID FlightID WorkflowID].
      rewrite bool_decide_eq_false_2 by (rewrite Hfresh; by intros [? ?]).
      rewrite bool_decide_eq_false_2.
      * rewrite bool_decide_eq_true_2 by (by eexists).
        cbn [fst snd Activities.db orders with_orders].
        split; [done|]. by rewrite lookup_insert_eq.
      * intros Hex. apply Exists_exists in Hex as ([id o] & Hin & Heq).
        apply elem_of_map_to_list in Hin. by apply (Hwf id o).
  - split; [done|]. split; [by intros [? ?]|]. done.
Qed.

(** X19.  The live answer and the fallback of [GetOrderStatus] agree.
    When the order row carries the order, status, seats and deadline of
    the workflow state, the response built from the query handler's
    answer and the one built from the row, at the same wall-clock time,
    show the same order, status, seats and seconds remaining; the
    fallback shows no payment attempts. *)
Theorem fallback_agrees_with_live_status (st : Workflow.bookingState) (d : DB)
    (now : Time) (id : string) (err : error) (o : Order) :
  orders d !! id = Some o →
  ID o = Workflow.orderID st → Status o = Workflow.status st →
  Seats o = Workflow.seats st → ExpiresAt o = Some (Workflow.expiresAt st) →
  Workflow.expiresAt st ≠ zeroTime →
  ∃ live fallback,
    BookingService.GetOrderStatus (inl (Workflow.toStatusResponse now st)) d now id
    = inl live
    ∧ BookingService.GetOrderStatus (inr err) d now id = inl fallback
    ∧ resp_OrderID fallback = resp_OrderID live
    ∧ resp_Status fallback = resp_Status live
    ∧ resp_Seats fallback = resp_Seats live
    ∧ resp_TimerRemaining fallback = resp_TimerRemaining live
    ∧ 0 <= resp_TimerRemaining live
    ∧ resp_PaymentAttempts fallback = 0.
Proof.
  intros Ho Hid Hstatus Hseats Hexp Hzero.
  unfold BookingService.GetOrderStatus, OrderRepo.FindByID. rewrite Ho.
  eexists _, _. split; [done|]. split; [done|].
  cbn [resp_OrderID resp_Status resp_Seats resp_TimerRemaining resp_PaymentAttempts
         Workflow.toStatusResponse BookingService.q_OrderID BookingService.q_Status
         BookingService.q_Seats BookingService.q_TimerRemaining].
  rewrite Hid, Hstatus, Hseats, Hexp. unfold IsZero.
  rewrite bool_decide_eq_false_2 by done. cbn [negb BookingService.timerRemaining].
  repeat (split; [done|]). split; [|done].
  pose proof (BookingServiceSpec.timerRemaining_nonneg now
                (Some (Workflow.expiresAt st))) as Hnn.
  exact Hnn.
Qed.

Lemma fallback_agrees_with_live_status_witness :
  ∃ live fallback,
    BookingService.GetOrderStatus
      (inl (Workflow.toStatusResponse (1 * Minute)
              (Workflow.finalState
                 (Workflow.BookingWorkflow Scenario.userCancels Scenario.input4))))
      Scenario.storeAfterCancel (1 * Minute) "o4"
    = inl live
    ∧ BookingService.GetOrderStatus (inr Scenario.queryFailed)
        Scenario.storeAfterCancel (1 * Minute) "o4" = inl fallback
    ∧ resp_TimerRemaining fallback = resp_TimerRemaining live.
Proof.
  destruct (fallback_agrees_with_live_status
              (Workflow.finalState
                 (Workflow.BookingWorkflow Scenario.userCancels Scenario.input4))
              Scenario.storeAfterCancel (1 * Minute) "o4" Scenario.queryFailed
              Scenario.rowAfterCancel)
    as (live & fallback & Hl & Hf & _ & _ & _ & Ht & _);
    [reflexivity | reflexivity | reflexivity | reflexivity | reflexivity
    | vm_compute; discriminate |].
  exists live, fallback. by repeat split.
Defined.

End ServiceSpec.

(** ** The payment simulator and its timeout *)

Module PaymentTiming.
Import Activities.

(** X20.  The simulator waits for at most seven seconds (whole seconds
    from one to seven when it runs to the end, less when its context ends
    first, none at all for a malformed code and for the two test codes),
    which is below the start-to-close timeout of ten seconds that the
    workflow gives the payment activity. *)
Theorem ValidatePayment_within_its_timeout (PaymentFailureRate : Qc) (draws : Draws)
    (orderID paymentCode : string) :
  0 <= Intn7 draws < 7 →
  (∀ after err, ctxDone draws = Some (after, err) → 0 <= after) →
  let r := ValidatePayment PaymentFailureRate draws orderID paymentCode in
  0 <= r.2 <= 7 * Second
  ∧ r.2 < Workflow.StartToCloseTimeout Workflow.paymentActivityOptions
  ∧ (Success r.1.1 = true → paymentCode = "99999" ∧ r.2 = 0 ∨ Second <= r.2)
  ∧ (ctxDone draws = None → r.2 = 0 ∨ r.2 = (Intn7 draws + 1) * Second).
Proof.
  intros Hdraw Hctx r. unfold r, ValidatePayment.
  cbn [Workflow.StartToCloseTimeout Workflow.paymentActivityOptions].
  unfold Second in *.
  destruct (negb (paymentCodePattern paymentCode)); [cbn; lia|].
  case_bool_decide; [cbn; lia|].
  case_bool_decide as H9; [cbn; split; [lia|]; split; [lia|]; split; auto|].
  destruct (ctxDone draws) as [[after err]|] eqn:Hdone.
  - specialize (Hctx after err eq_refl).
    destruct (after <? (Intn7 draws + 1) * 1000000000) eqn:Hlt.
    + apply Z.ltb_lt in Hlt. cbn. repeat split; try lia; done.
    + destruct (bool_decide _); cbn; repeat split; try lia; try done;
        intros _; right; lia.
  - destruct (bool_decide _); cbn; repeat split; try lia; try done;
      intros _; right; lia.
Qed.

Lemma ValidatePayment_within_its_timeout_witness :
  (ValidatePayment (Q2Qc (15 # 100))
     {| Intn7 := 6; Float64 := Q2Qc (1 # 2); ctxDone := None |} "o4" "12345").2
  < Workflow.StartToCloseTimeout Workflow.paymentActivityOptions.
Proof.
  refine (proj1 (proj2 (ValidatePayment_within_its_timeout (Q2Qc (15 # 100))
                          {| Intn7 := 6; Float64 := Q2Qc (1 # 2); ctxDone := None |}
                          "o4" "12345" _ _))).
  - cbn. lia.
  - intros after err. discriminate.
Defined.

End PaymentTiming.

(** ** Cross-origin headers *)

Module ApiSpec.
Import Api.

Lemma allowed_spec (allowedOrigins : list string) (origin : string) :
  allowed allowedOrigins origin = true ↔ In "*" allowedOrigins ∨ In origin allowedOrigins.
Proof.
  unfold allowed. rewrite existsb_exists. split.
  - intros (o & Hin & Ho). apply orb_true_iff in Ho as [Ho|Ho];
      apply bool_decide_eq_true in Ho; subst; auto.
  - intros [Hin|Hin]; eexists; (split; [exact Hin|]).
    + by rewrite bool_decide_eq_true_2.
    + rewrite (bool_decide_eq_true_2 (origin = origin)) by done. apply orb_true_r.
Qed.

(** X21.  The middleware names an allowed origin or none: the
    [Access-Control-Allow-Origin] header is missing exactly when no
    origin is configured; it repeats the origin of the request when that
    origin or [*] is configured, and is the first configured origin
    otherwise, so that without [*] it is always one of the configured
    origins.  A preflight request ([OPTIONS]) is answered with 204 and
    does not reach the next handler; every other request is handed on
    unchanged. *)
Theorem CORS_names_a_configured_origin (allowedOrigins : list string) (r : Request) :
  let headers := (CORS allowedOrigins r).1 in
  let allowOrigin := header "Access-Control-Allow-Origin" headers in
  (allowOrigin = None ↔ allowedOrigins = [])
  ∧ (In "*" allowedOrigins ∨ In (Origin r) allowedOrigins →
     allowOrigin = Some (Origin r))
  ∧ (¬ (In "*" allowedOrigins ∨ In (Origin r) allowedOrigins) →
     allowOrigin = head allowedOrigins)
  ∧ (¬ In "*" allowedOrigins → ∀ v, allowOrigin = Some v → In v allowedOrigins)
  ∧ (Method r = "OPTIONS" → (CORS allowedOrigins r).2 = inl 204)
  ∧ (Method r ≠ "OPTIONS" → (CORS allowedOrigins r).2 = inr r).
Proof.
  intros headers allowOrigin.
  assert (allowOrigin
          = if allowed allowedOrigins (Origin r) then Some (Origin r)
            else head allowedOrigins) as Hvalue.
  { unfold allowOrigin, headers, CORS. cbv zeta.
    assert (∀ l : list (string * string),
              (if bool_decide (Method r = MethodOptions)
               then (l, @inl Z Request StatusNoContent) else (l, inr r)).1 = l) as ->.
    { intros l. by destruct (bool_decide _). }
    destruct (allowed allowedOrigins (Origin r)); [done|].
    by destruct allowedOrigins. }
  pose proof (allowed_spec allowedOrigins (Origin r)) as Hallowed.
  split; [|split; [|split; [|split; [|split]]]].
  - rewrite Hvalue. destruct (allowed allowedOrigins (Origin r)) eqn:Ha.
    + split; [done|]. intros ->. done.
    + by destruct allowedOrigins.
  - intros Hin. apply Hallowed in Hin. by rewrite Hvalue, Hin.
  - intros Hnin. rewrite Hvalue.
    destruct (allowed allowedOrigins (Origin r)); [|done].
    exfalso. by apply Hnin, Hallowed.
  - intros Hstar v. rewrite Hvalue.
    destruct (allowed allowedOrigins (Origin r)) eqn:Ha.
    + intros [= <-]. apply allowed_spec in Ha as [?|?]; done.
    + destruct allowedOrigins as [|o l]; [done|]. intros [= <-]. by left.
  - intros Hm. unfold CORS. cbv zeta. by rewrite bool_decide_eq_true_2.
  - intros Hm. unfold CORS. cbv zeta. by rewrite bool_decide_eq_false_2.
Qed.

End ApiSpec.

(** ** Locks and seat rows: reconciliation and the seat map *)

Module ReconcileSpec.
Import SeatLockRepo Activities.

(** The seats that [FindSeats] returns are the rows of the flight, each
    once. *)
Lemma elem_of_FindSeats (orderBy : list Seat → list Seat) (d : DB) (flightID : string)
    (seat : Seat) :
  (∀ l, orderBy l ≡ₚ l) →
  seat ∈ FlightRepo.FindSeats orderBy d flightID
  ↔ ∃ row, seatRows d !! (flightID, seat_ID seat) = Some row
           ∧ seat = FlightRepo.seatOf ((flightID, seat_ID seat), row).
Proof.
  intros Hperm. unfold FlightRepo.FindSeats. rewrite Hperm.
  rewrite list_elem_of_fmap. split.
  - intros ([[f id] row] & -> & Hin). apply list_elem_of_filter in Hin as [Hf Hin].
    cbn in Hf. subst f. apply elem_of_map_to_list in Hin. by exists row.
  - intros (row & Hrow & Hseat). exists ((flightID, seat_ID seat), row).
    split; [done|]. apply list_elem_of_filter. split; [done|].
    by apply elem_of_map_to_list.
Qed.

Lemma NoDup_FindSeats (orderBy : list Seat → list Seat) (d : DB) (flightID : string) :
  (∀ l, orderBy l ≡ₚ l) →
  NoDup (seat_ID <$> FlightRepo.FindSeats orderBy d flightID).
Proof.
  intros Hperm. unfold FlightRepo.FindSeats. rewrite Hperm.
  rewrite <- list_fmap_compose.
  apply NoDup_fmap_2_strong.
  - intros [[f1 id1] r1] [[f2 id2] r2] Hin1 Hin2 Heq.
    apply list_elem_of_filter in Hin1 as [Hf1 Hin1].
    apply list_elem_of_filter in Hin2 as [Hf2 Hin2].
    cbn in Hf1, Hf2, Heq. subst.
    apply elem_of_map_to_list in Hin1, Hin2. congruence.
  - apply NoDup_filter, NoDup_map_to_list.
Qed.

Lemma dbReserved_snoc (l : list Seat) (seat : Seat) :
  dbReserved (l ++ [seat])
  = if bool_decide (seat_Status seat = SeatStatusReserved)
       || bool_decide (seat_Status seat = SeatStatusBooked)
    then match seat_OrderID seat with
         | Some orderID => <[seat_ID seat := orderID]> (dbReserved l)
         | None => dbReserved l
         end
    else dbReserved l.
Proof. unfold dbReserved. by rewrite foldl_app. Qed.

Lemma dbReserved_lookup (l : list Seat) (id owner : string) :
  NoDup (seat_ID <$> l) →
  dbReserved l !! id = Some owner
  ↔ ∃ seat, seat ∈ l ∧ seat_ID seat = id
            ∧ (seat_Status seat = SeatStatusReserved
               ∨ seat_Status seat = SeatStatusBooked)
            ∧ seat_OrderID seat = Some owner.
Proof.
  induction l as [|seat l IH] using rev_ind; intros Hnd.
  - split; [done|]. intros (seat & Hin & _). by apply elem_of_nil in Hin.
  - rewrite fmap_app in Hnd. apply NoDup_app in Hnd as (Hnd & Hfresh & _).
    specialize (IH Hnd). rewrite dbReserved_snoc.
    assert (∀ other, other ∈ l → seat_ID other ≠ seat_ID seat) as Hother.
    { intros other Hin Heq. apply (Hfresh (seat_ID other)).
      - apply list_elem_of_fmap. by exists other.
      - rewrite Heq. apply list_elem_of_singleton. done. }
    assert ((∃ s, s ∈ l ++ [seat] ∧ seat_ID s = id
                  ∧ (seat_Status s = SeatStatusReserved
                     ∨ seat_Status s = SeatStatusBooked)
                  ∧ seat_OrderID s = Some owner)
            ↔ (∃ s, s ∈ l ∧ seat_ID s = id
                    ∧ (seat_Status s = SeatStatusReserved
                       ∨ seat_Status s = SeatStatusBooked)
                    ∧ seat_OrderID s = Some owner)
              ∨ (seat_ID seat = id
                 ∧ (seat_Status seat = SeatStatusReserved
                    ∨ seat_Status seat = SeatStatusBooked)
                 ∧ seat_OrderID seat = Some owner)) as ->.
    { split.
      - intros (s & Hin & Hs). apply elem_of_app in Hin as [Hin|Hin].
        + left. by exists s.
        + apply list_elem_of_singleton in Hin as ->. by right.
      - intros [(s & Hin & Hs)|Hs].
        + exists s. split; [|done]. apply elem_of_app. by left.
        + exists seat. split; [|done]. apply elem_of_app. right.
          by apply list_elem_of_singleton. }
    rewrite <- IH.
    destruct (bool_decide (seat_Status seat = SeatStatusReserved)
              || bool_decide (seat_Status seat = SeatStatusBooked)) eqn:Hq.
    + assert (seat_Status seat = SeatStatusReserved
              ∨ seat_Status seat = SeatStatusBooked) as Hq'.
      { apply orb_true_iff in Hq as [Hq|Hq]; apply bool_decide_eq_true in Hq; auto. }
      destruct (seat_OrderID seat) as [o|] eqn:Ho.
      * destruct (decide (seat_ID seat = id)) as [<-|Hne].
        -- rewrite lookup_insert_eq. split.
           ++ intros [= <-]. by right.
           ++ intros [Hl|(_ & _ & [= <-])]; [|done].
              apply IH in Hl as (s & Hin & Heq & _). by apply Hother in Hin.
        -- rewrite lookup_insert_ne by done. split; [by left|].
           intros [?|(? & _)]; done.
      * split; [by left|]. intros [?|(_ & _ & ?)]; done.
    + split; [by left|]. intros [?|(_ & Hq' & _)]; [done|].
      apply orb_false_iff in Hq as [Hr Hb].
      apply bool_decide_eq_false in Hr, Hb. by destruct Hq'.
Qed.

(** The table built from the seat rows says, for a seat and an order,
    whether the row is reserved or booked for that order. *)
Lemma dbReserved_backed (orderBy : list Seat → list Seat) (d : DB)
    (flightID seatID owner : string) :
  (∀ l, orderBy l ≡ₚ l) →
  dbReserved (FlightRepo.FindSeats orderBy d flightID) !! seatID = Some owner
  ↔ FlightRepo.backed d flightID seatID owner = true.
Proof.
  intros Hperm. rewrite dbReserved_lookup by by apply NoDup_FindSeats.
  unfold FlightRepo.backed. split.
  - intros (seat & Hin & <- & Hq & Ho).
    apply (elem_of_FindSeats _ _ _ _ Hperm) in Hin as (row & -> & Hseat).
    rewrite Hseat in Hq, Ho. cbn in Hq, Ho.
    apply andb_true_iff. split.
    + apply orb_true_iff. destruct Hq as [Hq|Hq]; [left|right];
        by apply bool_decide_eq_true.
    + by apply bool_decide_eq_true.
  - destruct (seatRows d !! (flightID, seatID)) as [row|] eqn:Hrow; [|done].
    intros Hb. apply andb_true_iff in Hb as [Hq Ho].
    apply bool_decide_eq_true in Ho.
    exists (FlightRepo.seatOf ((flightID, seatID), row)). split.
    + apply (elem_of_FindSeats _ _ _ _ Hperm). by exists row.
    + split; [done|]. split; [|done]. cbn.
      apply orb_true_iff in Hq as [Hq|Hq]; apply bool_decide_eq_true in Hq; auto.
Qed.

Lemma elem_of_orphaned (redisLocks dbReservedSeats : gmap string string)
    (seatID : string) :
  seatID ∈ orphaned redisLocks dbReservedSeats
  ↔ ∃ owner, redisLocks !! seatID = Some owner
             ∧ dbReservedSeats !! seatID ≠ Some owner.
Proof.
  unfold orphaned. rewrite list_elem_of_fmap. split.
  - intros ([id owner] & -> & Hin). apply list_elem_of_filter in Hin as [Hne Hin].
    apply elem_of_map_to_list in Hin. by exists owner.
  - intros (owner & Hlock & Hne). exists (seatID, owner). split; [done|].
    apply list_elem_of_filter. split; [done|]. by apply elem_of_map_to_list.
Qed.

(** The store after the orphaned locks were released, by lookup. *)
Lemma releaseOrphans_lookup (redisLocks : gmap string string) (flightID : string)
    (orphanedLocks : list string) :
  ∀ (s : gmap string LockEntry) (key : string),
    releaseOrphans redisLocks flightID orphanedLocks s !! key
    = match s !! key with
      | Some e =>
          if bool_decide
               (Exists (fun seatID =>
                          key = seatLockKey flightID seatID
                          ∧ default "" (redisLocks !! seatID) = lock_owner e)
                  orphanedLocks)
          then None else Some e
      | None => None
      end.
Proof.
  induction orphanedLocks as [|seatID l IH]; intros s key.
  - cbn [releaseOrphans foldl].
    destruct (s !! key); [|done]. rewrite bool_decide_eq_false_2; [done|].
    by intros ?%Exists_nil.
  - change (releaseOrphans redisLocks flightID (seatID :: l) s)
      with (releaseOrphans redisLocks flightID l
              (ReleaseLocks s flightID [seatID] (default "" (redisLocks !! seatID))).2).
    rewrite IH.
    rewrite SeatLockRepoSpec.ReleaseLocks_lookup.
    destruct (s !! key) as [e|]; [|done]. cbn [map].
    destruct (decide (key = seatLockKey flightID seatID
                      ∧ default "" (redisLocks !! seatID) = lock_owner e))
      as [[-> Ho]|Hn].
    + rewrite (bool_decide_eq_true_2 (_ ∈ _ ∧ _)).
      * rewrite bool_decide_eq_true_2; [done|]. by apply Exists_cons_hd.
      * split; [|done]. apply list_elem_of_singleton. done.
    + rewrite (bool_decide_eq_false_2 (_ ∈ _ ∧ _)).
      * apply (f_equal (fun b : bool => if b then None else Some e)).
        apply bool_decide_ext. rewrite Exists_cons. tauto.
      * intros [Hin Ho]. apply list_elem_of_singleton in Hin. by apply Hn.
Qed.

(** What [ReconcileSeatLocks] leaves, by lookup. *)
Lemma ReconcileSeatLocks_lookup (stringmatch : string → string → bool)
    (orderBy : list Seat → list Seat) (w : World) (flightID : string) :
  (∀ key, stringmatch ("seat:lock:" +:+ flightID +:+ ":*") key
          = String.prefix ("seat:lock:" +:+ flightID +:+ ":") key) →
  (∀ l, orderBy l ≡ₚ l) →
  ∃ w', ReconcileSeatLocks stringmatch orderBy w flightID = Some (None, w')
        ∧ db w' = db w
        ∧ (∀ seatID,
             locks w' !! seatLockKey flightID seatID
             = match locks w !! seatLockKey flightID seatID with
               | Some e =>
                   if FlightRepo.backed (db w) flightID seatID (lock_owner e)
                   then Some e else None
               | None => None
               end)
        ∧ (∀ key, (∀ seatID, key ≠ seatLockKey flightID seatID) →
             locks w' !! key = locks w !! key).
Proof.
  intros Hmatch Hperm. unfold ReconcileSeatLocks.
  destruct (LockStoreMore.GetLockedSeats_lookup stringmatch flightID Hmatch (locks w))
    as (redisLocks & -> & Hredis).
  cbv zeta. eexists. split; [done|]. cbn [db locks]. split; [done|]. split.
  - intros seatID. rewrite releaseOrphans_lookup.
    destruct (locks w !! seatLockKey flightID seatID) as [e|] eqn:He; [|done].
    assert (redisLocks !! seatID = Some (lock_owner e)) as Hlock.
    { rewrite Hredis. unfold GET. by rewrite He. }
    destruct (FlightRepo.backed (db w) flightID seatID (lock_owner e)) eqn:Hb.
    + rewrite bool_decide_eq_false_2; [done|]. intros Hex.
      apply Exists_exists in Hex as (seatID' & Hin & Hkey & _).
      apply ActivitiesSpec.seatLockKey_inj in Hkey as <-.
      apply elem_of_orphaned in Hin as (owner & Ho & Hne).
      apply Hne. rewrite Hlock in Ho. injection Ho as <-.
      by apply dbReserved_backed.
    + rewrite bool_decide_eq_true_2; [done|]. apply Exists_exists.
      exists seatID. split; [|by rewrite Hlock].
      apply elem_of_orphaned. exists (lock_owner e). split; [done|].
      intros Hdb. apply (dbReserved_backed _ _ _ _ _ Hperm) in Hdb. congruence.
  - intros key Hkey. rewrite releaseOrphans_lookup.
    destruct (locks w !! key) as [e|]; [|done].
    rewrite bool_decide_eq_false_2; [done|]. intros Hex.
    apply Exists_exists in Hex as (seatID & _ & -> & _). by apply (Hkey seatID).
Qed.

(** A key is the lock of some seat of the flight, or of none. *)
Lemma key_of_flight (flightID key : string) :
  (∃ seatID, key = seatLockKey flightID seatID)
  ∨ (∀ seatID, key ≠ seatLockKey flightID seatID).
Proof.
  destruct (String.prefix ("seat:lock:" +:+ flightID +:+ ":") key) eqn:Hp.
  - left. apply LockStoreMore.prefix_append in Hp as (seatID & ->).
    exists seatID. by rewrite LockStoreMore.seatLockKey_prefix.
  - right. intros seatID ->. rewrite LockStoreMore.seatLockKey_prefix in Hp.
    assert (String.prefix ("seat:lock:" +:+ flightID +:+ ":")
              (("seat:lock:" +:+ flightID +:+ ":") +:+ seatID) = true) as Ht.
    { apply LockStoreMore.prefix_append. by exists seatID. }
    congruence.
Qed.

(** The activity only deletes, and what it keeps on the flight is
    backed. *)
Lemma ReconcileSeatLocks_sound (stringmatch : string → string → bool)
    (orderBy : list Seat → list Seat) (w w' : World) (flightID : string)
    (r : option error) :
  (∀ key, stringmatch ("seat:lock:" +:+ flightID +:+ ":*") key
          = String.prefix ("seat:lock:" +:+ flightID +:+ ":") key) →
  (∀ l, orderBy l ≡ₚ l) →
  ReconcileSeatLocks stringmatch orderBy w flightID = Some (r, w') →
  r = None ∧ db w' = db w
  ∧ (∀ key e, locks w' !! key = Some e → locks w !! key = Some e)
  ∧ (∀ seatID e, locks w' !! seatLockKey flightID seatID = Some e →
       FlightRepo.backed (db w) flightID seatID (lock_owner e) = true).
Proof.
  intros Hmatch Hperm Hrun.
  destruct (ReconcileSeatLocks_lookup stringmatch orderBy w flightID Hmatch Hperm)
    as (w1 & Hw1 & Hdb & Hseat & Hother).
  rewrite Hw1 in Hrun. injection Hrun as <- <-.
  split; [done|]. split; [done|]. split.
  - intros key e. destruct (key_of_flight flightID key) as [[seatID ->]|Hkey].
    + rewrite Hseat. destruct (locks w !! seatLockKey flightID seatID); [|done].
      by destruct (FlightRepo.backed _ _ _ _).
    + by rewrite Hother.
  - intros seatID e. rewrite Hseat.
    destruct (locks w !! seatLockKey flightID seatID) as [e'|]; [|done].
    destruct (FlightRepo.backed _ _ _ _) eqn:Hb; [|done]. by intros [= <-].
Qed.

(** X22.  [ReconcileSeatLocks] leaves exactly the locks of the flight
    that a seat row backs: a lock on a seat of the flight stays, as it
    is, when the seat's row is reserved or booked for the order that
    holds the lock, and is released otherwise; no other key of the lock
    store and nothing in the relational store is touched, and the
    activity returns no error.  Run a second time it changes nothing.
    (The matcher takes the pattern of [GetLockedSeats] as a prefix test,
    and [ORDER BY] permutes.) *)
Theorem ReconcileSeatLocks_keeps_backed_locks (stringmatch : string → string → bool)
    (orderBy : list Seat → list Seat) (w : World) (flightID : string) :
  (∀ key, stringmatch ("seat:lock:" +:+ flightID +:+ ":*") key
          = String.prefix ("seat:lock:" +:+ flightID +:+ ":") key) →
  (∀ l, orderBy l ≡ₚ l) →
  ∃ w', ReconcileSeatLocks stringmatch orderBy w flightID = Some (None, w')
        ∧ db w' = db w
        ∧ (∀ seatID e,
             locks w !! seatLockKey flightID seatID = Some e →
             locks w' !! seatLockKey flightID seatID
             = if FlightRepo.backed (db w) flightID seatID (lock_owner e)
               then Some e else None)
        ∧ (∀ key e, locks w' !! key = Some e → locks w !! key = Some e)
        ∧ (∀ key, (∀ seatID, key ≠ seatLockKey flightID seatID) →
             locks w' !! key = locks w !! key)
        ∧ ReconcileSeatLocks stringmatch orderBy w' flightID = Some (None, w').
Proof.
  intros Hmatch Hperm.
  destruct (ReconcileSeatLocks_lookup stringmatch orderBy w flightID Hmatch Hperm)
    as (w1 & Hw1 & Hdb & Hseat & Hother).
  destruct (ReconcileSeatLocks_sound stringmatch orderBy w w1 flightID None
              Hmatch Hperm Hw1) as (_ & _ & Hdel & Hbacked).
  exists w1. split; [done|]. split; [done|]. split; [|split; [done|split; [done|]]].
  - intros seatID e He. by rewrite Hseat, He.
  - destruct (ReconcileSeatLocks_lookup stringmatch orderBy w1 flightID Hmatch Hperm)
      as (w2 & Hw2 & Hdb2 & Hseat2 & Hother2).
    rewrite Hw2. do 2 f_equal. destruct w1 as [d1 l1], w2 as [d2 l2].
    cbn [db locks] in *. f_equal; [done|]. apply map_eq. intros key.
    destruct (key_of_flight flightID key) as [[seatID ->]|Hkey].
    + rewrite Hseat2. destruct (l1 !! seatLockKey flightID seatID) as [e|] eqn:He;
        [|done].
      rewrite Hdb. by rewrite (Hbacked seatID e He).
    + by apply Hother2.
Qed.

Lemma ReconcileSeatLocks_keeps_backed_locks_witness :
  ∃ w', ReconcileSeatLocks literalStar (fun l => l) Scenario.twoOrders "f1"
        = Some (None, w')
        ∧ db w' = db Scenario.twoOrders.
Proof.
  destruct (ReconcileSeatLocks_keeps_backed_locks literalStar (fun l => l)
              Scenario.twoOrders "f1") as (w' & Hrun & Hdb & _).
  - intros key. reflexivity.
  - intros l. reflexivity.
  - exists w'. split; [exact Hrun | exact Hdb].
Defined.

(** X23.  The reconciliation workflow fails only when the flights cannot
    be listed, and then does nothing.  Otherwise it returns no error,
    leaves the relational store alone, only deletes locks, and when it
    ends every lock that is left on a seat of a listed flight is backed
    by that seat's row, reserved or booked for the order that holds the
    lock.  (For the listed flights the matcher takes the pattern of
    [GetLockedSeats] as a prefix test, and [ORDER BY] permutes.) *)
Theorem SeatReconciliationWorkflow_leaves_backed_locks
    (stringmatch : string → string → bool) (orderBy : list Seat → list Seat)
    (getAllFlightIDs : list string + error) (w : World) :
  (∀ flightID key,
     inl flightID ∈ (match getAllFlightIDs with
                     | inl flightIDs => inl <$> flightIDs
                     | inr err => [inr err]
                     end : list (string + error)) →
     stringmatch ("seat:lock:" +:+ flightID +:+ ":*") key
     = String.prefix ("seat:lock:" +:+ flightID +:+ ":") key) →
  (∀ l, orderBy l ≡ₚ l) →
  let r := Reconciliation.SeatReconciliationWorkflow
             (ReconcileSeatLocks stringmatch orderBy) getAllFlightIDs w in
  match getAllFlightIDs with
  | inr err => r = (Some err, w)
  | inl flightIDs =>
      r.1 = None
      ∧ db r.2 = db w
      ∧ (∀ key e, locks r.2 !! key = Some e → locks w !! key = Some e)
      ∧ (∀ flightID seatID e,
           flightID ∈ flightIDs →
           locks r.2 !! seatLockKey flightID seatID = Some e →
           FlightRepo.backed (db w) flightID seatID (lock_owner e) = true)
  end.
Proof.
  intros Hmatch Hperm r. destruct getAllFlightIDs as [flightIDs|err]; [|done].
  unfold r, Reconciliation.SeatReconciliationWorkflow. cbn [fst snd].
  split; [done|].
  assert (∀ flightID key, flightID ∈ flightIDs →
            stringmatch ("seat:lock:" +:+ flightID +:+ ":*") key
            = String.prefix ("seat:lock:" +:+ flightID +:+ ":") key) as Hmatch'.
  { intros flightID key Hin. apply Hmatch. apply list_elem_of_fmap. by exists flightID. }
  clear Hmatch r. revert w.
  induction flightIDs as [|flightID rest IH]; intros w; cbn [Reconciliation.reconcileEach].
  - split; [done|]. split; [done|]. intros flightID seatID e Hin.
    by apply elem_of_nil in Hin.
  - assert (∀ key, stringmatch ("seat:lock:" +:+ flightID +:+ ":*") key
                   = String.prefix ("seat:lock:" +:+ flightID +:+ ":") key) as Hhere.
    { intros key. apply Hmatch'. by left. }
    destruct (ReconcileSeatLocks stringmatch orderBy w flightID) as [[res w1]|] eqn:Hrun.
    + apply ReconcileSeatLocks_sound in Hrun as (_ & Hdb & Hdel & Hbacked); [|done..].
      destruct (IH (fun f key Hin => Hmatch' f key (proj2 (elem_of_cons _ _ _) (or_intror Hin))) w1)
        as (Hdb' & Hdel' & Hbacked').
      split; [congruence|]. split; [by intros key e ?%Hdel'%Hdel|].
      intros f seatID e Hin He. apply elem_of_cons in Hin as [->|Hin].
      * apply Hbacked. by apply Hdel'.
      * rewrite <- Hdb. by apply (Hbacked' f seatID e).
    + exfalso.
      destruct (ReconcileSeatLocks_lookup stringmatch orderBy w flightID Hhere Hperm)
        as (w1 & Hw1 & _). congruence.
Qed.

Lemma SeatReconciliationWorkflow_leaves_backed_locks_witness :
  (Reconciliation.SeatReconciliationWorkflow
     (ReconcileSeatLocks literalStar (fun l => l)) (inl ["f1"]) Scenario.twoOrders).1
  = None.
Proof.
  refine (proj1 (SeatReconciliationWorkflow_leaves_backed_locks literalStar
                   (fun l => l) (inl ["f1"]) Scenario.twoOrders _ _)).
  - intros flightID key Hin. apply list_elem_of_singleton in Hin.
    injection Hin as ->. reflexivity.
  - intros l. reflexivity.
Defined.

(** *** The seat map *)

Lemma overlay_ID (lockedSeats : gmap string string) (seat : Seat) :
  seat_ID (FlightService.overlay lockedSeats seat) = seat_ID seat.
Proof.
  unfold FlightService.overlay. destruct (lockedSeats !! seat_ID seat); [|done].
  by destruct (bool_decide _).
Qed.

Lemma rowsOf_bounds (seats : list Seat) :
  ∀ rows,
    rows <= foldl (fun rows seat => if rows <? seat_Row seat then seat_Row seat else rows)
              rows seats
    ∧ Forall (fun seat =>
                seat_Row seat
                <= foldl (fun rows seat =>
                            if rows <? seat_Row seat then seat_Row seat else rows)
                     rows seats) seats.
Proof.
  induction seats as [|seat seats IH]; intros rows; cbn [foldl]; [by split|].
  destruct (IH (if rows <? seat_Row seat then seat_Row seat else rows)) as [Hle Hall].
  destruct (rows <? seat_Row seat) eqn:Hlt;
    [apply Z.ltb_lt in Hlt | apply Z.ltb_ge in Hlt];
    (split; [lia|]); (constructor; [lia|done]).
Qed.

(** X24.  The seat map of a flight lists every seat row of the flight
    once.  A seat is shown as available exactly when its row is available
    and the seat has no lock, as booked exactly when its row is booked,
    and as reserved otherwise; so a seat that any order has locked is
    never shown as available, and a seat shown as available can be locked
    by any order.  The number of rows shown is the highest row number.
    (The matcher takes the pattern of [GetLockedSeats] as a prefix test,
    and [ORDER BY] permutes.) *)
Theorem GetFlightWithSeats_shows_locked_seats_reserved
    (stringmatch : string → string → bool) (orderBy : list Seat → list Seat)
    (d : DB) (l : gmap string LockEntry) (flightID : string) (flight : Flight) :
  (∀ key, stringmatch ("seat:lock:" +:+ flightID +:+ ":*") key
          = String.prefix ("seat:lock:" +:+ flightID +:+ ":") key) →
  (∀ l, orderBy l ≡ₚ l) →
  flights d !! flightID = Some flight →
  ∃ seatMap,
    FlightService.GetFlightWithSeats stringmatch orderBy d l flightID
    = Some (inl (flight, seatMap))
    ∧ NoDup (seat_ID <$> FlightService.map_Seats seatMap)
    ∧ (∀ seatID, seatID ∈ seat_ID <$> FlightService.map_Seats seatMap
                 ↔ is_Some (seatRows d !! (flightID, seatID)))
    ∧ (∀ seat, seat ∈ FlightService.map_Seats seatMap →
         ∃ row, seatRows d !! (flightID, seat_ID seat) = Some row
                ∧ seat_Row seat = seat_Row row
                ∧ seat_Row seat <= FlightService.Rows seatMap
                ∧ (seat_Status seat = SeatStatusAvailable
                   ↔ seat_Status row = SeatStatusAvailable
                     ∧ l !! seatLockKey flightID (seat_ID seat) = None)
                ∧ (seat_Status seat = SeatStatusBooked
                   ↔ seat_Status row = SeatStatusBooked)
                ∧ (seat_Status seat = SeatStatusAvailable →
                   ∀ orderID ttl,
                     (LockSeats l flightID [seat_ID seat] orderID ttl).1 = None)).
Proof.
  intros Hmatch Hperm Hflight.
  unfold FlightService.GetFlightWithSeats, FlightRepo.FindByID. rewrite Hflight.
  destruct (LockStoreMore.GetLockedSeats_lookup stringmatch flightID Hmatch l)
    as (lockedSeats & -> & Hlocked).
  cbv zeta. eexists. split; [done|]. cbn [FlightService.map_Seats FlightService.Rows].
  assert (seat_ID <$> (FlightService.overlay lockedSeats
                         <$> FlightRepo.FindSeats orderBy d flightID)
          = seat_ID <$> FlightRepo.FindSeats orderBy d flightID) as Hids.
  { rewrite <- list_fmap_compose. apply list_fmap_ext. intros _ seat _.
    apply overlay_ID. }
  split; [|split].
  - rewrite Hids. by apply NoDup_FindSeats.
  - intros seatID. rewrite Hids, list_elem_of_fmap. split.
    + intros (seat & -> & Hin).
      apply (elem_of_FindSeats _ _ _ _ Hperm) in Hin as (row & Hrow & _). by exists row.
    + intros [row Hrow]. exists (FlightRepo.seatOf ((flightID, seatID), row)).
      split; [done|]. apply (elem_of_FindSeats _ _ _ _ Hperm). by exists row.
  - intros shown Hin.
    pose proof (rowsOf_bounds
                  (FlightService.overlay lockedSeats
                     <$> FlightRepo.FindSeats orderBy d flightID) 0) as [_ Hrows].
    rewrite Forall_forall in Hrows. specialize (Hrows shown Hin).
    apply list_elem_of_fmap in Hin as (seat & -> & Hin).
    apply (elem_of_FindSeats _ _ _ _ Hperm) in Hin as (row & Hrow & Hseat).
    rewrite overlay_ID in *. exists row. split; [done|].
    assert (lockedSeats !! seat_ID seat
            = lock_owner <$> l !! seatLockKey flightID (seat_ID seat)) as Hlock
      by apply Hlocked.
    assert (seat_Status seat = seat_Status row) as Hstatus by (by rewrite Hseat).
    assert (seat_Row seat = seat_Row row) as Hrow' by (by rewrite Hseat).
    assert (seat_Status (FlightService.overlay lockedSeats seat) = SeatStatusAvailable
            ↔ seat_Status row = SeatStatusAvailable
              ∧ l !! seatLockKey flightID (seat_ID seat) = None) as Havail.
    { unfold FlightService.overlay. rewrite Hlock.
      destruct (l !! seatLockKey flightID (seat_ID seat)) as [e|]; cbn.
      - case_bool_decide as Hb; cbn; [split; [done|by intros [_ ?]]|].
        rewrite Hstatus in *. split; [done|by intros [? _]].
      - rewrite Hstatus. split; [by split | by intros [? _]]. }
    split; [|split; [done|split; [done|split]]].
    + unfold FlightService.overlay. destruct (lockedSeats !! seat_ID seat); [|done].
      by destruct (bool_decide _).
    + unfold FlightService.overlay. rewrite Hlock.
      destruct (l !! seatLockKey flightID (seat_ID seat)) as [e|]; cbn;
        [|by rewrite Hstatus].
      case_bool_decide as Hb; cbn; rewrite Hstatus in *; [|done].
      split; [done|]. rewrite Hb. done.
    + intros Hshown orderID ttl. apply Havail in Hshown as [_ Hfree].
      unfold LockSeats. cbv zeta.
      rewrite (proj2 (SeatLockRepoSpec.checkResults_None flightID orderID l
                        [seat_ID seat])); [done|].
      constructor; [|constructor]. intros (e & He & _). congruence.
Qed.

Lemma GetFlightWithSeats_shows_locked_seats_reserved_witness :
  ∃ seatMap,
    FlightService.GetFlightWithSeats literalStar (fun l => l)
      (db Scenario.lockedNotReserved) (locks Scenario.lockedNotReserved) "f1"
    = Some (inl (Scenario.flight 5, seatMap))
    ∧ NoDup (seat_ID <$> FlightService.map_Seats seatMap).
Proof.
  destruct (GetFlightWithSeats_shows_locked_seats_reserved literalStar (fun l => l)
              (db Scenario.lockedNotReserved) (locks Scenario.lockedNotReserved)
              "f1" (Scenario.flight 5)) as (seatMap & Hrun & Hnd & _).
  - intros key. reflexivity.
  - intros l. reflexivity.
  - reflexivity.
  - exists seatMap. split; [exact Hrun | exact Hnd].
Defined.

End ReconcileSpec.

(** ** The order row and the workflow state *)

Module ReplaySpec.
Import Workflow Replay.








(** The insert of [CreateOrder] on a store that holds the flight and
    has neither the order id nor the workflow id. *)
Lemma orderEffect_CreateOrder (h : History) (input : BookingWorkflowInput) (d0 : DB)
    (now : Time) (flight : Flight) (ctx : Context) :
  flights d0 !! in_FlightID input = Some flight →
  orders d0 !! in_OrderID input = None →
  (∀ id o, orders d0 !! id = Some o → WorkflowID o ≠ WorkflowExecutionID h) →
  let d1 :=
    orderEffect now d0
      (ExecuteActivity ctx
         (a_CreateOrder (in_OrderID input) (in_FlightID input) (WorkflowExecutionID h)
            (in_Seats input) (Add (now0 h) holdDuration))) in
  orders d1 !! in_OrderID input = Some (createdRow h input flight)
  ∧ ∀ id, id ≠ in_OrderID input → orders d1 !! id = orders d0 !! id.
Proof.
  intros Hflight Hfree Hwf. cbn [orderEffect].
  unfold Activities.CreateOrder, FlightRepo.FindByID, OrderRepo.Create. cbv zeta.
  cbn [Activities.db Activities.locks ID FlightID WorkflowID].
  rewrite Hflight, Hfree.
  rewrite (bool_decide_eq_false_2 (is_Some None)) by (by intros [? ?]).
  rewrite bool_decide_eq_false_2.
  2:{ intros ([id o] & Hin & Heq)%Exists_exists.
      apply elem_of_map_to_list in Hin. by apply (Hwf id o). }
  rewrite bool_decide_eq_true_2 by (by eexists).
  cbn [snd Activities.db orders with_orders].
  split; [by rewrite lookup_insert_eq | by intros; rewrite lookup_insert_ne].
Qed.




(** X26.  When [ReserveSeats] fails the workflow returns [FAILED] with
    the error, and no activity of the run has closed the order that
    [CreateOrder] inserted: on the same store as above the row stays in
    [SEATS_RESERVED] with no failure reason. *)
Theorem failed_reservation_leaves_the_row_reserved (h : History)
    (input : BookingWorkflowInput) (d0 : DB) (now : Time) (flight : Flight)
    (e : error) :
  flights d0 !! in_FlightID input = Some flight →
  orders d0 !! in_OrderID input = None →
  (∀ id o, orders d0 !! id = Some o → WorkflowID o ≠ WorkflowExecutionID h) →
  createOrder h = None → reserveSeats h = Some e →
  ∃ st res tr row,
    BookingWorkflow h input = Completed st res (Some e) tr
    ∧ status st = OrderStatusFailed
    ∧ lastError st = Error e
    ∧ orders (replay now d0 tr) !! in_OrderID input = Some row
    ∧ Status row = OrderStatusSeatsReserved
    ∧ Seats row = in_Seats input
    ∧ FailureReason row = None.
Proof.
  intros Hflight Hfree Hwf Hcreate Hreserve.
  destruct (orderEffect_CreateOrder h input d0 now flight orderCtx Hflight Hfree Hwf)
    as [Hrow _].
  unfold BookingWorkflow, body. cbv zeta. cbn [SetQueryHandler].
  rewrite Hcreate, Hreserve.
  eexists _, _, _, (createdRow h input flight). split; [reflexivity|].
  split; [done|]. split; [done|]. split; [|done].
  unfold deferred. rewrite bool_decide_eq_true_2 by done.
  cbn [orb app replay foldl]. exact Hrow.
Qed.

Lemma failed_reservation_leaves_the_row_reserved_witness :
  ∃ row,
    orders (replay 0 (Activities.db Scenario.noOrders)
              (traceOf (BookingWorkflow Scenario.seatsTaken Scenario.input4)))
      !! "o4" = Some row
    ∧ Status row = OrderStatusSeatsReserved
    ∧ status (finalState (BookingWorkflow Scenario.seatsTaken Scenario.input4))
      = OrderStatusFailed.
Proof.
  destruct (failed_reservation_leaves_the_row_reserved Scenario.seatsTaken
              Scenario.input4 (Activities.db Scenario.noOrders) 0 (Scenario.flight 5)
              Scenario.lockedByOther eq_refl eq_refl (fun id o H => ltac:(done))
              eq_refl eq_refl)
    as (st & res & tr & row & Hrun & Hst & _ & Hrow & Hstatus & _).
  exists row. rewrite Hrun. cbn [traceOf finalState]. by repeat split.
Defined.

End ReplaySpec.
